(** * swyft: the simulator adapter, the prior, the nested-round scheduler,
      the Points dataset and the rejection sampler, embedded from the Python
      sources and checked against the specification.

    Python values are modelled as follows.
    - A call that can raise returns [result A]: [Ok a] or [Raise e], with the
      exception classes the sources raise (or let escape) as constructors.
    - Floats that only flow through comparisons and arithmetic are rationals
      ([Q]) or reals ([R]); observable entries, which may be NaN or infinite,
      are [num].
    - Dictionaries whose iteration order matters are association lists;
      Python sets are [gset]; objects reached through several names live in
      a store (a [gmap] from locations to objects). *)

From Stdlib Require Import ZArith QArith Reals Psatz.
From stdpp Require Import base option list strings gmap sets.

#[global] Set Warnings "-clear-no-such-hyp".

(* ===================================================================== *)
(** * Python exceptions and the error monad *)
(* ===================================================================== *)

Inductive exn :=
| AssertionError (msg : string)
| AttributeError (attr : string)
| KeyError (key : string)
| IndexError
| ValueError (msg : string)
| RuntimeError (msg : string)
| TypeError
| ZeroDivisionError
| MissingModelError (msg : string)
| ModelRaised (code : nat).   (* any exception escaping the user's model *)

Inductive result (A : Type) := Ok (a : A) | Raise (e : exn).
Arguments Ok {A} a.
Arguments Raise {A} e.

#[export] Instance result_ret : MRet result := fun A a => Ok a.
#[export] Instance result_bind : MBind result := fun A B f m =>
  match m with Ok a => f a | Raise e => Raise e end.

Definition is_ok {A} (r : result A) : bool :=
  match r with Ok _ => true | Raise _ => false end.

(* ===================================================================== *)
(** * store/simulator.py *)
(* ===================================================================== *)

Module Simulator.

(** class SimulationStatus(enum.IntEnum) *)
Inductive SimulationStatus := PENDING | RUNNING | FINISHED | FAILED.

#[global] Instance SimulationStatus_eq_dec : EqDecision SimulationStatus.
Proof. solve_decision. Defined.

Definition status_value (s : SimulationStatus) : Z :=
  match s with PENDING => 0 | RUNNING => 1 | FINISHED => 2 | FAILED => 3 end.

(** [if s:] on an IntEnum member, and the cast done by storing it into an
    array of dtype bool: both are "value is not zero". *)
Definition truthy (s : SimulationStatus) : bool := negb (status_value s =? 0)%Z.
Definition np_bool (s : SimulationStatus) : bool := negb (status_value s =? 0)%Z.

(** One entry of an observable: a finite float, an infinity or NaN. *)
Inductive num := Finite (q : Q) | PosInf | NegInf | NaN.

Definition isfinite (v : num) : bool :=
  match v with Finite _ => true | _ => false end.

(** What a model invocation returns: a dictionary from observable names to
    arrays (observables are modelled as 1-d arrays) or to None, in insertion
    order, or any other object. *)
Inductive pyobj :=
| PyDict (items : list (string * option (list num)))
| PyOther (repr : string).

Definition point := list Q.

(** Modelled from the spec: swyft.utils.all_finite is imported by
    simulator.py but is not among the sources; following "contains a
    non-finite value", a dictionary is all-finite when every entry of every
    array is finite.  (It is never reached with a None value: [_has_failed]
    tests for None first.) *)
Definition all_finite (items : list (string * option (list num))) : bool :=
  forallb (fun kv : string * option (list num) =>
             match kv.2 with Some a => forallb isfinite a | None => false end)
          items.

(** def _has_failed(x, fail_on_non_finite) *)
Definition _has_failed (x : pyobj) (fail_on_non_finite : bool)
  : result SimulationStatus :=
  match x with
  | PyOther _ => Raise (AssertionError "Simulators must return a dictionary.")
  | PyDict items =>
      if existsb (fun kv : string * option (list num) =>
                    match kv.2 with None => true | Some _ => false end) items
      then Ok FAILED
      else if fail_on_non_finite && negb (all_finite items)
      then Ok FAILED
      else Ok FINISHED
  end.

(** np.full((chunk_size, shp), np.nan) *)
Definition np_full (chunk_size shp : nat) : list (list num) :=
  replicate chunk_size (replicate shp NaN).

(** The right-hand side of [x[obs][i] = val], broadcast to the row it is
    stored into: None becomes NaN, an array of the row's length is copied, a
    one-element array is repeated, anything else is a broadcast error. *)
Definition broadcast_to (shp : nat) (val : option (list num))
  : result (list num) :=
  match val with
  | None => Ok (replicate shp NaN)
  | Some a =>
      if decide (length a = shp) then Ok a
      else match a with
           | [v] => Ok (replicate shp v)
           | _ => Raise (ValueError "could not broadcast input array")
           end
  end.

Definition setitem_row (rows : list (list num)) (i : nat)
    (val : option (list num)) : result (list (list num)) :=
  match rows !! i with
  | None => Raise IndexError
  | Some old => new ← broadcast_to (length old) val; Ok (<[i := new]> rows)
  end.

(** x[obs][i] = val, on the dictionary of result arrays *)
Definition setitem (x : gmap string (list (list num))) (obs : string)
    (i : nat) (val : option (list num))
  : result (gmap string (list (list num))) :=
  match x !! obs with
  | None => Raise (KeyError obs)
  | Some rows => rows' ← setitem_row rows i val; Ok (<[obs := rows']> x)
  end.

(** for obs, val in out.items(): x[obs][i] = val *)
Fixpoint store_items (x : gmap string (list (list num))) (i : nat)
    (items : list (string * option (list num)))
  : result (gmap string (list (list num))) :=
  match items with
  | [] => Ok x
  | (obs, val) :: rest => x' ← setitem x obs i val; store_items x' i rest
  end.

Definition items_of (out : pyobj)
  : result (list (string * option (list num))) :=
  match out with
  | PyDict items => Ok items
  | PyOther _ => Raise (AttributeError "items")
  end.

(** The body of [for i, z_i in enumerate(z)], from index [i] on. *)
Fixpoint chunk_loop (model : point -> result pyobj) (fail_on_non_finite : bool)
    (i : nat) (z : list point)
    (st : gmap string (list (list num)) * list bool)
  : result (gmap string (list (list num)) * list bool) :=
  match z with
  | [] => Ok st
  | z_i :: rest =>
      out ← model z_i;
      _failed ← _has_failed out fail_on_non_finite;
      st' ← (if truthy _failed
             then items ← items_of out;
                  x' ← store_items st.1 i items;
                  Ok (x', <[i := np_bool _failed]> st.2)
             else Ok st);
      chunk_loop model fail_on_non_finite (S i) rest st'
  end.

(** def _run_model_chunk(z, model, sim_shapes, fail_on_non_finite) *)
Definition _run_model_chunk (z : list point) (model : point -> result pyobj)
    (sim_shapes : gmap string nat) (fail_on_non_finite : bool)
  : result (gmap string (list (list num)) * list bool) :=
  let chunk_size := length z in
  let x := np_full chunk_size <$> sim_shapes in
  let has_failed := replicate (length z) false in
  chunk_loop model fail_on_non_finite 0 z (x, has_failed).

(** class Simulator, without its dask client. *)
Record t := {
  model : point -> result pyobj;
  sim_shapes : gmap string nat;
  fail_on_non_finite : bool
}.

(** {k: v.shape for k, v in obs.items()}, filled from left to right; a value
    that is None has no shape. *)
Fixpoint shapes_of (acc : gmap string nat)
    (items : list (string * option (list num))) : result (gmap string nat) :=
  match items with
  | [] => Ok acc
  | (k, None) :: _ => Raise (AttributeError "shape")
  | (k, Some a) :: rest => shapes_of (<[k := length a]> acc) rest
  end.

(** def from_model(cls, model, prior, fail_on_non_finite=True); [z0] is the
    point prior.sample(1)[0] the model is probed with. *)
Definition from_model (model : point -> result pyobj) (z0 : point)
    (fail_on_non_finite : bool) : result t :=
  obs ← model z0;
  items ← items_of obs;
  sim_shapes ← shapes_of ∅ items;
  Ok {| model := model; sim_shapes := sim_shapes;
        fail_on_non_finite := fail_on_non_finite |}.

End Simulator.


(* ===================================================================== *)
(** * marginals/prior.py *)
(* ===================================================================== *)

(** Python's [d[k]] on a dictionary kept as an association list. *)
Fixpoint dict_get {V} (d : list (string * V)) (k : string) : result V :=
  match d with
  | [] => Raise (KeyError k)
  | (k', v) :: d' => if decide (k' = k) then Ok v else dict_get d' k
  end.

(** A dictionary comprehension / loop that fills a fresh dictionary and
    stops at the first exception. *)
Fixpoint dict_mapM {V W} (f : string -> V -> result W) (d : list (string * V))
  : result (list (string * W)) :=
  match d with
  | [] => Ok []
  | (k, v) :: d' => w ← f k v; r ← dict_mapM f d'; Ok ((k, w) :: r)
  end.

Module Prior1d.

(** The torch distribution object built by the constructor. *)
Inductive dist :=
| Normal (loc scale : Q)
| Uniform (x0 x1 : Q)
| LogNormal (loc scale : Q).

Record t := { tag : string; args : list Q; prior : dist }.

(** def __init__(self, tag, *args) *)
Definition __init__ (tag : string) (args : list Q) : result t :=
  if decide (tag = "normal") then
    match args with
    | loc :: scale :: _ => Ok {| tag := tag; args := args; prior := Normal loc scale |}
    | _ => Raise IndexError
    end
  else if decide (tag = "uniform") then
    match args with
    | x0 :: x1 :: _ => Ok {| tag := tag; args := args; prior := Uniform x0 x1 |}
    | _ => Raise IndexError
    end
  else if decide (tag = "lognormal") then
    match args with
    | loc :: scale :: _ => Ok {| tag := tag; args := args; prior := LogNormal loc scale |}
    | _ => Raise IndexError
    end
  else Raise (KeyError "Tag unknown").

Definition state_dict (self : t) : string * list Q := (tag self, args self).

Definition from_state_dict (state_dict : string * list Q) : result t :=
  __init__ state_dict.1 state_dict.2.

End Prior1d.

Module Prior.

(** BallMask(ind_points) and ComboMask(masklist): swyft.marginals.mask is not
    among the sources, so a mask is the data its constructor receives. *)
Record BallMask := { ind_points : list Q }.
Definition ComboMask := list (string * BallMask).

(** prior_config maps a parameter name to (tag, arg, ...). *)
Definition PriorConfig := list (string * (string * list Q)).

Record t := {
  prior_config : PriorConfig;
  mask : option ComboMask;
  priors : list (string * Prior1d.t)
}.

(** def _setup_priors(self) *)
Definition _setup_priors (prior_config : PriorConfig)
  : result (list (string * Prior1d.t)) :=
  dict_mapM (fun _ (value : string * list Q) => Prior1d.__init__ value.1 value.2)
            prior_config.

(** def __init__(self, prior_config, mask=None) *)
Definition __init__ (prior_config : PriorConfig) (mask : option ComboMask)
  : result t :=
  ps ← _setup_priors prior_config;
  Ok {| prior_config := prior_config; mask := mask; priors := ps |}.


Section Collaborators.

(** What the absent mask class and torch provide. *)
Context {MaskState : Type}.
Variable mask_volume : ComboMask -> Q.                   (* mask.volume *)
Variable mask_state_dict : ComboMask -> MaskState.       (* mask.state_dict() *)
Variable mask_from_state_dict : MaskState -> ComboMask.
                                          (* ComboMask.from_state_dict(sd) *)
Variable cdf : Prior1d.dist -> Q -> Q.                   (* self.prior.cdf *)

(** def volume(self) *)
Definition volume (self : t) : Q :=
  match mask self with
  | None => 1
  | Some m => mask_volume m
  end.

Record StateDict := { sd_prior_config : PriorConfig; sd_mask : option MaskState }.

(** def state_dict(self) *)
Definition state_dict (self : t) : StateDict :=
  let mask_dict := match mask self with
                   | None => None
                   | Some m => Some (mask_state_dict m)
                   end in
  {| sd_prior_config := prior_config self; sd_mask := mask_dict |}.

(** def from_state_dict(cls, state_dict) *)
Definition from_state_dict (state_dict : StateDict) : result t :=
  let mask := match sd_mask state_dict with
              | None => None
              | Some sd => Some (mask_from_state_dict sd)
              end in
  __init__ (sd_prior_config state_dict) mask.

(** def to_cube(self, X) *)
Definition to_cube (self : t) (X : list (string * list Q))
  : result (list (string * list Q)) :=
  dict_mapM (fun k (v : Prior1d.t) =>
               match dict_get X k with
               | Ok xs => Ok (cdf (Prior1d.prior v) <$> xs)
               | Raise e => Raise e
               end)
            (priors self).

(** ndarray.max(): the largest entry; an empty array has none. *)
Definition Qltb (a b : Q) : bool := negb (Qle_bool b a).

Definition np_max (l : list Q) : result Q :=
  match l with
  | [] => Raise (ValueError "zero-size array to reduction operation maximum")
  | x :: l' => Ok (foldl (fun m y => if Qltb m y then y else m) x l')
  end.

(** [lnL[(k,)].max() - lnL[(k,)] < -th], entrywise. *)
Definition point_mask (lnL_k : list Q) (th : Q) : result (list bool) :=
  mx ← np_max lnL_k;
  Ok ((fun s => Qltb (mx - s) (- th)) <$> lnL_k).

(** [v[mask]] for a boolean mask: the lengths must agree. *)
Fixpoint bool_index (v : list Q) (mask : list bool) : result (list Q) :=
  match v, mask with
  | [], [] => Ok []
  | x :: v', b :: mask' =>
      r ← bool_index v' mask'; Ok (if b then x :: r else r)
  | _, _ => Raise IndexError
  end.

(** The ratio estimator, seen through [re.lnL(obs, pars)], whose result is
    keyed by the one-parameter tuples (k,). *)
Context {Obs : Type}.
Record RatioEstimator := {
  lnL : Obs -> list (string * list Q) -> list (string * list Q)
}.

(** [self.sample(N)] draws at random; the draw is an argument here. *)
Variable sample : t -> Z -> list (string * list Q).

(** def get_masked(self, obs, re, N=10000, th=-7) *)
Definition get_masked (self : t) (obs : Obs) (re : option RatioEstimator)
    (N : Z) (th : Q) : result t :=
  match re with
  | None => Ok self
  | Some re =>
      let pars := sample self N in
      let lnL := lnL re obs pars in
      cube ← to_cube self pars;
      masklist ← dict_mapM (fun k (v : list Q) =>
                    l ← dict_get (V:=list Q) lnL k;
                    mask ← point_mask l th;
                    ind_points ← bool_index v mask;
                    Ok {| ind_points := ind_points |}) cube;
      __init__ (prior_config self) (Some masklist)
  end.

Variable icdf : Prior1d.dist -> Q -> Q.                  (* self.prior.icdf *)

(** def from_cube(self, values) *)
Definition from_cube (self : t) (values : list (string * list Q))
  : result (list (string * list Q)) :=
  dict_mapM (fun key (value : list Q) =>
               match dict_get (priors self) key with
               | Ok d => Ok (icdf (Prior1d.prior d) <$> value)
               | Raise e => Raise e
               end)
            values.

End Collaborators.

End Prior.

(* ===================================================================== *)
(** * interface.py *)
(* ===================================================================== *)

(** class Marginals: a ratio estimator paired with the prior it was trained
    on.  The prior class is imported from a module that is not among the
    sources; the container is generic in it and in [get_masked]. *)
Module Marginals.
Section Generic.
Context {RE Prior Obs : Type}.
Variable get_masked : Prior -> Obs -> RE -> Z -> Q -> result Prior.

Record t := { _re : RE; _prior : Prior }.

Definition prior (self : t) : Prior := _prior self.
Definition ratio (self : t) : RE := _re self.

(** def gen_constr_prior(self, obs, th=-10): N keeps get_masked's default. *)
Definition gen_constr_prior (self : t) (obs : Obs) (th : Q) : result Prior :=
  get_masked (_prior self) obs (_re self) 10000%Z th.

End Generic.
Arguments t : clear implicits.
End Marginals.

Module NestedRatios.

#[local] Instance Rlt_decision (x y : R) : Decision (x < y)%R := Rlt_dec x y.
#[local] Instance Req_decision (x y : R) : Decision (x = y) := Req_dec_T x y.

(** A float that may have left the reals, as [np.log] can return. *)
Inductive xfloat := XFin (r : R) | XPosInf | XNegInf | XNaN.

(** np.log: -inf at 0 and nan below. *)
Definition np_log (v : R) : xfloat :=
  if decide (0 < v)%R then XFin (ln v)
  else if decide (v = 0%R) then XNegInf else XNaN.

Definition xsub (a b : xfloat) : xfloat :=
  match a, b with
  | XFin x, XFin y => XFin (x - y)
  | XNaN, _ | _, XNaN => XNaN
  | XPosInf, XPosInf | XNegInf, XNegInf => XNaN
  | XPosInf, _ | _, XNegInf => XPosInf
  | XNegInf, _ | _, XPosInf => XNegInf
  end.

(** [a < th] for a finite threshold: false on nan. *)
Definition xlt (a : xfloat) (th : R) : bool :=
  match a with
  | XFin x => bool_decide (x < th)%R
  | XNegInf => true
  | XPosInf | XNaN => false
  end.

(** Python's builtin max(a, b) and min(a, b): the second argument wins only
    when it is strictly larger, resp. smaller. *)
Definition py_max (a b : R) : R := if decide (a < b)%R then b else a.
Definition py_min (a b : R) : R := if decide (b < a)%R then b else a.

(** x ** y on floats for a base that is not negative. *)
Definition fpow (x y : R) : R :=
  if decide (x = 0%R) then (if decide (y = 0%R) then 1%R else 0%R)
  else Rpower x y.

(** x / y on Python floats. *)
Definition py_div (x y : R) : result R :=
  if decide (y = 0%R) then Raise ZeroDivisionError else Ok (x / y)%R.

(** The test that ends a round:
    np.log(prior_R.volume()) - np.log(constr_prior_R.volume()) < volume_conv_th *)
Definition volume_converged (v_prior v_constr volume_conv_th : R) : bool :=
  xlt (xsub (np_log v_prior) (np_log v_constr)) volume_conv_th.

Section Collaborators.

(** The classes interface.py imports from modules that are not among the
    sources, with the operations [run] and [_amortize] use. *)
Context {Prior Cache Model RE Obs : Type}.
Variable volume : Prior -> R.                              (* prior.volume() *)
Variable get_masked : Prior -> Obs -> RE -> Z -> Q -> result Prior.
Variable cache_params : Cache -> list string.              (* cache.params *)
Variable cache_grow : Cache -> Prior -> R -> Cache.        (* cache.grow(prior, N) *)
Variable cache_requires_sim : Cache -> bool.               (* cache.requires_sim *)
Variable cache_simulate : Cache -> Model -> Cache.         (* cache.simulate(model) *)
(** cache.sample(prior, N), Points(...), RatioEstimator(...), re.train(...):
    reads the cache and returns the trained estimator, or raises. *)
Variable train : Cache -> Prior -> R -> result RE.

(** One entry of self._history. *)
Record round := {
  marginals : option (Marginals.t RE Prior);
  constr_prior : option Prior;
  N : R
}.

Record t := {
  _model : option Model;
  _obs : Obs;
  _cache : Cache;
  _converged : bool;
  _base_prior : Prior;
  _history : list round
}.

Definition converged (self : t) : bool := _converged self.

(** def R(self): number of rounds ([R] itself names the reals here) *)
Definition R_ (self : t) : nat := length (_history self).

Definition requires_sim (self : t) : bool := cache_requires_sim (_cache self).

Definition set_cache (self : t) (c : Cache) : t :=
  {| _model := _model self; _obs := _obs self; _cache := c;
     _converged := _converged self; _base_prior := _base_prior self;
     _history := _history self |}.

Definition set_history (self : t) (h : list round) : t :=
  {| _model := _model self; _obs := _obs self; _cache := _cache self;
     _converged := _converged self; _base_prior := _base_prior self;
     _history := h |}.

Definition set_converged (self : t) (b : bool) : t :=
  {| _model := _model self; _obs := _obs self; _cache := _cache self;
     _converged := b; _base_prior := _base_prior self;
     _history := _history self |}.

(** def _amortize(self, prior, param_list, N, ...): the cache is updated in
    place, also when the call raises. *)
Definition _amortize (self : t) (prior : Prior) (N : R)
  : t * result (Marginals.t RE Prior) :=
  let c1 := cache_grow (_cache self) prior N in
  if cache_requires_sim c1 then
    match _model self with
    | Some model =>
        let c2 := cache_simulate c1 model in
        (set_cache self c2,
         re ← train c2 prior N; Ok {| Marginals._re := re; Marginals._prior := prior |})
    | None => (set_cache self c1, Raise (MissingModelError "Model not defined."))
    end
  else
    (set_cache self c1,
     re ← train c1 prior N; Ok {| Marginals._re := re; Marginals._prior := prior |}).

(** The head of the loop body: the prior and the number of training points
    of the coming round. *)
Definition round_prior_and_N (self : t) (Ninit density_factor Nmax : R) (D : nat)
  : result (Prior * R) :=
  match last (_history self) with
  | None => Ok (_base_prior self, Ninit)                   (* self.R() == 0 *)
  | Some h =>
      let prior_R := constr_prior h in
      m ← match marginals h with
          | Some m => Ok m
          | None => Raise (AttributeError "prior")
          end;
      let prior_Rm1 := Marginals.prior m in
      p ← match prior_R with
          | Some p => Ok p
          | None => Raise (AttributeError "volume")
          end;
      let v_R := volume p in
      let v_Rm1 := volume prior_Rm1 in
      let N_Rm1 := N h in
      e ← py_div 1 (INR D);
      density_Rm1 ← py_div N_Rm1 (fpow v_Rm1 e);
      let density_R := (density_factor * density_Rm1)%R in
      Ok (p, py_min (py_max (density_R * fpow v_R e) N_Rm1) Nmax)
  end.

(** self._history[-2]['marginals'] = None
    self._history[-2]['constr_prior'] = None *)
Definition drop_previous (h : list round) : list round :=
  alter (fun e => {| marginals := None; constr_prior := None; N := N e |})
        (length h - 2)%nat h.

(** How an invocation of [run] ends: the while condition fails, the handler
    of MissingModelError returns, or another exception escapes. *)
Inductive halt := LoopExit | MissingModelReturn | Uncaught (e : exn).

(** One pass through the body of the while loop; [None] means the loop
    goes on to test its condition again. *)
Definition round_body (self : t) (Ninit density_factor volume_conv_th Nmax : R)
    (keep_history : bool) (D : nat) : t * option halt :=
  match round_prior_and_N self Ninit density_factor Nmax D with
  | Raise e => (self, Some (Uncaught e))
  | Ok (prior_R, N_R) =>
      let '(self1, rm) := _amortize self prior_R N_R in
      match (marginals_R ← rm;
             constr_prior_R ← Marginals.gen_constr_prior get_masked marginals_R
                                 (_obs self1) (-10);
             Ok (marginals_R, constr_prior_R)) with
      | Raise (MissingModelError _) => (self1, Some MissingModelReturn)
      | Raise e => (self1, Some (Uncaught e))
      | Ok (marginals_R, constr_prior_R) =>
          let h1 := _history self1 ++
                    [ {| marginals := Some marginals_R;
                         constr_prior := Some constr_prior_R;
                         N := N_R |} ] in
          let h2 := if negb keep_history && bool_decide (1 < length h1)%nat
                    then drop_previous h1 else h1 in
          let self2 := set_history self1 h2 in
          if volume_converged (volume prior_R) (volume constr_prior_R)
                              volume_conv_th
          then (set_converged self2 true, None)
          else (self2, None)
      end
  end.

(** while (not self.converged()) and (r < max_rounds), with
    [remaining = max_rounds - r]. *)
Fixpoint run_loop (remaining : nat) (self : t)
    (Ninit density_factor volume_conv_th Nmax : R) (keep_history : bool)
    (D : nat) : t * halt :=
  match remaining with
  | O => (self, LoopExit)
  | S n =>
      if converged self then (self, LoopExit)
      else match round_body self Ninit density_factor volume_conv_th Nmax
                            keep_history D with
           | (self', Some h) => (self', h)
           | (self', None) =>
               run_loop n self' Ninit density_factor volume_conv_th Nmax
                        keep_history D
           end
  end.

(** def run(self, Ninit, ..., density_factor, volume_conv_th, max_rounds,
            Nmax, keep_history) *)
Definition run (self : t) (Ninit density_factor volume_conv_th : R)
    (max_rounds : Z) (Nmax : R) (keep_history : bool) : t * halt :=
  let param_list := cache_params (_cache self) in
  let D := length param_list in
  if negb (bool_decide (1 < density_factor)%R)
  then (self, Uncaught (AssertionError "density_factor > 1.0"))
  else if negb (bool_decide (0 < volume_conv_th)%R)
  then (self, Uncaught (AssertionError "volume_conv_th > 0.0"))
  else run_loop (Z.to_nat max_rounds) self Ninit density_factor volume_conv_th
                Nmax keep_history D.

(** def __init__(self, model, prior, obs, noise=None, cache=None, ...), with
    the cache given and a finite observation. *)
Definition __init__ (model : option Model) (prior : Prior) (obs : Obs)
    (cache : Cache) : t :=
  {| _model := model; _obs := obs; _cache := cache; _converged := false;
     _base_prior := prior; _history := [] |}.

End Collaborators.

Section CustomMarginals.

Context {Prior Cache Model RE Obs ParamList : Type}.
Variable cache_params : Cache -> list string.
Variable cache_grow : Cache -> Prior -> R -> Cache.
Variable cache_requires_sim : Cache -> bool.
Variable cache_simulate : Cache -> Model -> Cache.
(** format_param_list(param_list, all_params=...) of swyft.utils. *)
Variable format_param_list : ParamList -> list string -> result ParamList.
(** Sampling and training as in [_amortize], for the parameter list that is
    handed to the ratio estimator. *)
Variable train_for : ParamList -> Cache -> Prior -> R -> result RE.

(** def gen_custom_marginals(self, param_list, N=1000, ...): the prior is
    the base prior before the first round and the most recent constrained
    prior after it (whose volume is logged). *)
Definition gen_custom_marginals (self : @t Prior Cache Model RE Obs)
    (param_list : ParamList) (N : R)
  : @t Prior Cache Model RE Obs * result (Marginals.t RE Prior) :=
  match (match last (_history self) with
         | None => Ok (_base_prior self)
         | Some h =>
             match constr_prior h with
             | Some prior => Ok prior
             | None => Raise (AttributeError "volume")
             end
         end) with
  | Raise e => (self, Raise e)
  | Ok prior =>
      match format_param_list param_list (cache_params (_cache self)) with
      | Raise e => (self, Raise e)
      | Ok param_list =>
          _amortize cache_grow cache_requires_sim cache_simulate
                    (train_for param_list) self prior N
      end
  end.

End CustomMarginals.

End NestedRatios.

(* ===================================================================== *)
(** * estimation.py: class Points *)
(* ===================================================================== *)

(** Python's [l[idx]] on a list: negative indices count from the end. *)
Definition py_index {A} (l : list A) (idx : Z) : result A :=
  let n := Z.of_nat (length l) in
  let i := if (idx <? 0)%Z then (n + idx)%Z else idx in
  if (i <? 0)%Z then Raise IndexError
  else match l !! Z.to_nat i with
       | Some a => Ok a
       | None => Raise IndexError
       end.

Module Points.
Section Collaborators.

(** The cache class and the noise function are not among the sources. *)
Context {Cache Intensity NoiseHook X Zt : Type}.
Variable cache_requires_sim : Cache -> bool.          (* cache.requires_sim() *)
Variable cache_sample : Cache -> Intensity -> result (list nat).
                                                      (* cache.sample(intensity) *)
Variable cache_x : Cache -> nat -> result X.          (* cache.x[i] *)
Variable cache_z : Cache -> nat -> result Zt.         (* cache.z[i] *)
Variable call_noise : NoiseHook -> X -> Zt -> result X.

(** The values instance attributes hold. *)
Inductive value :=
| VNone
| VCache (c : Cache)
| VIntensity (i : Intensity)
| VHook (f : NoiseHook)
| VIndices (l : list nat).

(** An instance is its __dict__.  The class itself defines __init__,
    __len__, __getitem__, the cached property [indices] and [load], and
    nothing else; those are the functions below. *)
Abbreviation obj := (gmap string value).

(** self.name for a name that is not defined on the class. *)
Definition getattr (self : obj) (name : string) : result value :=
  match self !! name with
  | Some v => Ok v
  | None => Raise (AttributeError name)
  end.

(** def __init__(self, cache, intensity, noisehook=None) *)
Definition __init__ (cache : Cache) (intensity : Intensity)
    (noisehook : option NoiseHook) : result obj :=
  if cache_requires_sim cache
  then Raise (RuntimeError "The cache has parameters without a corresponding observation. Try running the simulator.")
  else Ok (<["_indices" := VNone]>
           (<["noisehook" := match noisehook with
                             | Some f => VHook f
                             | None => VNone
                             end]>
            (<["intensity" := VIntensity intensity]>
             (<["cache" := VCache cache]> ∅)))).

(** @cached_property def indices(self): the first access runs the body and
    stores the result in the instance under the property's own name. *)
Definition indices (self : obj) : obj * result (list nat) :=
  match self !! "indices" with
  | Some (VIndices l) => (self, Ok l)
  | Some _ => (self, Raise TypeError)
  | None =>
      match getattr self "_indices" with
      | Raise e => (self, Raise e)
      | Ok VNone =>
          match (c ← getattr self "cache";
                 i ← getattr self "intensity";
                 match c, i with
                 | VCache c, VIntensity i => cache_sample c i
                 | _, _ => Raise TypeError
                 end) with
          | Raise e => (self, Raise e)
          | Ok l => (<["indices" := VIndices l]>
                       (<["_indices" := VIndices l]> self), Ok l)
          end
      | Ok (VIndices l) => (<["indices" := VIndices l]> self, Ok l)
      | Ok _ => (self, Raise TypeError)
      end
  end.

(** def __getitem__(self, idx) *)
Definition __getitem__ (self : obj) (idx : Z) : obj * result (X * Zt) :=
  let '(self1, r) := indices self in
  (self1,
   l ← r;
   i ← py_index l idx;
   c ← getattr self1 "cache";
   c ← match c with VCache c => Ok c | _ => Raise TypeError end;
   x ← cache_x c i;
   z ← cache_z c i;
   nm ← getattr self1 "noisemodel";
   x ← match nm with
       | VNone => Ok x
       | VHook f => call_noise f x z
       | _ => Raise TypeError
       end;
   Ok (x, z)).

(** The instances a program can hold: built by the constructor, then used
    through indexing. *)
Inductive reachable : obj -> Prop :=
| reach_init cache intensity noisehook self :
    __init__ cache intensity noisehook = Ok self -> reachable self
| reach_getitem self idx :
    reachable self -> reachable (__getitem__ self idx).1.

End Collaborators.
End Points.

(* ===================================================================== *)
(** * inference/posteriors.py: PosteriorCollection.rejection_sample *)
(* ===================================================================== *)

Module PosteriorCollection.

Definition ptuple := list nat.          (* a tuple of parameter indices *)
Definition draws := list (list Q).      (* rows of kept_params *)

(** The objects the method shares with its caller or allocates: sets of
    parameter tuples, and weight dictionaries (of which the method only
    uses the key set). *)
Inductive pyobj := PySet (s : gset ptuple) | PyWeights (keys : gset ptuple).

Abbreviation heap := (gmap positive pyobj).

Definition alloc (h : heap) (o : pyobj) : positive * heap :=
  let l := fresh (dom h) in (l, <[l := o]> h).

Section Collaborators.

(** self.sample(...) returns weights keyed by the marginals of the ratio
    collection; [kept it pt] stands for the rows that survive the random
    draw of iteration [it] for [pt]
    (weighted_samples["params"][to_keep[pt]][..., pt]). *)
Variable weight_keys : gset ptuple.
Variable kept : nat -> ptuple -> draws.

Record loop_state := {
  collector : gmap ptuple draws;
  out : gmap ptuple draws
}.

(** The body of [for param_tuple in remaining_param_tuples]. *)
Definition collect (N : nat) (it : nat) (pt : ptuple) (st : loop_state)
  : result loop_state :=
  match collector st !! pt with
  | None => Raise (KeyError "param_tuple")
  | Some c =>
      let c' := c ++ kept it pt in
      let concatenated := take N c' in
      Ok {| collector := <[pt := c']> (collector st);
            out := if decide (length concatenated = N)
                   then <[pt := concatenated]> (out st) else out st |}
  end.

(** while counter < maxiter, with [fuel = maxiter - counter]; the set named
    remaining_param_tuples is the object at [l]. *)
Fixpoint loop (fuel counter : nat) (l : positive) (N : nat) (h : heap)
    (st : loop_state) : heap * result (gmap ptuple draws) :=
  match fuel with
  | O => (h, Ok (out st))            (* warn(...); return out *)
  | S fuel' =>
      match h !! l with
      | Some (PySet remaining) =>
          (* log_prob_to_keep reads weights[pt] for pt in remaining *)
          if decide (remaining ⊆ weight_keys) then
            match set_fold (fun pt acc => st ← acc; collect N counter pt st)
                           (Ok st) remaining with
            | Raise e => (h, Raise e)
            | Ok st' =>
                (* for param_tuple in out.keys(): remaining.remove(...) *)
                let remaining' := remaining ∖ dom (out st') in
                let h' := <[l := PySet remaining']> h in
                if decide (0 < size remaining')%nat then
                  let h'' := (alloc h' (PyWeights weight_keys)).2 in
                  loop fuel' (S counter) l N h'' st'
                else (h', Ok (out st'))
            end
          else (h, Raise (KeyError "weights"))
      | _ => (h, Raise TypeError)
      end
  end.

(** def rejection_sample(self, N, obs, excess_factor, maxiter, ...,
                         param_tuples=None) *)
Definition rejection_sample (h : heap) (N maxiter : nat)
    (param_tuples : option positive) : heap * result (gmap ptuple draws) :=
  (* weighted_samples = self.sample(...) *)
  let '(w, h1) := alloc h (PyWeights weight_keys) in
  (* param_tuples = set(weights.keys()) if param_tuples is None else param_tuples *)
  let '(l, h2) := match param_tuples with
                  | None => alloc h1 (PySet weight_keys)
                  | Some l => (l, h1)
                  end in
  match h2 !! l with
  | Some (PySet s) =>
      (* collector = {k: [] for k in param_tuples}; out = {} *)
      loop maxiter 0 l N h2 {| collector := gset_to_gmap [] s; out := ∅ |}
  | _ => (h2, Raise TypeError)
  end.

End Collaborators.
End PosteriorCollection.

(* ===================================================================== *)
(** * inference/posteriors.py: class Posteriors *)
(* ===================================================================== *)

Module Posteriors.
Section Collaborators.

(** The dataset, the prior, the ratio estimator and the sampler of
    PosteriorCollection are seen through the calls the class makes;
    [Marginals] is what tupelize_marginals returns. *)
Context {Dataset Prior Indices RE Marginals PriorSD RESD Obs Out : Type}.
Context `{Countable Marginals}.
Variable dataset_prior : Dataset -> result Prior.       (* dataset.prior *)
Variable dataset_indices : Dataset -> result Indices.   (* dataset.indices *)
Variable dataset_len : Dataset -> result Z.             (* len(dataset) *)
Variable new_estimator : Marginals -> result RE.        (* RatioEstimator(marginals, ...) *)
Variable re_train : RE -> Dataset -> result RE.         (* re.train(dataset, ...) *)
Variable prior_from_state_dict : PriorSD -> result Prior.
Variable re_from_state_dict : RESD -> result RE.

(** The values instance attributes hold. *)
Inductive value :=
| VNone
| VPrior (p : Prior)
| VIndices (i : Indices)
| VInt (n : Z)
| VDict (d : gmap Marginals RE)
| VList (l : list RE)
| VDataset (d : Dataset)
| VStr (s : string).

(** PosteriorCollection(rc, prior).rejection_sample(N, obs, ...) *)
Variable collection_rejection_sample :
  value -> value -> Z -> Obs -> Z -> Z -> result Out.

(** An instance is its __dict__; the class defines __init__, add, train,
    sample, rejection_sample, bound, ptrans, _eval_ratios, state_dict,
    from_state_dict, load, save and from_Microscope, and nothing else. *)
Abbreviation obj := (gmap string value).

Definition getattr (self : obj) (name : string) : result value :=
  match self !! name with
  | Some v => Ok v
  | None => Raise (AttributeError name)
  end.

(** def __init__(self, dataset, simhook=None) *)
Definition __init__ (dataset : Dataset) : result obj :=
  p ← dataset_prior dataset;
  i ← dataset_indices dataset;
  n ← dataset_len dataset;
  Ok (<["_dataset" := VDataset dataset]>
      (<["_ratios" := VDict ∅]>
       (<["_N" := VInt n]>
        (<["_indices" := VIndices i]>
         (<["_prior" := VPrior p]> ∅))))).

(** def add(self, marginals, ...): [self._ratios[marginals] = re]; a list
    takes no tuple as an index. *)
Definition add (self : obj) (marginals : Marginals) : obj * result unit :=
  match new_estimator marginals with
  | Raise e => (self, Raise e)
  | Ok re =>
      match getattr self "_ratios" with
      | Raise e => (self, Raise e)
      | Ok (VDict d) => (<["_ratios" := VDict (<[marginals := re]> d)]> self, Ok tt)
      | Ok _ => (self, Raise TypeError)
      end
  end.

(** def train(self, marginals, train_args={}): training changes the
    estimator held in the dictionary. *)
Definition train (self : obj) (marginals : Marginals) : obj * result unit :=
  match getattr self "_ratios" with
  | Raise e => (self, Raise e)
  | Ok (VDict d) =>
      match d !! marginals with
      | None => (self, Raise (KeyError "marginals"))
      | Some re =>
          match getattr self "_dataset" with
          | Raise e => (self, Raise e)
          | Ok (VDataset ds) =>
              match re_train re ds with
              | Raise e => (self, Raise e)
              | Ok re' =>
                  (<["_ratios" := VDict (<[marginals := re']> d)]> self, Ok tt)
              end
          | Ok _ => (self, Raise TypeError)
          end
      end
  | Ok _ => (self, Raise TypeError)
  end.

(** def rejection_sample(self, N, obs, excess_factor=100, maxiter=1000, ...) *)
Definition rejection_sample (self : obj) (N : Z) (obs : Obs)
    (excess_factor maxiter : Z) : obj * result Out :=
  (self,
   ratios ← getattr self "ratios";
   prior ← getattr self "_prior";
   collection_rejection_sample ratios prior N obs excess_factor maxiter).

Record StateDict := {
  sd_prior : PriorSD;
  sd_indices : Indices;
  sd_N : Z;
  sd_ratios : list RESD
}.

(** def from_state_dict(cls, state_dict, dataset=None, device="cpu") *)
Definition from_state_dict (state_dict : StateDict) (dataset : option Dataset)
    (device : string) : result obj :=
  p ← prior_from_state_dict (sd_prior state_dict);
  rs ← mapM re_from_state_dict (sd_ratios state_dict);
  Ok (<["_device" := VStr device]>
      (<["_dataset" := match dataset with
                       | Some d => VDataset d
                       | None => VNone
                       end]>
       (<["_ratios" := VList rs]>
        (<["_N" := VInt (sd_N state_dict)]>
         (<["_indices" := VIndices (sd_indices state_dict)]>
          (<["_prior" := VPrior p]> ∅)))))).

(** The instances a program can hold: built by the constructor or from a
    state dict, then used through the methods that change them. *)
Inductive reachable : obj -> Prop :=
| reach_init dataset self :
    __init__ dataset = Ok self -> reachable self
| reach_from_state_dict state_dict dataset device self :
    from_state_dict state_dict dataset device = Ok self -> reachable self
| reach_add self marginals :
    reachable self -> reachable (add self marginals).1
| reach_train self marginals :
    reachable self -> reachable (train self marginals).1
| reach_rejection_sample self N obs excess_factor maxiter :
    reachable self ->
    reachable (rejection_sample self N obs excess_factor maxiter).1.

End Collaborators.
End Posteriors.

(* ===================================================================== *)
(** * Predicates of the specification and example data *)
(* ===================================================================== *)

Module SimulatorSpec.
Import Simulator.

(** "contains missing fields": some value of the dictionary is None. *)
Definition has_missing_field (items : list (string * option (list num))) : Prop :=
  ∃ k, (k, None) ∈ items.

(** "contains a non-finite value" *)
Definition has_non_finite (items : list (string * option (list num))) : Prop :=
  ∃ k a v, (k, Some a) ∈ items ∧ v ∈ a ∧ isfinite v = false.

(** A model result the chunk can store: a dictionary with distinct keys,
    all of them declared observables, each value None or an array that
    broadcasts to the declared length. *)
Definition storable (sim_shapes : gmap string nat) (out : pyobj) : Prop :=
  ∃ items, out = PyDict items ∧ NoDup items.*1 ∧
    ∀ obs val, (obs, val) ∈ items →
      ∃ shp, sim_shapes !! obs = Some shp ∧ is_ok (broadcast_to shp val) = true.

(** The result dictionary has one array per declared observable, with [n]
    rows of the declared length. *)
Definition shaped (sim_shapes : gmap string nat) (n : nat)
    (x : gmap string (list (list num))) : Prop :=
  dom x = dom sim_shapes ∧
  ∀ obs shp rows, sim_shapes !! obs = Some shp → x !! obs = Some rows →
    length rows = n ∧ Forall (λ r, length r = shp) rows.

(** Row [j] of the result dictionary holds what the model returned for
    point [j]: every item of the returned dictionary, broadcast to its
    observable's row. *)
Definition holds_result (sim_shapes : gmap string nat)
    (x : gmap string (list (list num))) (j : nat) (out : pyobj) : Prop :=
  ∀ items obs val, out = PyDict items → (obs, val) ∈ items →
    ∃ shp rows row, sim_shapes !! obs = Some shp ∧ x !! obs = Some rows ∧
      rows !! j = Some row ∧ broadcast_to shp val = Ok row.

(** What holds after the first [i] points of the chunk [z0] have been run. *)
Definition chunk_inv (z0 : list point) (model : point -> result pyobj)
    (sim_shapes : gmap string nat) (i : nat)
    (st : gmap string (list (list num)) * list bool) : Prop :=
  length st.2 = length z0 ∧ shaped sim_shapes (length z0) st.1 ∧
  ∀ j p out, (j < i)%nat → z0 !! j = Some p → model p = Ok out →
    holds_result sim_shapes st.1 j out.

(** A model of one parameter and one observable "x": the identity on
    non-negative inputs, a result with a missing field on [-1, 0), an
    exception below -1; inputs of another arity get a non-dictionary. *)
Definition ex_model (p : point) : result pyobj :=
  match p with
  | [q] => if Qle_bool 0 q then Ok (PyDict [("x", Some [Finite q])])
           else if Qle_bool (-1) q then Ok (PyDict [("x", None)])
           else Raise (ModelRaised 7)
  | _ => Ok (PyOther "nothing")
  end.

Definition ex_shapes : gmap string nat := {[ "x" := 1%nat ]}.

(** A model result that keeps the shapes of the probe's result [items0]:
    a dictionary with distinct keys, each of them a key of the probe, each
    value None or an array as long as the probe's. *)
Definition consistent_with (items0 : list (string * option (list num)))
    (out : pyobj) : Prop :=
  ∃ items, out = PyDict items ∧ NoDup items.*1 ∧
    ∀ obs val, (obs, val) ∈ items →
      ∃ a0, (obs, Some a0) ∈ items0 ∧
        (val = None ∨ ∃ a, val = Some a ∧ length a = length a0).

(** Row [j] of every observable that point [j]'s result does not mention
    is still the NaN it was initialised with. *)
Definition omitted_is_nan (sim_shapes : gmap string nat)
    (x : gmap string (list (list num))) (j : nat) (out : pyobj) : Prop :=
  ∀ items obs shp rows, out = PyDict items → obs ∉ items.*1 →
    sim_shapes !! obs = Some shp → x !! obs = Some rows →
    rows !! j = Some (replicate shp NaN).

(** The rows from [i] on have not been written yet. *)
Definition rows_pending (sim_shapes : gmap string nat)
    (x : gmap string (list (list num))) (i : nat) : Prop :=
  ∀ obs shp rows j, sim_shapes !! obs = Some shp → x !! obs = Some rows →
    (i ≤ j < length rows)%nat → rows !! j = Some (replicate shp NaN).

End SimulatorSpec.

Module PriorSpec.
Import Prior.
#[local] Open Scope Q_scope.

#[export] Instance Qlt_decision (x y : Q) : Decision (x < y)%Q :=
  match Qlt_le_dec x y with
  | left H => left H
  | right H => right (Qle_not_lt _ _ H)
  end.

(** The sampled points of one parameter that the specification's rule, read
    strictly, keeps: those whose score minus the largest score lies above
    the cutoff. *)
Definition above_cutoff (th mx : Q) (v lnL_k : list Q) : list Q :=
  (filter (λ xs : Q * Q, (th < xs.2 - mx)%Q) (zip v lnL_k)).*1.

(** ... and with the cutoff itself included, as the specification words it. *)
Definition at_or_above_cutoff (th mx : Q) (v lnL_k : list Q) : list Q :=
  (filter (λ xs : Q * Q, ¬ (xs.2 - mx < th)%Q) (zip v lnL_k)).*1.

Definition is_max (l : list Q) (mx : Q) : Prop :=
  mx ∈ l ∧ ∀ s, s ∈ l → (s <= mx)%Q.

(** One uniform parameter on the unit interval, five sampled points and
    their scores (the grid of the specification's mask scenario). *)
Definition ex_config : PriorConfig := [("a", ("uniform", [0; 1]))].

Definition ex_prior : Prior.t :=
  {| prior_config := ex_config; mask := None;
     priors := [("a", {| Prior1d.tag := "uniform"; Prior1d.args := [0; 1];
                         Prior1d.prior := Prior1d.Uniform 0 1 |})] |}.

Definition ex_cdf (d : Prior1d.dist) (x : Q) : Q := x.

Definition ex_sample (self : Prior.t) (N : Z) : list (string * list Q) :=
  [("a", [0; 1 # 4; 1 # 2; 3 # 4; 1])].

Definition ex_re : @RatioEstimator unit :=
  {| lnL := λ _ _, [("a", [-100; -1; 0; -1; -100])] |}.

(** Scores whose second entry sits exactly on the default cutoff -10. *)
Definition ex_re_boundary : @RatioEstimator unit :=
  {| lnL := λ _ _, [("a", [-100; -10; 0; -1; -100])] |}.

(** An estimator that returns no scores for the parameter. *)
Definition ex_re_empty : @RatioEstimator unit :=
  {| lnL := λ _ _, [("a", [])] |}.

Definition ex_mask : ComboMask := [("a", {| ind_points := [1 # 4; 1 # 2; 3 # 4] |})].

(** A stand-in for the mask class: the state is the mask itself and the
    volume the number of masked parameters. *)
Definition ex_mask_volume (m : ComboMask) : Q := inject_Z (Z.of_nat (length m)).
Definition ex_mask_state_dict (m : ComboMask) : ComboMask := m.
Definition ex_mask_from_state_dict (sd : ComboMask) : ComboMask := sd.

(** An entry of prior_config the constructor of Prior1d accepts: a known
    tag and at least two arguments. *)
Definition valid_entry (value : string * list Q) : Prop :=
  value.1 ∈ ["normal"; "uniform"; "lognormal"]%string ∧ (2 ≤ length value.2)%nat.

#[export] Instance valid_entry_dec value : Decision (valid_entry value).
Proof. unfold valid_entry. apply _. Defined.

(** The function [get_masked] maps over the parameters of the cube. *)
Definition mask_of {Obs : Type} (re : @RatioEstimator Obs) (obs : Obs)
    (pars : list (string * list Q)) (th : Q) (k : string) (v : list Q)
  : result BallMask :=
  l ← dict_get (V:=list Q) (lnL re obs pars) k;
  mask ← point_mask l th;
  ind_points ← bool_index v mask;
  Ok {| ind_points := ind_points |}.

(** What [get_masked] leaves in the mask of one parameter, given the
    parameter's points in the cube and the scores. *)
Definition masked_by {Obs : Type} (re : @RatioEstimator Obs) (obs : Obs)
    (pars : list (string * list Q)) (th : Q)
    (kv : string * list Q) (km : string * BallMask) : Prop :=
  km.1 = kv.1 ∧
  ∃ l mx, dict_get (lnL re obs pars) kv.1 = Ok l ∧
          np_max l = Ok mx ∧ is_max l mx ∧
          length kv.2 = length l ∧
          ind_points km.2 = above_cutoff th mx kv.2 l.

End PriorSpec.

Module SchedulerSpec.
Import NestedRatios.
#[local] Open Scope R_scope.

(** clamp(x, lo, hi) of the specification. *)
Definition clamp (x lo hi : R) : R := Rmin (Rmax x lo) hi.

(** The history after compaction: only the most recent entry still holds
    its marginals and constrained prior. *)
Definition compacted {RE Prior : Type} (h : list (@round Prior RE)) : Prop :=
  ∀ i e, h !! i = Some e →
    if decide (S i = length h)
    then is_Some (marginals e) ∧ is_Some (constr_prior e)
    else marginals e = None ∧ constr_prior e = None.

(** The history after a completed round: the new entry is appended and,
    unless the history is kept, the entry before it is stripped. *)
Definition appended {Prior RE : Type} (keep_history : bool)
    (h : list (@round Prior RE)) (e : @round Prior RE) : list round :=
  if negb keep_history && bool_decide (1 < length (h ++ [e]))%nat
  then drop_previous (h ++ [e]) else h ++ [e].

(** A list of sample counts that never decreases and stays within Nmax. *)
Definition schedule_ok (Nmax : R) (ns : list R) : Prop :=
  (∀ n, n ∈ ns → n <= Nmax) ∧
  (∀ i a b, ns !! i = Some a → ns !! S i = Some b → a <= b).

(** Stand-ins for the collaborators: a prior is the number of times the
    base prior has been constrained, with the volumes of the specification's
    convergence scenario; the store is the list of its records' statuses;
    growing it adds one pending record. *)
Definition ex_volume (p : nat) : R :=
  match p with
  | O => 1
  | 1%nat => 4 / 10
  | 2%nat => 36 / 100
  | _ => 33 / 100
  end.

Definition ex_get_masked (p : nat) (obs : unit) (re : unit) (N : Z) (th : Q)
  : result nat := Ok (S p).

Definition ex_cache_params (c : list Simulator.SimulationStatus) : list string :=
  ["a"%string].

Definition ex_cache_grow (c : list Simulator.SimulationStatus) (p : nat) (N : R)
  : list Simulator.SimulationStatus := c ++ [Simulator.PENDING].

Definition is_pending (s : Simulator.SimulationStatus) : bool :=
  match s with Simulator.PENDING => true | _ => false end.

Definition ex_cache_requires_sim (c : list Simulator.SimulationStatus) : bool :=
  existsb is_pending c.

Definition ex_cache_simulate (c : list Simulator.SimulationStatus) (model : unit)
  : list Simulator.SimulationStatus :=
  (λ s, if is_pending s then Simulator.FINISHED else s) <$> c.

Definition ex_train (c : list Simulator.SimulationStatus) (p : nat) (N : R)
  : result unit := Ok tt.

(** Formatting that keeps the requested parameters that the cache has. *)
Definition ex_format_param_list (param_list all_params : list string)
  : result (list string) :=
  Ok (filter (λ k, k ∈ all_params) param_list).

(** A training step that fails. *)
Definition ex_train_failing (c : list Simulator.SimulationStatus) (p : nat)
    (N : R) : result unit := Raise (RuntimeError "training diverged").

(** The records already simulated: the positions whose status is FINISHED. *)
Definition ex_simulated (c : list Simulator.SimulationStatus) : list nat :=
  (filter (λ js : nat * Simulator.SimulationStatus, js.2 = Simulator.FINISHED)
          (imap pair c)).*1.

Definition ex_nr (model : option unit) : @NestedRatios.t nat (list Simulator.SimulationStatus) unit unit unit :=
  NestedRatios.__init__ model O tt [].

Definition ex_run (self : @NestedRatios.t nat (list Simulator.SimulationStatus) unit unit unit)
    (max_rounds : Z) (keep_history : bool) :=
  NestedRatios.run ex_volume ex_get_masked ex_cache_params ex_cache_grow
    ex_cache_requires_sim ex_cache_simulate ex_train
    self 3000 2 (1 / 10) max_rounds 100000 keep_history.

(** The history entry of the round run on prior [p], with its artifacts or
    stripped of them, and the scheduler after [k] rounds with a model. *)
Definition ex_entry (p : nat) (N_R : R) (kept : bool) : @round nat unit :=
  {| marginals := if kept then Some {| Marginals._re := tt; Marginals._prior := p |}
                  else None;
     constr_prior := if kept then Some (S p) else None;
     N := N_R |}.

Definition ex_after (k : nat) (conv : bool) (h : list (@round nat unit))
  : @NestedRatios.t nat (list Simulator.SimulationStatus) unit unit unit :=
  {| _model := Some tt; _obs := tt;
     _cache := replicate k Simulator.FINISHED;
     _converged := conv; _base_prior := O; _history := h |}.

End SchedulerSpec.

Module PointsSpec.

(** A stand-in cache: the list of its (x, z) pairs, all simulated; sampling
    returns every index. *)
Definition ex_cache : Type := list (Q * Q).
Definition ex_requires_sim (c : ex_cache) : bool := false.
Definition ex_sample (c : ex_cache) (intensity : unit) : result (list nat) :=
  Ok (seq 0 (length c)).
(** A cache that can no longer be sampled. *)
Definition ex_sample_failing (c : ex_cache) (intensity : unit)
  : result (list nat) := Raise (RuntimeError "cache closed").
Definition ex_x (c : ex_cache) (i : nat) : result Q :=
  match c !! i with Some xz => Ok xz.1 | None => Raise IndexError end.
Definition ex_z (c : ex_cache) (i : nat) : result Q :=
  match c !! i with Some xz => Ok xz.2 | None => Raise IndexError end.
Definition ex_noise (f : unit) (x z : Q) : result Q := Ok x.

Definition ex_getitem :=
  Points.__getitem__ (NoiseHook := unit) ex_sample ex_x ex_z ex_noise.

Definition ex_init :=
  Points.__init__ (NoiseHook := unit) (Intensity := unit) ex_requires_sim.

End PointsSpec.

Module PosteriorSpec.
Import PosteriorCollection.

(** np.concatenate(collector[pt]) after [k] iterations: the rows kept for
    [pt] in iterations 0 .. k-1, in that order. *)
Definition collected (kept : nat -> ptuple -> draws) (k : nat) (pt : ptuple)
  : draws :=
  concat ((fun i => kept i pt) <$> seq 0 k).

(** Iteration [k] (counted from 1) is the first after which [pt] has at
    least [N] rows. *)
Definition completes_at (kept : nat -> ptuple -> draws) (N k : nat)
    (pt : ptuple) : Prop :=
  (1 ≤ k)%nat ∧ (N ≤ length (collected kept k pt))%nat ∧
  ∀ j, (1 ≤ j < k)%nat → (length (collected kept j pt) < N)%nat.

(** The tuples a call works on: the caller's set, or every key of the
    weights when None is passed. *)
Definition requested (weight_keys : gset ptuple) (h : heap)
    (param_tuples : option positive) (s0 : gset ptuple) : Prop :=
  match param_tuples with
  | Some l => h !! l = Some (PySet s0) ∧ s0 ⊆ weight_keys
  | None => s0 = weight_keys
  end.

(** One marginal, the tuple (0,); every iteration keeps a single draw. *)
Definition ex_keys : gset ptuple := {[ [0%nat] ]}.
Definition ex_kept (it : nat) (pt : ptuple) : draws := [[(1 # 2)%Q]].

(** The caller's heap: its own set of tuples at location 1. *)
Definition ex_heap : heap := {[ 1%positive := PySet {[ [0%nat] ]} ]}.

End PosteriorSpec.

Module PosteriorsSpec.

(** Stand-ins: a dataset, prior and estimator without content, marginals
    named by a number, and a sampler that would return its N. *)
Definition ex_value : Type := @Posteriors.value unit unit unit unit nat _ _.

Definition ex_init : result (gmap string ex_value) :=
  Posteriors.__init__ (Marginals := nat)
    (fun _ : unit => Ok tt) (fun _ : unit => Ok tt) (fun _ : unit => Ok 3%Z) tt.

Definition ex_add :=
  Posteriors.add (Dataset := unit) (Prior := unit) (Indices := unit)
    (Marginals := nat) (fun _ : nat => Ok tt).

Definition ex_rejection_sample :=
  Posteriors.rejection_sample (Dataset := unit) (Prior := unit)
    (Indices := unit) (RE := unit) (Marginals := nat) (Obs := unit)
    (fun _ _ N _ _ _ => Ok N).

Definition ex_from_state_dict :=
  Posteriors.from_state_dict (Dataset := unit) (Indices := unit)
    (Marginals := nat) (fun _ : unit => Ok tt) (fun _ : unit => Ok tt).

End PosteriorsSpec.

(* ===================================================================== *)
(** * Theorems: the simulator adapter *)
(* ===================================================================== *)

Section SimulatorFacts.
Import Simulator SimulatorSpec.

Lemma bind_Ok_inv {A B} (m : result A) (f : A -> result B) b :
  m ≫= f = Ok b → ∃ a, m = Ok a ∧ f a = Ok b.
Proof. destruct m as [a|e]; simpl; [eauto | discriminate]. Qed.

Lemma bind_Ok {A B} (a : A) (f : A -> result B) : Ok a ≫= f = f a.
Proof. reflexivity. Qed.

Lemma existsb_None_iff (items : list (string * option (list num))) :
  existsb (fun kv : string * option (list num) =>
             match kv.2 with None => true | Some _ => false end) items = true
  ↔ has_missing_field items.
Proof.
  unfold has_missing_field. rewrite existsb_exists. split.
  - intros [[k [a|]] [Hin Hk]]; simpl in Hk; [discriminate|].
    exists k. by apply list_elem_of_In.
  - intros [k Hk]. exists (k, None). split; [by apply list_elem_of_In | done].
Qed.

Lemma forallb_isfinite_false (a : list num) :
  forallb isfinite a = false ↔ ∃ v, v ∈ a ∧ isfinite v = false.
Proof.
  induction a as [|x a IH]; simpl.
  - split; [discriminate | intros (v & Hv & _); inversion Hv].
  - rewrite andb_false_iff, IH. split.
    + intros [Hx | (v & Hv & Hf)]; [exists x | exists v];
        split; auto; constructor; done.
    + intros (v & Hv & Hf). inversion Hv; subst; eauto.
Qed.

Lemma all_finite_false_iff items :
  ¬ has_missing_field items →
  all_finite items = false ↔ has_non_finite items.
Proof.
  unfold all_finite, has_missing_field, has_non_finite.
  induction items as [|[k [a|]] items IH]; simpl; intros Hnone.
  - split; [discriminate | intros (k & a & v & Hin & _); inversion Hin].
  - rewrite andb_false_iff, forallb_isfinite_false, IH.
    + split.
      * intros [(v & Hv & Hf) | (k' & a' & v & Hin & Hv & Hf)].
        -- exists k, a, v. repeat split; auto. constructor.
        -- exists k', a', v. repeat split; auto. by constructor.
      * intros (k' & a' & v & Hin & Hv & Hf).
        inversion Hin; subst; [left | right]; eauto 6.
    + intros [k' Hk']. apply Hnone. exists k'. by constructor.
  - exfalso. apply Hnone. exists k. constructor.
Qed.

(** C6 (as amended): on a dictionary, [_has_failed] answers FAILED exactly
    when a value is None or, with fail_on_non_finite set, some entry is not
    finite, and FINISHED otherwise; on anything that is not a dictionary
    its assertion fails and the AssertionError escapes. *)
Theorem has_failed_classification :
  (∀ items fail_on_non_finite,
     (_has_failed (PyDict items) fail_on_non_finite = Ok FAILED ↔
        has_missing_field items ∨
        (fail_on_non_finite = true ∧ has_non_finite items)) ∧
     (_has_failed (PyDict items) fail_on_non_finite = Ok FINISHED ↔
        ¬ (has_missing_field items ∨
           (fail_on_non_finite = true ∧ has_non_finite items)))) ∧
  (∀ repr fail_on_non_finite,
     _has_failed (PyOther repr) fail_on_non_finite =
       Raise (AssertionError "Simulators must return a dictionary.")).
Proof.
  split; [|reflexivity].
  intros items fnf. unfold _has_failed.
  destruct (existsb _ items) eqn:Hex.
  - apply existsb_None_iff in Hex. split; split; try done; auto.
    intros Hn. exfalso. apply Hn. auto.
  - assert (Hnone : ¬ has_missing_field items).
    { intros H. apply existsb_None_iff in H. congruence. }
    destruct fnf; simpl.
    + destruct (all_finite items) eqn:Haf; simpl.
      * assert (Hnf : ¬ has_non_finite items).
        { intros H. apply all_finite_false_iff in H; congruence. }
        split; split; try done; intros; tauto.
      * apply all_finite_false_iff in Haf; [|done].
        split; split; try done; auto. intros Hn. exfalso. apply Hn. auto.
    + split; split; try done.
      * intros [H | [H _]]; [tauto | discriminate].
      * intros _ [H | [H _]]; [tauto | discriminate].
Qed.

(** C6, as the specification states it, fails on a result that is not a
    dictionary: it is not classified FAILED, the assertion aborts the call. *)
Lemma has_failed_non_dict_raises :
  _has_failed (PyOther "nothing") true =
    Raise (AssertionError "Simulators must return a dictionary.") ∧
  _has_failed (PyOther "nothing") true ≠ Ok FAILED ∧
  _run_model_chunk [[1%Q]; []; [2%Q]] ex_model ex_shapes true =
    Raise (AssertionError "Simulators must return a dictionary.").
Proof. split; [reflexivity | split; [discriminate | vm_compute; reflexivity]]. Qed.

Lemma broadcast_to_length shp val row :
  broadcast_to shp val = Ok row → length row = shp.
Proof.
  unfold broadcast_to. destruct val as [a|].
  - case_decide; [congruence|].
    destruct a as [|v [|? ?]]; try discriminate.
    intros [= <-]. apply length_replicate.
  - intros [= <-]. apply length_replicate.
Qed.

Lemma shaped_lookup sim_shapes n x obs shp :
  shaped sim_shapes n x → sim_shapes !! obs = Some shp →
  ∃ rows, x !! obs = Some rows ∧ length rows = n ∧
          Forall (λ r, length r = shp) rows.
Proof.
  intros [Hdom Hsh] Hobs.
  assert (Hin : obs ∈ dom x) by (rewrite Hdom; by apply elem_of_dom_2 in Hobs).
  apply elem_of_dom in Hin as [rows Hrows].
  exists rows. split; [done|]. eauto.
Qed.

Lemma shaped_insert sim_shapes n x obs shp rows i row :
  shaped sim_shapes n x → sim_shapes !! obs = Some shp →
  x !! obs = Some rows → length row = shp →
  shaped sim_shapes n (<[obs := <[i := row]> rows]> x).
Proof.
  intros [Hdom Hsh] Hobs Hrows Hlen. split.
  - rewrite dom_insert_L, <- Hdom.
    apply elem_of_dom_2 in Hrows. set_solver.
  - intros obs' shp' rows' Hs' Hx'.
    destruct (decide (obs = obs')) as [<-|Hne].
    + rewrite lookup_insert_eq in Hx'. injection Hx' as <-.
      assert (shp' = shp) as -> by congruence.
      destruct (Hsh _ _ _ Hobs Hrows) as [Hn Hall].
      split; [by rewrite length_insert|].
      apply Forall_insert; done.
    + rewrite lookup_insert_ne in Hx' by done. eauto.
Qed.

Lemma setitem_spec sim_shapes n x obs shp i val :
  shaped sim_shapes n x → (i < n)%nat → sim_shapes !! obs = Some shp →
  is_ok (broadcast_to shp val) = true →
  ∃ rows row, x !! obs = Some rows ∧ broadcast_to shp val = Ok row ∧
    setitem x obs i val = Ok (<[obs := <[i := row]> rows]> x).
Proof.
  intros Hsh Hi Hobs Hok.
  destruct (shaped_lookup _ _ _ _ _ Hsh Hobs) as (rows & Hrows & Hn & Hall).
  destruct (broadcast_to shp val) as [row|] eqn:Hb; [|discriminate].
  exists rows, row. repeat split; [done|].
  unfold setitem, setitem_row. rewrite Hrows.
  destruct (lookup_lt_is_Some_2 rows i) as [old Hold]; [lia|].
  rewrite Hold.
  assert (length old = shp) as ->.
  { rewrite Forall_forall in Hall. apply Hall.
    by eapply list_elem_of_lookup_2. }
  by rewrite Hb.
Qed.

Lemma store_items_spec sim_shapes n i items : ∀ x,
  NoDup items.*1 →
  (∀ obs val, (obs, val) ∈ items →
     ∃ shp, sim_shapes !! obs = Some shp ∧ is_ok (broadcast_to shp val) = true) →
  shaped sim_shapes n x → (i < n)%nat →
  ∃ x', store_items x i items = Ok x' ∧ shaped sim_shapes n x' ∧
    (∀ obs rows, x !! obs = Some rows →
       ∃ rows', x' !! obs = Some rows' ∧
         (∀ j, j ≠ i → rows' !! j = rows !! j) ∧
         (obs ∉ items.*1 → rows' = rows)) ∧
    (∀ obs val, (obs, val) ∈ items →
       ∃ shp rows' row, sim_shapes !! obs = Some shp ∧ x' !! obs = Some rows' ∧
         rows' !! i = Some row ∧ broadcast_to shp val = Ok row).
Proof.
  induction items as [|[obs val] items IH]; intros x Hnd Hok Hsh Hi.
  - exists x. split; [done|]. split; [done|]. split.
    + intros obs rows Hrows. exists rows. done.
    + intros obs val Hin. inversion Hin.
  - simpl in Hnd. apply NoDup_cons in Hnd as [Hnotin Hnd].
    destruct (Hok obs val) as (shp & Hshp & Hbok); [constructor|].
    destruct (setitem_spec _ _ _ _ _ _ _ Hsh Hi Hshp Hbok)
      as (rows & row & Hrows & Hb & Hset).
    pose proof (broadcast_to_length _ _ _ Hb) as Hlen.
    pose proof (shaped_insert _ _ _ _ _ _ i _ Hsh Hshp Hrows Hlen) as Hsh1.
    destruct (IH _ Hnd (λ o v H, Hok o v (list_elem_of_further _ _ _ H)) Hsh1 Hi)
      as (x' & Hst & Hsh' & Hframe & Hcont).
    exists x'. split; [by (simpl; rewrite Hset)|]. split; [done|]. split.
    + intros obs0 rows0 Hrows0.
      destruct (decide (obs = obs0)) as [<-|Hne].
      * assert (rows0 = rows) as -> by congruence.
        destruct (Hframe obs (<[i:=row]> rows)) as (rows' & Hx' & Hj & Hsame);
          [by rewrite lookup_insert_eq|].
        exists rows'. split; [done|]. split.
        -- intros j Hji. rewrite Hj by done. by apply list_lookup_insert_ne.
        -- intros Hn. exfalso. apply Hn. simpl. constructor.
      * destruct (Hframe obs0 rows0) as (rows' & Hx' & Hj & Hsame);
          [by rewrite lookup_insert_ne|].
        exists rows'. split; [done|]. split; [done|].
        intros Hn. apply Hsame. intros Hin. apply Hn. simpl. by constructor.
    + intros obs0 val0 Hin. apply elem_of_cons in Hin as [[= -> ->] | Hin'].
      * destruct (Hframe obs (<[i:=row]> rows)) as (rows' & Hx' & _ & Hsame);
          [by rewrite lookup_insert_eq|].
        rewrite (Hsame Hnotin) in Hx'.
        exists shp, (<[i:=row]> rows), row. repeat split; try done.
        apply list_lookup_insert_eq.
        destruct Hsh as [_ Hsh]. destruct (Hsh _ _ _ Hshp Hrows) as [-> _]. done.
      * by apply Hcont.
Qed.

Lemma has_failed_dict_truthy items fail_on_non_finite :
  ∃ s, _has_failed (PyDict items) fail_on_non_finite = Ok s ∧
       truthy s = true ∧ np_bool s = true.
Proof.
  unfold _has_failed.
  destruct (existsb _ items); [by exists FAILED|].
  destruct (_ && _); [by exists FAILED | by exists FINISHED].
Qed.

Section ChunkLoop.
Variables (z0 : list point) (model : point -> result pyobj)
          (sim_shapes : gmap string nat) (fail_on_non_finite : bool).

#[local] Abbreviation chunk_inv_ := (chunk_inv z0 model sim_shapes).

Lemma chunk_loop_good : ∀ l pre post st,
  z0 = pre ++ l ++ post →
  (∀ p, p ∈ l → ∃ out, model p = Ok out ∧ storable sim_shapes out) →
  chunk_inv_ (length pre) st →
  ∃ st', chunk_loop model fail_on_non_finite (length pre) l st = Ok st' ∧
         chunk_inv_ (length pre + length l) st'.
Proof.
  induction l as [|p l IH]; intros pre post [x hf] Hz Hgood Hinv.
  - exists (x, hf). split; [done|]. by rewrite Nat.add_0_r.
  - destruct (Hgood p) as (out & Hm & items & -> & Hnd & Hitems); [constructor|].
    destruct Hinv as (Hhf & Hsh & Hcont). simpl in Hhf, Hsh, Hcont.
    assert (Hi : (length pre < length z0)%nat).
    { rewrite Hz, !length_app. simpl. lia. }
    assert (Hzi : z0 !! length pre = Some p).
    { rewrite Hz. simpl. by apply list_lookup_middle. }
    destruct (store_items_spec _ _ _ _ x Hnd Hitems Hsh Hi)
      as (x' & Hst & Hsh' & Hframe & Hnew).
    destruct (has_failed_dict_truthy items fail_on_non_finite)
      as (s & Hs & Htr & Hnb).
    destruct (IH (pre ++ [p]) post (x', <[length pre := np_bool s]> hf))
      as (st' & Hloop & Hinv').
    + rewrite Hz. by rewrite <- app_assoc.
    + intros q Hq. apply Hgood. by constructor.
    + split; [simpl; by rewrite length_insert|]. split; [done|]. simpl.
      intros j q out Hj Hzj Hq. rewrite length_app in Hj. simpl in Hj.
      destruct (decide (j = length pre)) as [->|Hne].
      * assert (q = p) as -> by congruence.
        assert (out = PyDict items) as -> by congruence.
        intros items' obs val [= <-] Hin.
        destruct (Hnew obs val Hin) as (shp & rows' & row & ? & ? & ? & ?).
        exists shp, rows', row. done.
      * intros items' obs val Hout Hin.
        destruct (Hcont j q out ltac:(lia) Hzj Hq items' obs val Hout Hin)
          as (shp & rows & row & Hshp & Hrows & Hrow & Hb).
        destruct (Hframe obs rows Hrows) as (rows' & Hx' & Hj' & _).
        exists shp, rows', row. repeat split; try done.
        by rewrite Hj'.
    + exists st'. split.
      * cbn [chunk_loop]. rewrite Hm, bind_Ok, Hs, bind_Ok, Htr.
        cbn [items_of]. rewrite bind_Ok. cbn [fst snd]. rewrite Hst, !bind_Ok.
        rewrite length_app in Hloop. simpl in Hloop.
        by rewrite Nat.add_1_r in Hloop.
      * rewrite length_app in Hinv'. simpl in *.
        by rewrite <- Nat.add_assoc in Hinv'.
Qed.

Lemma chunk_loop_app : ∀ l1 l2 i st,
  chunk_loop model fail_on_non_finite i (l1 ++ l2) st =
  chunk_loop model fail_on_non_finite i l1 st ≫=
    chunk_loop model fail_on_non_finite (i + length l1) l2.
Proof.
  induction l1 as [|p l1 IH]; intros l2 i st; simpl.
  - rewrite Nat.add_0_r. done.
  - destruct (model p) as [out|e]; simpl; [|done].
    destruct (_has_failed out fail_on_non_finite) as [s|e]; simpl; [|done].
    match goal with |- context [mbind _ ?m] => destruct m as [st'|e] end;
      simpl; [|done].
    rewrite IH. by rewrite Nat.add_succ_r.
Qed.

End ChunkLoop.

Lemma chunk_inv_init z sim_shapes model :
  chunk_inv z model sim_shapes 0
    (np_full (length z) <$> sim_shapes, replicate (length z) false).
Proof.
  unfold chunk_inv. cbn [fst snd].
  split; [apply length_replicate|]. split.
  - split; [apply dom_fmap_L|].
    intros obs shp rows Hobs Hrows.
    rewrite lookup_fmap, Hobs in Hrows. injection Hrows as <-.
    unfold np_full. split; [apply length_replicate|].
    apply Forall_replicate, length_replicate.
  - intros j p out Hj. lia.
Qed.

(** C1 (as amended): a chunk whose model calls all return storable
    dictionaries is run to the end, also when some of its points are
    classified FAILED: the call returns a status entry and, per observable,
    a row for every point, and row j holds what the model returned for point
    j.  After a prefix of such points, a point whose model call raises, or
    returns something that is not a dictionary, makes the whole call raise:
    no result is returned for any point of the chunk. *)
Theorem run_model_chunk_isolation z model sim_shapes fail_on_non_finite pre post :
  z = pre ++ post →
  (∀ p, p ∈ pre → ∃ out, model p = Ok out ∧ storable sim_shapes out) →
  (post = [] →
     ∃ x has_failed,
       _run_model_chunk z model sim_shapes fail_on_non_finite = Ok (x, has_failed) ∧
       length has_failed = length z ∧
       shaped sim_shapes (length z) x ∧
       ∀ j p out, z !! j = Some p → model p = Ok out →
         holds_result sim_shapes x j out) ∧
  (∀ p post' e, post = p :: post' → model p = Raise e →
     _run_model_chunk z model sim_shapes fail_on_non_finite = Raise e) ∧
  (∀ p post' repr, post = p :: post' → model p = Ok (PyOther repr) →
     _run_model_chunk z model sim_shapes fail_on_non_finite =
       Raise (AssertionError "Simulators must return a dictionary.")).
Proof.
  intros Hz Hgood.
  destruct (chunk_loop_good z model sim_shapes fail_on_non_finite pre [] post
              (np_full (length z) <$> sim_shapes, replicate (length z) false))
    as ([x hf] & Hloop & Hlen & Hsh & Hcont);
    [done | done | apply chunk_inv_init |].
  simpl in Hloop, Hlen, Hsh, Hcont.
  assert (Hrun : _run_model_chunk z model sim_shapes fail_on_non_finite =
            chunk_loop model fail_on_non_finite 0 (pre ++ post)
              (np_full (length z) <$> sim_shapes, replicate (length z) false)).
  { unfold _run_model_chunk. by rewrite <- Hz. }
  rewrite Hrun, chunk_loop_app, Hloop, bind_Ok. clear Hrun.
  split; [|split].
  - intros ->. rewrite app_nil_r in Hz. subst z. exists x, hf.
    split; [done|]. split; [done|]. split; [done|].
    intros j p out Hj Hm. apply (Hcont j p out); [|done|done].
    apply lookup_lt_Some in Hj. simpl. lia.
  - intros p post' e -> Hp. cbn [chunk_loop]. by rewrite Hp.
  - intros p post' repr -> Hp. cbn [chunk_loop]. by rewrite Hp.
Qed.

Lemma ex_model_storable p :
  p ∈ [[1%Q]; [(-1 # 2)%Q]; [2%Q]] →
  ∃ out, ex_model p = Ok out ∧ storable ex_shapes out.
Proof.
  intros Hp.
  assert (Hx : ∀ val obs v, (obs, v) ∈ [("x", val)] →
            is_ok (broadcast_to 1 val) = true →
            ∃ shp, ex_shapes !! obs = Some shp ∧ is_ok (broadcast_to shp v) = true).
  { intros val obs v Hin Hok. apply list_elem_of_singleton in Hin as [= -> ->].
    exists 1%nat. split; [reflexivity | done]. }
  repeat (apply elem_of_cons in Hp as [-> | Hp]); [| | |inversion Hp];
    (eexists; split; [reflexivity|]; eexists; split; [reflexivity|];
     split; [apply NoDup_singleton|]; intros obs v Hin; eapply Hx; eauto).
Defined.

(** A batch of three points whose second result has a missing field: the
    call still returns three status entries. *)
Lemma run_model_chunk_isolation_witness :
  ∃ x has_failed,
    _run_model_chunk [[1%Q]; [(-1 # 2)%Q]; [2%Q]] ex_model ex_shapes true
      = Ok (x, has_failed) ∧ length has_failed = 3%nat.
Proof.
  destruct (run_model_chunk_isolation [[1%Q]; [(-1 # 2)%Q]; [2%Q]] ex_model
              ex_shapes true [[1%Q]; [(-1 # 2)%Q]; [2%Q]] [])
    as [H _]; [reflexivity | apply ex_model_storable |].
  destruct (H eq_refl) as (x & hf & Hrun & Hlen & _).
  exists x, hf. split; [exact Hrun | exact Hlen].
Defined.

(** C1, as the specification states it, fails when a model call raises: the
    exception leaves [_run_model_chunk] and nothing is returned for the two
    points that did not fail. *)
Lemma run_model_chunk_raise_aborts :
  _run_model_chunk [[1%Q]; [(-5)%Q]; [2%Q]] ex_model ex_shapes true
    = Raise (ModelRaised 7) ∧
  ¬ ∃ r, _run_model_chunk [[1%Q]; [(-5)%Q]; [2%Q]] ex_model ex_shapes true = Ok r.
Proof.
  assert (H : _run_model_chunk [[1%Q]; [(-5)%Q]; [2%Q]] ex_model ex_shapes true
              = Raise (ModelRaised 7)) by (vm_compute; reflexivity).
  split; [exact H|]. intros [r Hr]. rewrite H in Hr. discriminate.
Qed.

(** The status array itself: FINISHED and FAILED are both non-zero members
    of the IntEnum, so every point that is run gets the entry True, whether
    its result was classified FINISHED or FAILED. *)
Lemma run_model_chunk_status_all_true :
  ∃ x, _run_model_chunk [[1%Q]; [(-1 # 2)%Q]; [2%Q]] ex_model ex_shapes true
         = Ok (x, [true; true; true]).
Proof. eexists. vm_compute. reflexivity. Qed.

End SimulatorFacts.

(* ===================================================================== *)
(** * Theorems: the prior and its masks *)
(* ===================================================================== *)

Section PriorFacts.
Import Prior PriorSpec.
#[local] Open Scope Q_scope.

Lemma dict_mapM_Ok {V W} (f : string -> V -> result W) d r :
  dict_mapM f d = Ok r ↔
  Forall2 (λ (kv : string * V) (kw : string * W),
             kw.1 = kv.1 ∧ f kv.1 kv.2 = Ok kw.2) d r.
Proof.
  revert r. induction d as [|[k v] d IH]; intros r; simpl.
  - split; [intros [= <-]; constructor | intros H; by inversion H].
  - split.
    + intros H. apply bind_Ok_inv in H as (w & Hw & H).
      apply bind_Ok_inv in H as (r' & Hr' & [= <-]).
      constructor; [done | by apply IH].
    + intros H. inversion H as [|? [k' w] ? r' [Hk Hf] Hrest]; subst.
      simpl in Hk, Hf. subst k'. rewrite Hf, bind_Ok.
      apply IH in Hrest. by rewrite Hrest, bind_Ok.
Qed.

Lemma Qltb_true a b : Qltb a b = true ↔ a < b.
Proof.
  unfold Qltb. rewrite negb_true_iff, <- not_true_iff_false, Qle_bool_iff.
  split; [apply Qnot_le_lt | apply Qlt_not_le].
Qed.

Lemma foldl_max_spec l : ∀ x,
  let m := foldl (λ m y, if Qltb m y then y else m) x l in
  (m = x ∨ m ∈ l) ∧ x <= m ∧ ∀ s, s ∈ l → s <= m.
Proof.
  induction l as [|y l IH]; intros x; simpl.
  - split; [by left|]. split; [apply Qle_refl|]. intros s Hs. inversion Hs.
  - destruct (Qltb x y) eqn:Hxy.
    + destruct (IH y) as (Hm & Hle & Hall). apply Qltb_true in Hxy.
      split; [right; destruct Hm as [-> | Hm]; [constructor | by constructor]|].
      split; [eapply Qle_trans; [apply Qlt_le_weak, Hxy | done]|].
      intros s Hs. apply elem_of_cons in Hs as [-> | Hs]; auto.
    + destruct (IH x) as (Hm & Hle & Hall).
      assert (Hyx : y <= x).
      { apply Qnot_lt_le. intros H. apply Qltb_true in H. congruence. }
      split; [destruct Hm as [-> | Hm]; [by left | right; by constructor]|].
      split; [done|].
      intros s Hs. apply elem_of_cons in Hs as [-> | Hs]; auto.
      eapply Qle_trans; eauto.
Qed.

Lemma np_max_spec l : l ≠ [] → ∃ mx, np_max l = Ok mx ∧ is_max l mx.
Proof.
  destruct l as [|x l]; [done|]. intros _. eexists. split; [reflexivity|].
  destruct (foldl_max_spec l x) as (Hm & Hle & Hall). split.
  - destruct Hm as [-> | Hm]; [constructor | by constructor].
  - intros s Hs. apply elem_of_cons in Hs as [-> | Hs]; auto.
Qed.

Lemma bool_index_spec (f : Q -> bool) : ∀ v l,
  length v = length l →
  bool_index v (f <$> l) =
    Ok (filter (λ xs : Q * Q, f xs.2 = true) (zip v l)).*1.
Proof.
  induction v as [|x v IH]; intros [|s l] Hlen; try discriminate; [done|].
  simpl in Hlen. injection Hlen as Hlen.
  cbn [fmap list_fmap bool_index zip zip_with]. fold (fmap f l).
  rewrite (IH l Hlen), bind_Ok, filter_cons. simpl.
  destruct (f s); by case_decide.
Qed.

(** The test of the source, [max - score < -th], is the strict form of the
    specification's [score - max >= th]. *)
Lemma mask_test_strict mx s th : Qltb (mx - s) (- th) = true ↔ th < s - mx.
Proof.
  rewrite Qltb_true. split; intros H; lra.
Qed.

Lemma dict_mapM_total {V W} (f : string -> V -> result W)
    (P : string -> V -> W -> Prop) d :
  (∀ k v, (k, v) ∈ d → ∃ w, f k v = Ok w ∧ P k v w) →
  ∃ r, dict_mapM f d = Ok r ∧
       Forall2 (λ (kv : string * V) (kw : string * W),
                  kw.1 = kv.1 ∧ P kv.1 kv.2 kw.2) d r.
Proof.
  induction d as [|[k v] d IH]; intros H.
  - exists []. split; [done | constructor].
  - destruct (H k v) as (w & Hw & HP); [constructor|].
    destruct IH as (r & Hr & HF); [intros; apply H; by constructor|].
    exists ((k, w) :: r). split.
    + simpl. by rewrite Hw, bind_Ok, Hr, bind_Ok.
    + by constructor.
Qed.

(** C7 (as amended): in the constrained prior built by [get_masked], the
    mask of each parameter holds exactly the sampled points whose score
    lies strictly above the cutoff relative to the largest score,
    [th < score - max(score)]; a point whose score sits on the cutoff or
    below it is left out. *)
Theorem get_masked_threshold {Obs : Type} (cdf : Prior1d.dist -> Q -> Q)
    (sample : Prior.t -> Z -> list (string * list Q))
    (self : Prior.t) (obs : Obs) (re : RatioEstimator) (N : Z) (th : Q)
    (cube : list (string * list Q)) :
  _setup_priors (prior_config self) = Ok (priors self) →
  to_cube cdf self (sample self N) = Ok cube →
  (∀ k v, (k, v) ∈ cube →
     ∃ l, dict_get (lnL re obs (sample self N)) k = Ok l ∧ l ≠ [] ∧
          length v = length l) →
  ∃ masklist,
    get_masked cdf sample self obs (Some re) N th =
      Ok {| prior_config := prior_config self; mask := Some masklist;
            priors := priors self |} ∧
    Forall2 (λ (kv : string * list Q) (km : string * BallMask),
               km.1 = kv.1 ∧
               ∃ l mx, dict_get (lnL re obs (sample self N)) kv.1 = Ok l ∧
                       is_max l mx ∧
                       ind_points km.2 = above_cutoff th mx kv.2 l)
            cube masklist.
Proof.
  intros Hsetup Hcube Hscores.
  destruct (dict_mapM_total
              (λ k (v : list Q),
                 l ← dict_get (V:=list Q) (lnL re obs (sample self N)) k;
                 mask ← point_mask l th;
                 ind_points ← bool_index v mask;
                 Ok {| ind_points := ind_points |})
              (λ k v m, ∃ l mx, dict_get (lnL re obs (sample self N)) k = Ok l ∧
                                is_max l mx ∧
                                ind_points m = above_cutoff th mx v l)
              cube) as (masklist & Hml & HF).
  { intros k v Hin. destruct (Hscores k v Hin) as (l & Hl & Hne & Hlen).
    destruct (np_max_spec l Hne) as (mx & Hmx & Hismax).
    exists {| ind_points := above_cutoff th mx v l |}. split.
    - rewrite Hl, bind_Ok. unfold point_mask. rewrite Hmx, !bind_Ok.
      rewrite (bool_index_spec _ v l Hlen), bind_Ok.
      unfold above_cutoff. do 3 f_equal.
      apply list_filter_iff. intros [x s]. simpl. apply mask_test_strict.
    - exists l, mx. done. }
  exists masklist. split; [|done].
  unfold get_masked. rewrite Hcube, bind_Ok, Hml, bind_Ok.
  unfold Prior.__init__. by rewrite Hsetup, bind_Ok.
Qed.

(** The grid of the specification's mask scenario with cutoff -4.6: the
    three inner points are kept. *)
Lemma get_masked_threshold_witness :
  ∃ masklist,
    get_masked ex_cdf ex_sample ex_prior tt (Some ex_re) 10000 (-46 # 10) =
      Ok {| prior_config := ex_config; mask := Some masklist;
            priors := priors ex_prior |}.
Proof.
  destruct (get_masked_threshold ex_cdf ex_sample ex_prior tt ex_re 10000
              (-46 # 10) [("a", [0; 1 # 4; 1 # 2; 3 # 4; 1])]%string)
    as (masklist & H & _).
  - reflexivity.
  - reflexivity.
  - intros k v Hin. apply list_elem_of_singleton in Hin. injection Hin as -> ->.
    exists [-100; -1; 0; -1; -100]. split; [reflexivity|].
    split; [discriminate | reflexivity].
  - exists masklist. exact H.
Defined.

(** C7, as the specification states it, fails on the cutoff itself: with the
    default cutoff -10 the point 1/4, whose score is -10 against a largest
    score of 0, satisfies [score - max >= th] and is not in the mask. *)
Lemma get_masked_excludes_cutoff :
  ∃ p, Marginals.gen_constr_prior (get_masked ex_cdf ex_sample)
         {| Marginals._re := Some ex_re_boundary; Marginals._prior := ex_prior |}
         tt (-10) = Ok p ∧
       mask p = Some [("a", {| ind_points := [1 # 2; 3 # 4] |})]%string ∧
       at_or_above_cutoff (-10) 0 [0; 1 # 4; 1 # 2; 3 # 4; 1]
                          [-100; -10; 0; -1; -100] = [1 # 4; 1 # 2; 3 # 4].
Proof. eexists. split; [vm_compute; reflexivity|]. split; reflexivity. Qed.

Lemma Prior1d_init_fields tag args d :
  Prior1d.__init__ tag args = Ok d →
  Prior1d.tag d = tag ∧ Prior1d.args d = args.
Proof.
  unfold Prior1d.__init__.
  repeat case_decide; try discriminate;
    destruct args as [|? [|? ?]]; try discriminate; by intros [= <-].
Qed.

Lemma Prior1d_roundtrip tag args d :
  Prior1d.__init__ tag args = Ok d →
  Prior1d.from_state_dict (Prior1d.state_dict d) = Ok d.
Proof.
  intros H. destruct (Prior1d_init_fields _ _ _ H) as [Ht Ha].
  unfold Prior1d.from_state_dict, Prior1d.state_dict. simpl.
  by rewrite Ht, Ha.
Qed.

(** C8: a prior that was constructed is rebuilt by
    [from_state_dict (state_dict p)] with the same prior_config and the same
    one-dimensional priors (each of which survives its own round trip), and
    with the mask rebuilt from the state of p's mask; when the mask class
    keeps the volume through its round trip, so does the prior. *)
Theorem prior_state_dict_roundtrip {MaskState : Type}
    (mask_volume : ComboMask -> Q)
    (mask_state_dict : ComboMask -> MaskState)
    (mask_from_state_dict : MaskState -> ComboMask)
    (cfg : PriorConfig) (m : option ComboMask) (p : Prior.t) :
  Prior.__init__ cfg m = Ok p →
  ∃ p', from_state_dict mask_from_state_dict (state_dict mask_state_dict p) = Ok p' ∧
    prior_config p' = prior_config p ∧
    priors p' = priors p ∧
    (∀ k d, (k, d) ∈ priors p →
       Prior1d.from_state_dict (Prior1d.state_dict d) = Ok d) ∧
    mask p' = (λ m, mask_from_state_dict (mask_state_dict m)) <$> mask p ∧
    ((∀ m, mask_volume (mask_from_state_dict (mask_state_dict m)) == mask_volume m) →
     volume mask_volume p' == volume mask_volume p).
Proof.
  unfold Prior.__init__. intros H.
  apply bind_Ok_inv in H as (ps & Hps & [= <-]).
  eexists. split.
  { unfold from_state_dict, state_dict, Prior.__init__. simpl.
    rewrite Hps, bind_Ok. reflexivity. }
  simpl. split; [done|]. split; [done|]. split; [|split].
  - intros k d Hin. unfold _setup_priors in Hps.
    apply dict_mapM_Ok in Hps.
    apply list_elem_of_lookup in Hin as [i Hi].
    destruct (Forall2_lookup_r _ _ _ _ _ Hps Hi) as ([k' v] & _ & _ & Hd).
    simpl in Hd. by eapply Prior1d_roundtrip.
  - by destruct m.
  - intros Hvol. unfold volume. simpl. destruct m; simpl; [apply Hvol | reflexivity].
Qed.

(** The masked example prior, with the stand-in mask class. *)
Lemma prior_state_dict_roundtrip_witness :
  ∃ p', from_state_dict ex_mask_from_state_dict
          (state_dict ex_mask_state_dict
          {| prior_config := ex_config; mask := Some ex_mask;
             priors := priors ex_prior |}) = Ok p' ∧
        volume ex_mask_volume p' == 1.
Proof.
  destruct (prior_state_dict_roundtrip ex_mask_volume ex_mask_state_dict
              ex_mask_from_state_dict ex_config
              (Some ex_mask)
              {| prior_config := ex_config; mask := Some ex_mask;
                 priors := priors ex_prior |})
    as (p' & Hrt & _ & _ & _ & _ & Hvol); [reflexivity|].
  exists p'. split; [exact Hrt|].
  rewrite Hvol; [reflexivity | intros m; reflexivity].
Defined.

End PriorFacts.

(* ===================================================================== *)
(** * Theorems: the nested-round scheduler *)
(* ===================================================================== *)

Section SchedulerNumerics.
Import NestedRatios SchedulerSpec.
#[local] Open Scope R_scope.

Lemma np_log_pos v : 0 < v → np_log v = XFin (ln v).
Proof. intros H. unfold np_log. by rewrite decide_True. Qed.

(** On positive volumes the test is the comparison of the specification. *)
Lemma volume_converged_iff p c th :
  0 < p → 0 < c →
  volume_converged p c th = true ↔ ln p - ln c < th.
Proof.
  intros Hp Hc. unfold volume_converged.
  rewrite !np_log_pos by done. simpl. apply bool_decide_eq_true.
Qed.

Lemma ln_quotient x y : 0 < x → 0 < y → ln (x / y) = ln x - ln y.
Proof.
  intros Hx Hy. unfold Rdiv.
  rewrite ln_mult by (try apply Rinv_0_lt_compat; done).
  rewrite ln_Rinv by done. lra.
Qed.

Lemma quotient_le x y b : 0 < y → x <= y * b → x / y <= b.
Proof.
  intros Hy H. unfold Rdiv. apply (Rmult_le_reg_r y); [done|].
  rewrite Rmult_assoc, Rinv_l by lra. lra.
Qed.

Lemma ln_diff_below p c th :
  0 < p → 0 < c → 0 < th → p <= c * (1 + th) → ln p - ln c < th.
Proof.
  intros Hp Hc Hth Hle.
  rewrite <- ln_quotient by done.
  apply Rlt_le_trans with (ln (exp th)); [|rewrite ln_exp; lra].
  apply ln_increasing; [by apply Rdiv_lt_0_compat|].
  apply Rle_lt_trans with (1 + th).
  - by apply quotient_le.
  - apply exp_ineq1. lra.
Qed.

Lemma ln_diff_above p c th :
  0 < p → 0 < c → 0 < th → c <= p * (1 - th) → th < ln p - ln c.
Proof.
  intros Hp Hc Hth Hle.
  assert (H : ln c - ln p < - th).
  { rewrite <- ln_quotient by done.
    apply Rlt_le_trans with (ln (exp (- th))); [|rewrite ln_exp; lra].
    apply ln_increasing; [by apply Rdiv_lt_0_compat|].
    apply Rle_lt_trans with (1 + - th).
    - apply quotient_le; [done | lra].
    - apply exp_ineq1. lra. }
  lra.
Qed.

Lemma volume_converged_below p c th :
  0 < p → 0 < c → 0 < th → p <= c * (1 + th) →
  volume_converged p c th = true.
Proof.
  intros. apply volume_converged_iff; [done..|]. by apply ln_diff_below.
Qed.

Lemma volume_converged_above p c th :
  0 < p → 0 < c → 0 < th → c <= p * (1 - th) →
  volume_converged p c th = false.
Proof.
  intros Hp Hc Hth Hle. apply not_true_iff_false.
  rewrite volume_converged_iff by done.
  pose proof (ln_diff_above p c th Hp Hc Hth Hle). lra.
Qed.

Lemma py_max_Rmax a b : py_max a b = Rmax a b.
Proof.
  unfold py_max, Rmax. case_decide; destruct (Rle_dec a b); try lra; done.
Qed.

Lemma py_min_Rmin a b : py_min a b = Rmin a b.
Proof.
  unfold py_min, Rmin. case_decide; destruct (Rle_dec a b); try lra; done.
Qed.

Lemma fpow_pos x y : 0 < x → 0 < fpow x y.
Proof.
  intros Hx. unfold fpow. rewrite decide_False by lra.
  unfold Rpower. apply exp_pos.
Qed.

Lemma fpow_1 x : 0 < x → fpow x 1 = x.
Proof.
  intros Hx. unfold fpow. rewrite decide_False by lra. by apply Rpower_1.
Qed.

Lemma py_div_Ok x y : y ≠ 0 → py_div x y = Ok (x / y).
Proof. intros H. unfold py_div. by rewrite decide_False. Qed.

Lemma clamp_bounds x lo hi : lo <= hi → lo <= clamp x lo hi <= hi.
Proof.
  intros H. unfold clamp, Rmin, Rmax.
  destruct (Rle_dec x lo), (Rle_dec _ hi); lra.
Qed.

End SchedulerNumerics.

Section SchedulerFacts.
Import NestedRatios SchedulerSpec.
#[local] Open Scope R_scope.

Context {Prior Cache Model RE Obs : Type}.
Variable volume : Prior -> R.
Variable get_masked : Prior -> Obs -> RE -> Z -> Q -> result Prior.
Variable cache_params : Cache -> list string.
Variable cache_grow : Cache -> Prior -> R -> Cache.
Variable cache_requires_sim : Cache -> bool.
Variable cache_simulate : Cache -> Model -> Cache.
Variable train : Cache -> Prior -> R -> result RE.

#[local] Abbreviation state := (@NestedRatios.t Prior Cache Model RE Obs).
#[local] Abbreviation amortize :=
  (_amortize cache_grow cache_requires_sim cache_simulate train).
#[local] Abbreviation body :=
  (round_body volume get_masked cache_grow cache_requires_sim cache_simulate train).
#[local] Abbreviation loop :=
  (run_loop volume get_masked cache_grow cache_requires_sim cache_simulate train).
#[local] Abbreviation run_ :=
  (NestedRatios.run volume get_masked cache_params cache_grow
     cache_requires_sim cache_simulate train).

Lemma amortize_frame_for (train' : Cache → Prior → R → result RE)
    (self : state) prior N :
  _history (_amortize cache_grow cache_requires_sim cache_simulate train'
              self prior N).1 = _history self ∧
  _converged (_amortize cache_grow cache_requires_sim cache_simulate train'
                self prior N).1 = _converged self ∧
  _model (_amortize cache_grow cache_requires_sim cache_simulate train'
            self prior N).1 = _model self.
Proof.
  unfold _amortize.
  destruct (cache_requires_sim _); [destruct (_model self) eqn:Hm|]; simpl; done.
Qed.

Lemma amortize_frame (self : state) prior N :
  _history (amortize self prior N).1 = _history self ∧
  _converged (amortize self prior N).1 = _converged self ∧
  _model (amortize self prior N).1 = _model self ∧
  _obs (amortize self prior N).1 = _obs self ∧
  _base_prior (amortize self prior N).1 = _base_prior self.
Proof.
  unfold _amortize.
  destruct (cache_requires_sim _); [destruct (_model self) eqn:Hm|]; simpl; done.
Qed.

Lemma amortize_prior (self : state) prior N m :
  (amortize self prior N).2 = Ok m → Marginals.prior m = prior.
Proof.
  unfold _amortize.
  destruct (cache_requires_sim _); [destruct (_model self)|]; simpl;
    try discriminate;
    intros H; apply bind_Ok_inv in H as (re & _ & [= <-]); done.
Qed.

(** What one pass through the loop body does to the scheduler. *)
Lemma round_body_spec (self : state) Ninit df th Nmax kh D self' o :
  body self Ninit df th Nmax kh D = (self', o) →
  (∃ h, o = Some h ∧ h ≠ LoopExit ∧
        _history self' = _history self ∧ _converged self' = _converged self ∧
        _model self' = _model self ∧ _base_prior self' = _base_prior self) ∨
  (o = None ∧ ∃ prior_R N_R m c,
     round_prior_and_N volume self Ninit df Nmax D = Ok (prior_R, N_R) ∧
     (amortize self prior_R N_R).2 = Ok m ∧
     _history self' =
       appended kh (_history self)
         {| marginals := Some m; constr_prior := Some c; N := N_R |} ∧
     _converged self' =
       (if volume_converged (volume prior_R) (volume c) th
        then true else _converged self) ∧
     _model self' = _model self ∧ _base_prior self' = _base_prior self ∧
     _cache self' = _cache (amortize self prior_R N_R).1).
Proof.
  unfold round_body.
  destruct (round_prior_and_N volume self Ninit df Nmax D) as [[prior_R N_R]|e] eqn:Hr.
  2:{ intros [= <- <-]. left. exists (Uncaught e). done. }
  pose proof (amortize_frame self prior_R N_R) as (Hh & Hc & Hm & Ho & Hb).
  destruct (amortize self prior_R N_R) as [self1 rm] eqn:Ham. simpl in *.
  destruct rm as [m|e]; simpl.
  2:{ destruct e; intros [= <- <-]; left; eexists; done. }
  destruct (Marginals.gen_constr_prior get_masked m (_obs self1) (-10))
    as [c|e] eqn:Hg; simpl.
  2:{ destruct e; intros [= <- <-]; left; eexists; done. }
  intros Hbody. right.
  destruct (volume_converged (volume prior_R) (volume c) th) eqn:Hv;
    injection Hbody as <- <-; (split; [done|]);
    exists prior_R, N_R, m, c; simpl; rewrite ?Hh, ?Hc, ?Hv, ?Ham; done.
Qed.

Lemma loop_converged n (self : state) Ninit df th Nmax kh D :
  converged self = true →
  loop n self Ninit df th Nmax kh D = (self, LoopExit).
Proof. intros H. destruct n; simpl; [done | by rewrite H]. Qed.

Lemma drop_previous_length (h : list (@round Prior RE)) :
  length (drop_previous h) = length h.
Proof. apply length_alter. Qed.

Lemma appended_length kh (h : list (@round Prior RE)) e :
  length (appended kh h e) = S (length h).
Proof.
  unfold appended. destruct (_ && _);
    rewrite ?drop_previous_length, length_app; simpl; lia.
Qed.

Lemma drop_previous_snoc (h : list (@round Prior RE)) e0 e :
  drop_previous (h ++ [e0; e]) =
  h ++ [ {| marginals := None; constr_prior := None; N := N e0 |}; e ].
Proof.
  unfold drop_previous. rewrite length_app. simpl.
  replace (length h + 2 - 2)%nat with (length h + 0)%nat by lia.
  by rewrite alter_app_r.
Qed.

Lemma appended_last kh (h : list (@round Prior RE)) e :
  last (appended kh h e) = Some e.
Proof.
  unfold appended. destruct (_ && _) eqn:Hc; [|apply last_snoc].
  induction h as [|e0 h0 _] using rev_ind.
  - rewrite bool_decide_eq_false_2 in Hc by (simpl; lia).
    by rewrite andb_false_r in Hc.
  - rewrite <- app_assoc. simpl. rewrite drop_previous_snoc.
    change [?a; e] with ([a] ++ [e]). rewrite app_assoc. apply last_snoc.
Qed.

(** A completed round sets the flag to the outcome of its test. *)
Lemma round_body_completed (self self' : state) Ninit df th Nmax kh D :
  converged self = false →
  body self Ninit df th Nmax kh D = (self', None) →
  ∃ e m c, last (_history self') = Some e ∧
    marginals e = Some m ∧ constr_prior e = Some c ∧
    round_prior_and_N volume self Ninit df Nmax D = Ok (Marginals.prior m, N e) ∧
    length (_history self') = S (length (_history self)) ∧
    converged self' = volume_converged (volume (Marginals.prior m)) (volume c) th.
Proof.
  intros Hconv Hbody.
  apply round_body_spec in Hbody as [(h & [=] & _) | (_ & prior_R & N_R & m & c & H)].
  destruct H as (Hr & Ham & Hh & Hc & _).
  apply amortize_prior in Ham.
  exists {| marginals := Some m; constr_prior := Some c; N := N_R |}, m, c.
  rewrite Hh, appended_last, appended_length, Ham. simpl.
  repeat split; try done.
  unfold converged in *. rewrite Hc, Hconv.
  by destruct (volume_converged _ _ _).
Qed.

Lemma run_loop_convergence Ninit df th Nmax kh D n : ∀ (self self' : state) h,
  converged self = false →
  loop n self Ninit df th Nmax kh D = (self', h) →
  (converged self' = true →
     h = LoopExit ∧
     ∃ e m c, last (_history self') = Some e ∧
       marginals e = Some m ∧ constr_prior e = Some c ∧
       volume_converged (volume (Marginals.prior m)) (volume c) th = true) ∧
  (converged self' = false → h = LoopExit →
     length (_history self') = (length (_history self) + n)%nat).
Proof.
  induction n as [|n IH]; intros self self' h Hconv Hloop.
  - injection Hloop as <- <-. split; [congruence|]. intros _ _. lia.
  - cbn [run_loop] in Hloop. rewrite Hconv in Hloop.
    destruct (body self Ninit df th Nmax kh D) as [self1 [h1|]] eqn:Hbody.
    + injection Hloop as <- <-.
      apply round_body_spec in Hbody
        as [(h2 & [= <-] & Hne & _ & Hc & _) | ([=] & _)].
      unfold converged in *. split; congruence.
    + destruct (round_body_completed _ _ _ _ _ _ _ _ Hconv Hbody)
        as (e & m & c & Hlast & Hm & Hcp & _ & Hlen & Hc).
      destruct (converged self1) eqn:Hc1.
      * rewrite loop_converged in Hloop by done. injection Hloop as <- <-.
        split; [|congruence]. intros _. split; [done|].
        exists e, m, c. done.
      * destruct (IH _ _ _ Hc1 Hloop) as [H1 H2].
        split; [done|]. intros Hf Hh. rewrite (H2 Hf Hh), Hlen. lia.
Qed.

(** C2: a completed round sets converged() to the outcome of its test, which
    on positive volumes is [ln v_prior - ln v_constrained < volume_conv_th];
    an invocation of [run] that ends converged ended on a round whose test
    held; one that ends by leaving the loop unconverged has completed
    max_rounds rounds; and with threshold 0.1 the volumes 0.4, 0.36 fail the
    test while 0.36, 0.33 pass it. *)
Theorem convergence_test (self : state) (Ninit df th : R) (max_rounds : Z)
    (Nmax : R) (kh : bool) :
  converged self = false →
  (∀ (s s' : state) D, converged s = false →
     body s Ninit df th Nmax kh D = (s', None) →
     ∃ e m c, last (_history s') = Some e ∧
       marginals e = Some m ∧ constr_prior e = Some c ∧
       converged s' = volume_converged (volume (Marginals.prior m)) (volume c) th) ∧
  (∀ p c, 0 < p → 0 < c →
     (volume_converged p c th = true ↔ ln p - ln c < th)) ∧
  (converged (run_ self Ninit df th max_rounds Nmax kh).1 = true →
     (run_ self Ninit df th max_rounds Nmax kh).2 = LoopExit ∧
     ∃ e m c,
       last (_history (run_ self Ninit df th max_rounds Nmax kh).1) = Some e ∧
       marginals e = Some m ∧ constr_prior e = Some c ∧
       volume_converged (volume (Marginals.prior m)) (volume c) th = true) ∧
  (converged (run_ self Ninit df th max_rounds Nmax kh).1 = false →
     (run_ self Ninit df th max_rounds Nmax kh).2 = LoopExit →
     length (_history (run_ self Ninit df th max_rounds Nmax kh).1) =
       (length (_history self) + Z.to_nat max_rounds)%nat) ∧
  volume_converged (4 / 10) (36 / 100) (1 / 10) = false ∧
  volume_converged (36 / 100) (33 / 100) (1 / 10) = true.
Proof.
  intros Hconv. split; [|split; [|split; [|split; [|split]]]].
  - intros s s' D Hs Hbody.
    destruct (round_body_completed _ _ _ _ _ _ _ _ Hs Hbody)
      as (e & m & c & ? & ? & ? & _ & _ & ?).
    exists e, m, c. done.
  - intros p c Hp Hc. by apply volume_converged_iff.
  - unfold NestedRatios.run.
    destruct (negb (bool_decide (1 < df))); [simpl; congruence|].
    destruct (negb (bool_decide (0 < th))); [simpl; congruence|].
    destruct (loop _ self _ _ _ _ _ _) as [self' h] eqn:Hloop. simpl.
    by destruct (run_loop_convergence _ _ _ _ _ _ _ _ _ _ Hconv Hloop).
  - unfold NestedRatios.run.
    destruct (negb (bool_decide (1 < df))); [simpl; congruence|].
    destruct (negb (bool_decide (0 < th))); [simpl; congruence|].
    destruct (loop _ self _ _ _ _ _ _) as [self' h] eqn:Hloop. simpl.
    by destruct (run_loop_convergence _ _ _ _ _ _ _ _ _ _ Hconv Hloop).
  - apply volume_converged_above; lra.
  - apply volume_converged_below; lra.
Qed.

Lemma round_prior_and_N_clamp (self : state) h e m p (Ninit df Nmax : R) (D : nat) :
  _history self = h ++ [e] →
  marginals e = Some m → constr_prior e = Some p →
  (0 < D)%nat → 0 < volume (Marginals.prior m) →
  round_prior_and_N volume self Ninit df Nmax D =
    Ok (p, clamp (df * N e / fpow (volume (Marginals.prior m)) (1 / INR D)
                     * fpow (volume p) (1 / INR D))
                 (N e) Nmax).
Proof.
  intros Hh Hm Hp HD Hv.
  unfold round_prior_and_N. rewrite Hh, last_snoc, Hm, Hp, !bind_Ok.
  rewrite py_div_Ok, bind_Ok by (apply not_0_INR; lia).
  pose proof (fpow_pos (volume (Marginals.prior m)) (1 / INR D) Hv).
  rewrite py_div_Ok, bind_Ok by lra.
  rewrite py_min_Rmin, py_max_Rmax. unfold clamp. do 4 f_equal.
  unfold Rdiv. ring.
Qed.

(** C3: in every round after the first, the number of training points is
    the specification's clamp of the density-scaled count of the previous
    round, so it is at least the previous count and at most Nmax (when the
    previous count is); the first round uses Ninit; and the count a
    completed round records is that number. *)
Theorem sample_count_schedule (self : state) h e m p (Ninit df Nmax : R) (D : nat) :
  _history self = h ++ [e] →
  marginals e = Some m → constr_prior e = Some p →
  (0 < D)%nat → 0 < volume (Marginals.prior m) →
  round_prior_and_N volume self Ninit df Nmax D =
    Ok (p, clamp (df * N e / fpow (volume (Marginals.prior m)) (1 / INR D)
                     * fpow (volume p) (1 / INR D))
                 (N e) Nmax) ∧
  (N e <= Nmax →
     N e <= clamp (df * N e / fpow (volume (Marginals.prior m)) (1 / INR D)
                      * fpow (volume p) (1 / INR D))
                  (N e) Nmax <= Nmax) ∧
  (∀ th kh self', body self Ninit df th Nmax kh D = (self', None) →
     ∃ e', last (_history self') = Some e' ∧
       N e' = clamp (df * N e / fpow (volume (Marginals.prior m)) (1 / INR D)
                        * fpow (volume p) (1 / INR D))
                    (N e) Nmax) ∧
  (∀ self0 : state, _history self0 = [] →
     round_prior_and_N volume self0 Ninit df Nmax D = Ok (_base_prior self0, Ninit)).
Proof.
  intros Hh Hm Hp HD Hv.
  assert (Hr : round_prior_and_N volume self Ninit df Nmax D =
    Ok (p, clamp (df * N e / fpow (volume (Marginals.prior m)) (1 / INR D)
                     * fpow (volume p) (1 / INR D))
                 (N e) Nmax)).
  { by eapply round_prior_and_N_clamp. }
  split; [exact Hr|]. split; [apply clamp_bounds|]. split.
  - intros th kh self' Hbody.
    apply round_body_spec in Hbody
      as [(h2 & [=] & _) | (_ & prior_R & N_R & m' & c & Hr' & _ & Hh' & _)].
    rewrite Hr in Hr'. injection Hr' as <- <-.
    eexists. rewrite Hh', appended_last. split; reflexivity.
  - intros self0 H0. unfold round_prior_and_N. by rewrite H0.
Qed.

(** C4: a round that finds the cache in need of simulation with no model
    bound leaves [run] through the MissingModelError handler: converged()
    stays false, the history is as before, the cache is the old one grown
    (nothing that was simulated is lost, as growing loses nothing), and the
    round the next invocation starts with is the same one. *)
Theorem missing_model_halt {Rec : Type} (simulated : Cache -> list Rec)
    (self : state) (Ninit df th Nmax : R) (kh : bool) (D n : nat)
    (prior_R : Prior) (N_R : R) :
  (∀ c p N, simulated c ⊆ simulated (cache_grow c p N)) →
  converged self = false →
  _model self = None →
  round_prior_and_N volume self Ninit df Nmax D = Ok (prior_R, N_R) →
  cache_requires_sim (cache_grow (_cache self) prior_R N_R) = true →
  ∃ self',
    loop (S n) self Ninit df th Nmax kh D = (self', MissingModelReturn) ∧
    (∀ max_rounds, 1 < df → 0 < th → Z.to_nat max_rounds = S n →
       D = length (cache_params (_cache self)) →
       run_ self Ninit df th max_rounds Nmax kh = (self', MissingModelReturn)) ∧
    converged self' = false ∧
    _history self' = _history self ∧
    _cache self' = cache_grow (_cache self) prior_R N_R ∧
    simulated (_cache self) ⊆ simulated (_cache self') ∧
    round_prior_and_N volume self' Ninit df Nmax D = Ok (prior_R, N_R).
Proof.
  intros Hgrow Hconv Hmodel Hr Hreq.
  assert (Hloop : loop (S n) self Ninit df th Nmax kh D =
            (set_cache self (cache_grow (_cache self) prior_R N_R),
             MissingModelReturn)).
  { cbn [run_loop]. rewrite Hconv. unfold round_body, _amortize.
    by rewrite Hr, Hreq, Hmodel. }
  eexists. split; [exact Hloop|]. split; [|split; [|split; [|split; [|split]]]].
  - intros max_rounds Hdf Hth Hmr ->. unfold NestedRatios.run.
    rewrite !bool_decide_eq_true_2 by done. simpl negb. cbv iota.
    rewrite Hmr. exact Hloop.
  - exact Hconv.
  - reflexivity.
  - reflexivity.
  - apply Hgrow.
  - exact Hr.
Qed.

Lemma appended_N kh (h : list (@round Prior RE)) e :
  N <$> appended kh h e = (N <$> h) ++ [N e].
Proof.
  unfold appended. destruct (_ && _) eqn:Hc; [|by rewrite fmap_app].
  induction h as [|e0 h0 _] using rev_ind.
  - rewrite bool_decide_eq_false_2 in Hc by (simpl; lia).
    by rewrite andb_false_r in Hc.
  - rewrite <- app_assoc. simpl. rewrite drop_previous_snoc.
    rewrite !fmap_app. simpl. by rewrite <- app_assoc.
Qed.

Lemma appended_compacted (h : list (@round Prior RE)) m c n :
  compacted h →
  compacted (appended false h {| marginals := Some m; constr_prior := Some c; N := n |}).
Proof.
  intros Hh. unfold appended. simpl negb. rewrite andb_true_l.
  induction h as [|e0 h0 _] using rev_ind.
  - rewrite bool_decide_eq_false_2 by (simpl; lia).
    intros i e Hi. destruct i; [|done]. injection Hi as <-. simpl.
    split; eauto.
  - rewrite bool_decide_eq_true_2 by (rewrite !length_app; simpl; lia).
    rewrite <- app_assoc. simpl. rewrite drop_previous_snoc.
    intros i e Hi. rewrite length_app. simpl.
    destruct (decide (i < length h0)%nat) as [Hlt|Hge].
    + rewrite lookup_app_l in Hi by done.
      specialize (Hh i e). rewrite lookup_app_l in Hh by done.
      specialize (Hh Hi). rewrite length_app in Hh. simpl in Hh.
      repeat case_decide; try lia; done.
    + rewrite lookup_app_r in Hi by lia.
      destruct (i - length h0)%nat as [|[|k]] eqn:Hk; simpl in Hi.
      * injection Hi as <-. case_decide; [lia | done].
      * injection Hi as <-. case_decide; [simpl; split; eauto | lia].
      * done.
Qed.

Lemma run_loop_compaction Ninit df th Nmax D n : ∀ self : state,
  compacted (_history self) →
  compacted (_history (loop n self Ninit df th Nmax false D).1) ∧
  ∃ ns, N <$> _history (loop n self Ninit df th Nmax false D).1 =
        (N <$> _history self) ++ ns.
Proof.
  induction n as [|n IH]; intros self Hh.
  - simpl. split; [done|]. exists []. by rewrite app_nil_r.
  - cbn [run_loop]. destruct (converged self).
    { simpl. split; [done|]. exists []. by rewrite app_nil_r. }
    destruct (body self Ninit df th Nmax false D) as [self1 [h1|]] eqn:Hbody.
    + apply round_body_spec in Hbody
        as [(h2 & _ & _ & Hhist & _) | ([=] & _)].
      simpl. rewrite Hhist. split; [done|]. exists []. by rewrite app_nil_r.
    + apply round_body_spec in Hbody
        as [(h2 & [=] & _) | (_ & prior_R & N_R & m & c & _ & _ & Hhist & _)].
      destruct (IH self1) as [Hc (ns & Hns)].
      { rewrite Hhist. by apply appended_compacted. }
      split; [done|]. exists (N_R :: ns).
      rewrite Hns, Hhist, appended_N. simpl. by rewrite <- app_assoc.
Qed.

(** C5 (as amended): with keep_history false, after [run] only the most
    recent history entry holds its marginals and constrained prior, every
    earlier entry has had both set to None, and the sample counts N of all
    entries, old and new, are still there. *)
Theorem history_compaction (self : state) (Ninit df th : R) (max_rounds : Z)
    (Nmax : R) :
  compacted (_history self) →
  compacted (_history (run_ self Ninit df th max_rounds Nmax false).1) ∧
  ∃ ns, N <$> _history (run_ self Ninit df th max_rounds Nmax false).1 =
        (N <$> _history self) ++ ns.
Proof.
  intros Hh. unfold NestedRatios.run.
  destruct (negb (bool_decide (1 < df)));
    [simpl; split; [done|]; exists []; by rewrite app_nil_r|].
  destruct (negb (bool_decide (0 < th)));
    [simpl; split; [done|]; exists []; by rewrite app_nil_r|].
  by apply run_loop_compaction.
Qed.

(** ** Further properties of the scheduler *)

Lemma run_loop_add Ninit df th Nmax kh D a b : ∀ self : state,
  loop (a + b) self Ninit df th Nmax kh D =
    match loop a self Ninit df th Nmax kh D with
    | (self1, LoopExit) => loop b self1 Ninit df th Nmax kh D
    | r => r
    end.
Proof.
  induction a as [|a IH]; intros self; [done|].
  cbn [Nat.add run_loop]. destruct (converged self) eqn:Hc.
  { by rewrite loop_converged. }
  destruct (body self Ninit df th Nmax kh D) as [self1 [h|]] eqn:Hbody.
  - apply round_body_spec in Hbody as [(h' & [= <-] & Hne & _) | ([=] & _)].
    by destruct h.
  - apply IH.
Qed.

Lemma amortize_cache_params (self : state) prior N :
  (∀ c p n, cache_params (cache_grow c p n) = cache_params c) →
  (∀ c m, cache_params (cache_simulate c m) = cache_params c) →
  cache_params (_cache (amortize self prior N).1) = cache_params (_cache self).
Proof.
  intros Hg Hs. unfold _amortize.
  destruct (cache_requires_sim _); [destruct (_model self)|]; simpl;
    by rewrite ?Hs, ?Hg.
Qed.

Lemma run_loop_cache_params Ninit df th Nmax kh D n : ∀ (self self1 : state),
  (∀ c p n, cache_params (cache_grow c p n) = cache_params c) →
  (∀ c m, cache_params (cache_simulate c m) = cache_params c) →
  loop n self Ninit df th Nmax kh D = (self1, LoopExit) →
  cache_params (_cache self1) = cache_params (_cache self).
Proof.
  induction n as [|n IH]; intros self self1 Hg Hs Hloop.
  - by injection Hloop as <-.
  - cbn [run_loop] in Hloop. destruct (converged self).
    { by injection Hloop as <-. }
    destruct (body self Ninit df th Nmax kh D) as [self2 [h|]] eqn:Hbody.
    + injection Hloop as <- ->.
      by apply round_body_spec in Hbody as [(h' & [= <-] & Hne & _) | ([=] & _)].
    + apply round_body_spec in Hbody
        as [(h2 & [=] & _) | (_ & p & N_R & m & c & _ & _ & _ & _ & _ & _ & Hc)].
      rewrite (IH _ _ Hg Hs Hloop), Hc. by apply amortize_cache_params.
Qed.

(** X11: pausing at max_rounds and resuming is the same as running on: with
    a cache whose parameter list does not change, [run] with a + b rounds
    gives what [run] with a rounds followed, if that one left its loop, by
    [run] with b rounds gives. *)
Theorem run_resume (self : state) (Ninit df th : R) (a b : Z) (Nmax : R)
    (kh : bool) :
  1 < df → 0 < th → (0 ≤ a)%Z → (0 ≤ b)%Z →
  (∀ c p n, cache_params (cache_grow c p n) = cache_params c) →
  (∀ c m, cache_params (cache_simulate c m) = cache_params c) →
  NestedRatios.run volume get_masked cache_params cache_grow
      cache_requires_sim cache_simulate train self Ninit df th (a + b) Nmax kh =
    match NestedRatios.run volume get_masked cache_params cache_grow
            cache_requires_sim cache_simulate train self Ninit df th a Nmax kh with
    | (self1, LoopExit) =>
        NestedRatios.run volume get_masked cache_params cache_grow
          cache_requires_sim cache_simulate train self1 Ninit df th b Nmax kh
    | r => r
    end.
Proof.
  intros Hdf Hth Ha Hb Hg Hs. unfold NestedRatios.run.
  rewrite !bool_decide_eq_true_2 by done. simpl negb. cbv iota.
  rewrite Z2Nat.inj_add by done. rewrite run_loop_add.
  destruct (loop (Z.to_nat a) self _ _ _ _ _ _) as [self1 h] eqn:Hloop.
  destruct h; try done.
  by rewrite (run_loop_cache_params _ _ _ _ _ _ _ _ _ Hg Hs Hloop).
Qed.

Lemma round_prior_and_N_bounds (self : state) Ninit df Nmax D p N_R :
  round_prior_and_N volume self Ninit df Nmax D = Ok (p, N_R) →
  (_history self = [] ∧ N_R = Ninit) ∨
  (∃ e, last (_history self) = Some e ∧ N_R <= Nmax ∧
        (N e <= Nmax → N e <= N_R)).
Proof.
  unfold round_prior_and_N.
  destruct (last (_history self)) as [e|] eqn:Hlast.
  - intros H. right. exists e. split; [done|].
    destruct (marginals e); [|discriminate]. rewrite bind_Ok in H.
    destruct (constr_prior e); [|discriminate]. rewrite bind_Ok in H.
    apply bind_Ok_inv in H as (ex & _ & H).
    apply bind_Ok_inv in H as (dens & _ & [= _ <-]).
    rewrite py_min_Rmin, py_max_Rmax. unfold Rmin, Rmax.
    repeat destruct (Rle_dec _ _); split; intros; lra.
  - intros [= <- <-]. left. split; [|done].
    by apply last_None in Hlast.
Qed.

Lemma schedule_ok_snoc Nmax ns n :
  schedule_ok Nmax ns → n <= Nmax →
  (∀ a, last ns = Some a → a <= n) →
  schedule_ok Nmax (ns ++ [n]).
Proof.
  intros [Hb Hs] Hn Hlast. split.
  - intros x Hx. apply elem_of_app in Hx as [Hx | Hx]; [auto|].
    by apply list_elem_of_singleton in Hx as ->.
  - intros i a b Hi HSi.
    destruct (decide (S i < length ns)%nat) as [Hlt|Hge].
    + rewrite lookup_app_l in Hi by lia. rewrite lookup_app_l in HSi by lia.
      eauto.
    + assert (Hi' : (i < length ns)%nat).
      { apply lookup_lt_Some in HSi. rewrite length_app in HSi. simpl in HSi. lia. }
      rewrite lookup_app_l in Hi by lia.
      rewrite lookup_app_r in HSi by lia.
      replace (S i - length ns)%nat with 0%nat in HSi by lia.
      injection HSi as <-. apply Hlast.
      rewrite last_lookup. replace (Nat.pred (length ns)) with i by lia. done.
Qed.

Lemma run_loop_schedule Ninit df th Nmax kh D n : ∀ self : state,
  Ninit <= Nmax →
  schedule_ok Nmax (N <$> _history self) →
  schedule_ok Nmax (N <$> _history (loop n self Ninit df th Nmax kh D).1).
Proof.
  induction n as [|n IH]; intros self HN Hok; [done|].
  cbn [run_loop]. destruct (converged self); [done|].
  destruct (body self Ninit df th Nmax kh D) as [self1 [h1|]] eqn:Hbody.
  - apply round_body_spec in Hbody as [(h2 & _ & _ & Hhist & _) | ([=] & _)].
    simpl. by rewrite Hhist.
  - apply round_body_spec in Hbody
      as [(h2 & [=] & _) | (_ & p & N_R & m & c & Hr & _ & Hhist & _)].
    apply IH; [done|]. rewrite Hhist, appended_N. simpl.
    apply round_prior_and_N_bounds in Hr as [[Hnil ->] | (e & Hlast & HNR & Hprev)].
    + apply schedule_ok_snoc; [done|done|].
      intros a Ha. rewrite Hnil in Ha. discriminate.
    + apply schedule_ok_snoc; [done|done|].
      intros a Ha. rewrite fmap_last, Hlast in Ha. injection Ha as <-.
      apply Hprev. apply Hok. apply list_elem_of_fmap. exists e. split; [done|].
      apply last_Some in Hlast as [l' ->]. apply elem_of_app. right. constructor.
Qed.

(** X12: the sample counts recorded in the history never decrease from one
    round to the next and never exceed Nmax, whatever the volumes are, as
    long as Ninit does not exceed Nmax. *)
Theorem run_schedule_invariant (self : state) (Ninit df th : R) (max_rounds : Z)
    (Nmax : R) (kh : bool) :
  Ninit <= Nmax →
  schedule_ok Nmax (N <$> _history self) →
  schedule_ok Nmax (N <$> _history (run_ self Ninit df th max_rounds Nmax kh).1).
Proof.
  intros HN Hok. unfold NestedRatios.run.
  destruct (negb (bool_decide (1 < df))); [done|].
  destruct (negb (bool_decide (0 < th))); [done|].
  by apply run_loop_schedule.
Qed.

Lemma run_loop_keep_history Ninit df th Nmax D n : ∀ self : state,
  ∃ new,
    _history (loop n self Ninit df th Nmax true D).1 = _history self ++ new ∧
    Forall (λ e, is_Some (marginals e) ∧ is_Some (constr_prior e)) new.
Proof.
  induction n as [|n IH]; intros self.
  - exists []. simpl. by rewrite app_nil_r.
  - cbn [run_loop]. destruct (converged self).
    { exists []. simpl. by rewrite app_nil_r. }
    destruct (body self Ninit df th Nmax true D) as [self1 [h1|]] eqn:Hbody.
    + apply round_body_spec in Hbody as [(h2 & _ & _ & Hhist & _) | ([=] & _)].
      exists []. simpl. by rewrite Hhist, app_nil_r.
    + apply round_body_spec in Hbody
        as [(h2 & [=] & _) | (_ & p & N_R & m & c & _ & _ & Hhist & _)].
      destruct (IH self1) as (new & Hnew & Hall).
      exists ({| marginals := Some m; constr_prior := Some c; N := N_R |} :: new).
      split.
      * rewrite Hnew, Hhist. unfold appended. simpl. by rewrite <- app_assoc.
      * constructor; [simpl; eauto | done].
Qed.

(** X13: with keep_history true nothing is ever dropped: [run] leaves the
    old history in place and appends entries that all hold their marginals
    and constrained prior. *)
Theorem run_keep_history (self : state) (Ninit df th : R) (max_rounds : Z)
    (Nmax : R) :
  ∃ new,
    _history (NestedRatios.run volume get_masked cache_params cache_grow
                cache_requires_sim cache_simulate train
                self Ninit df th max_rounds Nmax true).1 = _history self ++ new ∧
    Forall (λ e, is_Some (marginals e) ∧ is_Some (constr_prior e)) new ∧
    (length new ≤ Z.to_nat max_rounds)%nat.
Proof.
  unfold NestedRatios.run.
  destruct (negb (bool_decide (1 < df)));
    [exists []; simpl; rewrite app_nil_r; repeat split; [constructor | lia]|].
  destruct (negb (bool_decide (0 < th)));
    [exists []; simpl; rewrite app_nil_r; repeat split; [constructor | lia]|].
  destruct (run_loop_keep_history Ninit df th Nmax
              (length (cache_params (_cache self))) (Z.to_nat max_rounds) self)
    as (new & Hnew & Hall).
  exists new. split; [done|]. split; [done|].
  assert (Hlen : ∀ n (s : state),
            (length (_history (loop n s Ninit df th Nmax true
                                 (length (cache_params (_cache self)))).1)
             ≤ length (_history s) + n)%nat).
  { clear. induction n as [|n IH]; intros s; [simpl; lia|].
    cbn [run_loop]. destruct (converged s); [simpl; lia|].
    destruct (body s Ninit df th Nmax true _) as [s1 [h1|]] eqn:Hbody.
    - apply round_body_spec in Hbody as [(h2 & _ & _ & Hhist & _) | ([=] & _)].
      simpl. rewrite Hhist. lia.
    - apply round_body_spec in Hbody
        as [(h2 & [=] & _) | (_ & p & N_R & m & c & _ & _ & Hhist & _)].
      specialize (IH s1). rewrite Hhist, appended_length in IH. lia. }
  specialize (Hlen (Z.to_nat max_rounds) self).
  rewrite Hnew, length_app in Hlen. lia.
Qed.

(** A round whose try block raises: the handler decides how [run] ends. *)
Lemma round_body_raised (self : state) Ninit df th Nmax kh D p N_R e :
  round_prior_and_N volume self Ninit df Nmax D = Ok (p, N_R) →
  ((marginals_R ← (amortize self p N_R).2;
    constr_prior_R ← Marginals.gen_constr_prior get_masked marginals_R
                        (_obs (amortize self p N_R).1) (-10);
    Ok (marginals_R, constr_prior_R)) = Raise e) →
  body self Ninit df th Nmax kh D =
    ((amortize self p N_R).1,
     Some (match e with
           | MissingModelError _ => MissingModelReturn
           | _ => Uncaught e
           end)).
Proof.
  intros Hr He. unfold round_body. rewrite Hr.
  destruct (amortize self p N_R) as [self1 rm]. cbn [fst snd] in *.
  rewrite He. by destruct e.
Qed.

(** X14: when training raises, the round is not recorded: [run] ends with
    that exception (or, for a MissingModelError, through its handler), the
    history and converged() are as before, and the cache is the one that
    was grown and simulated for the round. *)
Theorem training_failure_not_recorded (self : state) (Ninit df th Nmax : R)
    (kh : bool) (D n : nat) (p : Prior) (N_R : R) (model : Model) (e : exn) :
  converged self = false →
  _model self = Some model →
  round_prior_and_N volume self Ninit df Nmax D = Ok (p, N_R) →
  train (if cache_requires_sim (cache_grow (_cache self) p N_R)
         then cache_simulate (cache_grow (_cache self) p N_R) model
         else cache_grow (_cache self) p N_R) p N_R = Raise e →
  ∃ self',
    loop (S n) self Ninit df th Nmax kh D =
      (self', match e with
              | MissingModelError _ => MissingModelReturn
              | _ => Uncaught e
              end) ∧
    _history self' = _history self ∧ converged self' = false ∧
    _cache self' =
      (if cache_requires_sim (cache_grow (_cache self) p N_R)
       then cache_simulate (cache_grow (_cache self) p N_R) model
       else cache_grow (_cache self) p N_R).
Proof.
  intros Hconv Hmodel Hr Htrain.
  exists (amortize self p N_R).1.
  pose proof (amortize_frame self p N_R) as (Hh & Hc & _).
  split; [|split; [done|split; [unfold converged in *; congruence|]]].
  - cbn [run_loop]. rewrite Hconv.
    rewrite (round_body_raised self Ninit df th Nmax kh D p N_R e Hr); [done|].
    unfold _amortize. rewrite Hmodel.
    destruct (cache_requires_sim _); simpl; by rewrite Htrain.
  - unfold _amortize. rewrite Hmodel. by destruct (cache_requires_sim _).
Qed.

Lemma round_body_obs (self : state) Ninit df th Nmax kh D :
  _obs (body self Ninit df th Nmax kh D).1 = _obs self.
Proof.
  unfold round_body.
  destruct (round_prior_and_N _ _ _ _ _ _) as [[p N_R]|e]; [|done].
  pose proof (amortize_frame self p N_R) as (_ & _ & _ & Ho & _).
  destruct (amortize self p N_R) as [self1 rm]. cbn [fst snd] in *.
  destruct rm as [m|e]; simpl; [|by destruct e].
  destruct (Marginals.gen_constr_prior _ _ _ _) as [c|e]; simpl;
    [|by destruct e].
  by destruct (volume_converged _ _ _).
Qed.

Lemma run_loop_frame Ninit df th Nmax kh D n : ∀ self : state,
  _model (loop n self Ninit df th Nmax kh D).1 = _model self ∧
  _obs (loop n self Ninit df th Nmax kh D).1 = _obs self ∧
  _base_prior (loop n self Ninit df th Nmax kh D).1 = _base_prior self ∧
  (length (_history self)
     ≤ length (_history (loop n self Ninit df th Nmax kh D).1)
     ≤ length (_history self) + n)%nat.
Proof.
  induction n as [|n IH]; intros self; [simpl; repeat split; lia|].
  cbn [run_loop]. destruct (converged self); [simpl; repeat split; lia|].
  pose proof (round_body_obs self Ninit df th Nmax kh D) as Hobs.
  destruct (body self Ninit df th Nmax kh D) as [self1 [h1|]] eqn:Hbody.
  - apply round_body_spec in Hbody
      as [(h2 & _ & _ & Hhist & _ & Hm & Hb) | ([=] & _)].
    simpl in *. rewrite Hhist. repeat split; try done; lia.
  - apply round_body_spec in Hbody
      as [(h2 & [=] & _) | (_ & p & N_R & m & c & _ & _ & Hhist & _ & Hm & Hb & _)].
    destruct (IH self1) as (Hm1 & Ho1 & Hb1 & Hlen). simpl in Hobs.
    rewrite Hhist, appended_length in Hlen.
    repeat split; try congruence; lia.
Qed.

Lemma run_base_prior (self : state) Ninit df th max_rounds Nmax kh :
  _base_prior (run_ self Ninit df th max_rounds Nmax kh).1 = _base_prior self.
Proof.
  unfold NestedRatios.run.
  destruct (negb (bool_decide (1 < df))); [done|].
  destruct (negb (bool_decide (0 < th))); [done|].
  by destruct (run_loop_frame Ninit df th Nmax kh
                 (length (cache_params (_cache self))) (Z.to_nat max_rounds) self)
    as (_ & _ & ? & _).
Qed.

(** X15: [run] never changes the model, the observation or the base prior,
    never removes a history entry and adds at most max_rounds of them, and
    on a scheduler that has converged it changes nothing at all. *)
Theorem run_frame (self : state) (Ninit df th : R) (max_rounds : Z) (Nmax : R)
    (kh : bool) :
  _model (run_ self Ninit df th max_rounds Nmax kh).1 = _model self ∧
  _obs (run_ self Ninit df th max_rounds Nmax kh).1 = _obs self ∧
  _base_prior (run_ self Ninit df th max_rounds Nmax kh).1 = _base_prior self ∧
  (length (_history self)
     ≤ length (_history (run_ self Ninit df th max_rounds Nmax kh).1)
     ≤ length (_history self) + Z.to_nat max_rounds)%nat ∧
  (converged self = true →
     (run_ self Ninit df th max_rounds Nmax kh).1 = self).
Proof.
  unfold NestedRatios.run.
  destruct (negb (bool_decide (1 < df))); [simpl; repeat split; lia|].
  destruct (negb (bool_decide (0 < th))); [simpl; repeat split; lia|].
  destruct (run_loop_frame Ninit df th Nmax kh
              (length (cache_params (_cache self))) (Z.to_nat max_rounds) self)
    as (? & ? & ? & ?).
  repeat split; try done; try lia.
  intros Hc. by rewrite loop_converged.
Qed.

(** X16: after [run] with keep_history false, [gen_custom_marginals] still
    finds its prior: once the parameter list is formatted it trains on the
    constrained prior of the most recent round (the base prior if there is
    none), and it touches neither the history nor converged(). *)
Theorem gen_custom_marginals_after_run {ParamList : Type}
    (format_param_list : ParamList → list string → result ParamList)
    (train_for : ParamList → Cache → Prior → R → result RE)
    (self : state) (Ninit df th : R) (max_rounds : Z) (Nmax : R)
    (param_list : ParamList) (N' : R) :
  compacted (_history self) →
  ∃ prior,
    match last (_history (run_ self Ninit df th max_rounds Nmax false).1) with
    | None => prior = _base_prior self
    | Some e => constr_prior e = Some prior
    end ∧
    gen_custom_marginals cache_params cache_grow cache_requires_sim
        cache_simulate format_param_list train_for
        (run_ self Ninit df th max_rounds Nmax false).1 param_list N' =
      match format_param_list param_list
              (cache_params
                 (_cache (run_ self Ninit df th max_rounds Nmax false).1)) with
      | Ok pl =>
          _amortize cache_grow cache_requires_sim cache_simulate (train_for pl)
            (run_ self Ninit df th max_rounds Nmax false).1 prior N'
      | Raise e => ((run_ self Ninit df th max_rounds Nmax false).1, Raise e)
      end ∧
    _history (gen_custom_marginals cache_params cache_grow cache_requires_sim
                cache_simulate format_param_list train_for
                (run_ self Ninit df th max_rounds Nmax false).1 param_list N').1 =
      _history (run_ self Ninit df th max_rounds Nmax false).1 ∧
    converged (gen_custom_marginals cache_params cache_grow cache_requires_sim
                 cache_simulate format_param_list train_for
                 (run_ self Ninit df th max_rounds Nmax false).1 param_list N').1 =
      converged (run_ self Ninit df th max_rounds Nmax false).1.
Proof.
  intros Hcomp.
  assert (Hc1 : compacted (_history (run_ self Ninit df th max_rounds Nmax false).1)).
  { unfold NestedRatios.run.
    destruct (negb (bool_decide (1 < df))); [done|].
    destruct (negb (bool_decide (0 < th))); [done|].
    by apply run_loop_compaction. }
  pose proof (run_base_prior self Ninit df th max_rounds Nmax false) as Hb.
  set (s1 := (run_ self Ninit df th max_rounds Nmax false).1) in *.
  assert (Hp : ∃ prior,
            match last (_history s1) with
            | None => prior = _base_prior self
            | Some e => constr_prior e = Some prior
            end ∧
            gen_custom_marginals cache_params cache_grow cache_requires_sim
              cache_simulate format_param_list train_for s1 param_list N' =
              match format_param_list param_list (cache_params (_cache s1)) with
              | Ok pl =>
                  _amortize cache_grow cache_requires_sim cache_simulate
                    (train_for pl) s1 prior N'
              | Raise e => (s1, Raise e)
              end).
  { unfold gen_custom_marginals.
    destruct (last (_history s1)) as [e|] eqn:Hlast.
    - rewrite last_lookup in Hlast. specialize (Hc1 _ _ Hlast).
      assert (Hlen : (0 < length (_history s1))%nat).
      { destruct (_history s1); [discriminate | simpl; lia]. }
      rewrite decide_True in Hc1 by lia.
      destruct Hc1 as [_ [c Hc]]. exists c. by rewrite Hc.
    - exists (_base_prior self). by rewrite Hb. }
  destruct Hp as (prior & Hprior & Hgen). exists prior.
  split; [done|]. split; [done|]. rewrite Hgen.
  destruct (format_param_list param_list (cache_params (_cache s1))) as [pl|e];
    [|done].
  destruct (amortize_frame_for (train_for pl) s1 prior N') as (Hh & Hc & _).
  split; [done | unfold converged; done].
Qed.

Lemma run_loop_exhausts Ninit df th Nmax kh D n : ∀ self : state,
  (loop n self Ninit df th Nmax kh D).2 = LoopExit →
  converged (loop n self Ninit df th Nmax kh D).1 = false →
  length (_history (loop n self Ninit df th Nmax kh D).1) =
    (length (_history self) + n)%nat.
Proof.
  induction n as [|n IH]; intros self; [simpl; lia|].
  cbn [run_loop]. destruct (converged self) eqn:Hconv.
  { simpl. congruence. }
  destruct (body self Ninit df th Nmax kh D) as [self1 [h1|]] eqn:Hbody.
  - apply round_body_spec in Hbody as [(h2 & [= ->] & Hne & _) | ([=] & _)].
    simpl. congruence.
  - apply round_body_spec in Hbody
      as [(h2 & [=] & _) | (_ & p & N_R & m & c & _ & _ & Hhist & _)].
    intros Hexit Hnc. rewrite (IH self1 Hexit Hnc), Hhist, appended_length. lia.
Qed.

(** X22: when [run] leaves its loop without having converged, it has used
    every round: the history is longer by exactly max_rounds entries. *)
Theorem run_exhausts_rounds (self : state) (Ninit df th : R) (max_rounds : Z)
    (Nmax : R) (kh : bool) :
  (NestedRatios.run volume get_masked cache_params cache_grow
     cache_requires_sim cache_simulate train
     self Ninit df th max_rounds Nmax kh).2 = LoopExit →
  converged (run_ self Ninit df th max_rounds Nmax kh).1 = false →
  length (_history (run_ self Ninit df th max_rounds Nmax kh).1) =
    (length (_history self) + Z.to_nat max_rounds)%nat.
Proof.
  unfold NestedRatios.run.
  destruct (negb (bool_decide (1 < df))); [discriminate|].
  destruct (negb (bool_decide (0 < th))); [discriminate|].
  apply run_loop_exhausts.
Qed.

End SchedulerFacts.

(** ** The scheduler on the stand-in collaborators *)

Section SchedulerExample.
Import NestedRatios SchedulerSpec.
#[local] Open Scope R_scope.

#[local] Abbreviation ex_state :=
  (@NestedRatios.t nat (list Simulator.SimulationStatus) unit unit unit).
#[local] Abbreviation ex_body :=
  (round_body ex_volume ex_get_masked ex_cache_grow ex_cache_requires_sim
              ex_cache_simulate ex_train).
#[local] Abbreviation ex_loop :=
  (run_loop ex_volume ex_get_masked ex_cache_grow ex_cache_requires_sim
            ex_cache_simulate ex_train).

Lemma ex_grow_requires_sim c p N :
  ex_cache_requires_sim (ex_cache_grow c p N) = true.
Proof.
  unfold ex_cache_requires_sim, ex_cache_grow.
  rewrite existsb_app. simpl. apply orb_true_r.
Qed.

Lemma ex_volume_pos p : 0 < ex_volume p.
Proof. destruct p as [|[|[|p]]]; simpl; lra. Qed.

(** One round with a model bound. *)
Lemma ex_body_step (self : ex_state) p N_R th kh :
  _model self = Some tt →
  round_prior_and_N ex_volume self 3000 2 100000 1 = Ok (p, N_R) →
  ex_body self 3000 2 th 100000 kh 1 =
    (let self2 :=
       set_history
         (set_cache self
            (ex_cache_simulate (ex_cache_grow (_cache self) p N_R) tt))
         (appended kh (_history self)
            {| marginals := Some {| Marginals._re := tt; Marginals._prior := p |};
               constr_prior := Some (S p); N := N_R |}) in
     if volume_converged (ex_volume p) (ex_volume (S p)) th
     then set_converged self2 true else self2,
     None).
Proof.
  intros Hm Hr. unfold round_body, _amortize.
  rewrite Hr, ex_grow_requires_sim, Hm. simpl.
  by destruct (volume_converged _ _ th).
Qed.

Lemma ex_clamp_round2 :
  clamp (2 * 3000 / fpow (ex_volume 0) (1 / INR 1) * fpow (ex_volume 1) (1 / INR 1))
        3000 100000 = 3000.
Proof.
  replace (1 / INR 1) with 1 by (simpl; lra).
  rewrite !fpow_1 by apply ex_volume_pos. simpl.
  unfold clamp, Rmin, Rmax. repeat destruct (Rle_dec _ _); lra.
Qed.

Lemma ex_clamp_round3 :
  clamp (2 * 3000 / fpow (ex_volume 1) (1 / INR 1) * fpow (ex_volume 2) (1 / INR 1))
        3000 100000 = 5400.
Proof.
  replace (1 / INR 1) with 1 by (simpl; lra).
  rewrite !fpow_1 by apply ex_volume_pos. simpl.
  unfold clamp, Rmin, Rmax. repeat destruct (Rle_dec _ _); lra.
Qed.

Lemma ex_round1 kh :
  ex_body (ex_nr (Some tt)) 3000 2 (1 / 10) 100000 kh 1 =
    (ex_after 1 false [ex_entry 0 3000 true], None).
Proof.
  rewrite (ex_body_step _ 0%nat 3000) by done.
  cbv zeta. rewrite volume_converged_above by (simpl; lra).
  unfold appended. rewrite bool_decide_eq_false_2 by (simpl; lia).
  by rewrite andb_false_r.
Qed.

Lemma ex_round2 kh :
  ex_body (ex_after 1 false [ex_entry 0 3000 true]) 3000 2 (1 / 10) 100000 kh 1 =
    (ex_after 2 false [ex_entry 0 3000 kh; ex_entry 1 3000 true], None).
Proof.
  rewrite (ex_body_step _ 1%nat 3000); [|done|].
  2:{ rewrite (round_prior_and_N_clamp ex_volume _ [] (ex_entry 0 3000 true)
                 {| Marginals._re := tt; Marginals._prior := O |} 1%nat);
        [|done|done|done|lia|apply ex_volume_pos].
      cbn [N ex_entry Marginals.prior Marginals._prior].
      by rewrite ex_clamp_round2. }
  cbv zeta. rewrite volume_converged_above by (simpl; lra).
  unfold appended. rewrite bool_decide_eq_true_2 by (simpl; lia).
  by destruct kh.
Qed.

Lemma ex_round3 kh :
  ex_body (ex_after 2 false [ex_entry 0 3000 kh; ex_entry 1 3000 true])
          3000 2 (1 / 10) 100000 kh 1 =
    (ex_after 3 true
       [ex_entry 0 3000 kh; ex_entry 1 3000 kh; ex_entry 2 5400 true], None).
Proof.
  rewrite (ex_body_step _ 2%nat 5400); [|done|].
  2:{ rewrite (round_prior_and_N_clamp ex_volume _ [ex_entry 0 3000 kh]
                 (ex_entry 1 3000 true)
                 {| Marginals._re := tt; Marginals._prior := 1%nat |} 2%nat);
        [|done|done|done|lia|apply ex_volume_pos].
      cbn [N ex_entry Marginals.prior Marginals._prior].
      by rewrite ex_clamp_round3. }
  cbv zeta. rewrite volume_converged_below by (simpl; lra).
  unfold appended. rewrite bool_decide_eq_true_2 by (simpl; lia).
  by destruct kh.
Qed.

(** The specification's convergence scenario, volumes 1, 0.4, 0.36, 0.33:
    three rounds, then the loop is left converged. *)
Lemma ex_run_three_rounds kh :
  ex_run (ex_nr (Some tt)) 10 kh =
    (ex_after 3 true
       [ex_entry 0 3000 kh; ex_entry 1 3000 kh; ex_entry 2 5400 true],
     LoopExit).
Proof.
  unfold ex_run, NestedRatios.run.
  rewrite !bool_decide_eq_true_2 by lra. simpl negb. cbv iota.
  change (Z.to_nat 10) with 10%nat.
  change (length (ex_cache_params (_cache (ex_nr (Some tt))))) with 1%nat.
  cbn [run_loop]. change (converged (ex_nr (Some tt))) with false. cbv iota.
  rewrite ex_round1. cbv iota beta.
  change (converged (ex_after 1 false _)) with false. cbv iota.
  rewrite ex_round2. cbv iota beta.
  change (converged (ex_after 2 false _)) with false. cbv iota.
  rewrite ex_round3. cbv iota beta.
  change (converged (ex_after 3 true _)) with true. cbv iota.
  reflexivity.
Qed.

(** The convergence scenario ends converged on a round whose test held. *)
Lemma convergence_test_witness :
  (ex_run (ex_nr (Some tt)) 10 false).2 = LoopExit ∧
  ∃ e m c,
    last (_history (ex_run (ex_nr (Some tt)) 10 false).1) = Some e ∧
    marginals e = Some m ∧ constr_prior e = Some c ∧
    volume_converged (ex_volume (Marginals.prior m)) (ex_volume c) (1 / 10) = true.
Proof.
  destruct (convergence_test ex_volume ex_get_masked ex_cache_params
              ex_cache_grow ex_cache_requires_sim ex_cache_simulate ex_train
              (ex_nr (Some tt)) 3000 2 (1 / 10) 10 100000 false)
    as (_ & _ & H & _); [reflexivity|].
  apply H. fold (ex_run (ex_nr (Some tt)) 10 false).
  rewrite ex_run_three_rounds. reflexivity.
Defined.

(** The second round of the scenario: 3000 points at volume 1, then the
    region shrinks to 0.4, so the doubled density asks for 2400 points and
    the clamp keeps 3000. *)
Lemma sample_count_schedule_witness :
  round_prior_and_N ex_volume (ex_after 1 false [ex_entry 0 3000 true])
                    3000 2 100000 1 = Ok (1%nat, 3000).
Proof.
  destruct (sample_count_schedule ex_volume ex_get_masked ex_cache_grow
              ex_cache_requires_sim ex_cache_simulate ex_train
              (ex_after 1 false [ex_entry 0 3000 true]) []
              (ex_entry 0 3000 true)
              {| Marginals._re := tt; Marginals._prior := O |} 1%nat
              3000 2 100000 1) as (H & _);
    [reflexivity | reflexivity | reflexivity | lia | apply ex_volume_pos |].
  rewrite H. cbn [N ex_entry Marginals.prior Marginals._prior].
  rewrite ex_clamp_round2. reflexivity.
Defined.

Lemma ex_grow_retains (c : list Simulator.SimulationStatus) (p : nat) (N : R) :
  ex_simulated c ⊆ ex_simulated (ex_cache_grow c p N).
Proof.
  unfold ex_simulated, ex_cache_grow.
  rewrite imap_app, filter_app, fmap_app.
  intros x Hx. apply elem_of_app. by left.
Qed.

(** The first round without a model: the store has grown by one pending
    record, nothing else has changed. *)
Lemma missing_model_halt_witness :
  ∃ self',
    ex_loop 1 (ex_nr None) 3000 2 (1 / 10) 100000 false 1 =
      (self', MissingModelReturn) ∧
    converged self' = false ∧ _history self' = [] ∧
    _cache self' = [Simulator.PENDING].
Proof.
  destruct (missing_model_halt ex_volume ex_get_masked ex_cache_params
              ex_cache_grow ex_cache_requires_sim ex_cache_simulate ex_train
              ex_simulated (ex_nr None) 3000 2 (1 / 10) 100000 false 1 0
              O 3000)
    as (self' & Hloop & _ & Hc & Hh & Hcache & _);
    [apply ex_grow_retains | reflexivity | reflexivity | reflexivity
    | reflexivity |].
  exists self'. split; [exact Hloop|]. split; [exact Hc|].
  split; [exact Hh | exact Hcache].
Defined.

(** After the three rounds of the scenario the history is compacted. *)
Lemma history_compaction_witness :
  compacted (_history (ex_run (ex_nr (Some tt)) 10 false).1).
Proof.
  destruct (history_compaction ex_volume ex_get_masked ex_cache_params
              ex_cache_grow ex_cache_requires_sim ex_cache_simulate ex_train
              (ex_nr (Some tt)) 3000 2 (1 / 10) 10 100000) as [H _].
  - intros i e Hi. inversion Hi.
  - exact H.
Defined.

(** C5, as the specification states it, fails after the three rounds of the
    scenario: the second most recent history entry has lost its marginals
    and its constrained prior. *)
Lemma history_drops_second_most_recent :
  length (_history (ex_run (ex_nr (Some tt)) 10 false).1) = 3%nat ∧
  ∃ e, _history (ex_run (ex_nr (Some tt)) 10 false).1 !! 1%nat = Some e ∧
       marginals e = None ∧ constr_prior e = None.
Proof.
  rewrite ex_run_three_rounds. split; [reflexivity|].
  exists (ex_entry 1 3000 false). repeat split.
Qed.

(** Four rounds at once are two rounds followed by two more. *)
Lemma run_resume_witness :
  ex_run (ex_nr (Some tt)) (2 + 2) false =
    match ex_run (ex_nr (Some tt)) 2 false with
    | (self1, LoopExit) => ex_run self1 2 false
    | r => r
    end.
Proof.
  apply (run_resume ex_volume ex_get_masked ex_cache_params ex_cache_grow
           ex_cache_requires_sim ex_cache_simulate ex_train
           (ex_nr (Some tt)) 3000 2 (1 / 10) 2 2 100000 false);
    [lra | lra | lia | lia | reflexivity | reflexivity].
Defined.

Lemma run_schedule_invariant_witness :
  schedule_ok 100000 (N <$> _history (ex_run (ex_nr (Some tt)) 10 false).1).
Proof.
  apply (run_schedule_invariant ex_volume ex_get_masked ex_cache_params
           ex_cache_grow ex_cache_requires_sim ex_cache_simulate ex_train
           (ex_nr (Some tt)) 3000 2 (1 / 10) 10 100000 false); [lra|].
  split; [intros n Hn; inversion Hn | intros i a b Ha; inversion Ha].
Defined.

(** The first round with a training step that fails. *)
Lemma training_failure_not_recorded_witness :
  ∃ self',
    run_loop ex_volume ex_get_masked ex_cache_grow ex_cache_requires_sim
        ex_cache_simulate ex_train_failing 1 (ex_nr (Some tt))
        3000 2 (1 / 10) 100000 false 1 =
      (self', Uncaught (RuntimeError "training diverged")) ∧
    _history self' = [] ∧ converged self' = false ∧
    _cache self' = [Simulator.FINISHED].
Proof.
  destruct (training_failure_not_recorded ex_volume ex_get_masked
              ex_cache_grow ex_cache_requires_sim ex_cache_simulate
              ex_train_failing (ex_nr (Some tt)) 3000 2 (1 / 10) 100000 false
              1 0 O 3000 tt (RuntimeError "training diverged"))
    as (self' & Hloop & Hh & Hc & Hcache);
    [reflexivity | reflexivity | reflexivity | reflexivity |].
  exists self'. split; [exact Hloop|]. split; [exact Hh|].
  split; [exact Hc | exact Hcache].
Defined.

Lemma run_frame_witness :
  _base_prior (ex_run (ex_nr (Some tt)) 10 false).1 = O ∧
  (length (_history (ex_run (ex_nr (Some tt)) 10 false).1) ≤ 10)%nat.
Proof.
  destruct (run_frame ex_volume ex_get_masked ex_cache_params ex_cache_grow
              ex_cache_requires_sim ex_cache_simulate ex_train
              (ex_nr (Some tt)) 3000 2 (1 / 10) 10 100000 false)
    as (_ & _ & Hb & Hlen & _).
  split; [exact Hb | exact (proj2 Hlen)].
Defined.

Lemma gen_custom_marginals_after_run_witness :
  ∃ prior,
    match last (_history (ex_run (ex_nr (Some tt)) 10 false).1) with
    | None => prior = O
    | Some e => constr_prior e = Some prior
    end ∧
    gen_custom_marginals ex_cache_params ex_cache_grow ex_cache_requires_sim
        ex_cache_simulate ex_format_param_list (λ _, ex_train)
        (ex_run (ex_nr (Some tt)) 10 false).1 ["a"%string] 1000 =
      _amortize ex_cache_grow ex_cache_requires_sim ex_cache_simulate ex_train
        (ex_run (ex_nr (Some tt)) 10 false).1 prior 1000.
Proof.
  destruct (gen_custom_marginals_after_run ex_volume ex_get_masked
              ex_cache_params ex_cache_grow ex_cache_requires_sim
              ex_cache_simulate ex_train ex_format_param_list (λ _, ex_train)
              (ex_nr (Some tt)) 3000 2 (1 / 10) 10 100000 ["a"%string] 1000)
    as (prior & Hp & Hg & _).
  - intros i e Hi. inversion Hi.
  - exists prior. split; [exact Hp | exact Hg].
Defined.

(** Two rounds of the scenario do not converge. *)
Lemma ex_run_two_rounds kh :
  ex_run (ex_nr (Some tt)) 2 kh =
    (ex_after 2 false [ex_entry 0 3000 kh; ex_entry 1 3000 true], LoopExit).
Proof.
  unfold ex_run, NestedRatios.run.
  rewrite !bool_decide_eq_true_2 by lra. simpl negb. cbv iota.
  change (Z.to_nat 2) with 2%nat.
  change (length (ex_cache_params (_cache (ex_nr (Some tt))))) with 1%nat.
  cbn [run_loop]. change (converged (ex_nr (Some tt))) with false. cbv iota.
  rewrite ex_round1. cbv iota beta.
  change (converged (ex_after 1 false _)) with false. cbv iota.
  rewrite ex_round2. reflexivity.
Qed.

Lemma run_exhausts_rounds_witness :
  length (_history (ex_run (ex_nr (Some tt)) 2 false).1) = 2%nat.
Proof.
  apply (run_exhausts_rounds ex_volume ex_get_masked ex_cache_params
           ex_cache_grow ex_cache_requires_sim ex_cache_simulate ex_train
           (ex_nr (Some tt)) 3000 2 (1 / 10) 2 100000 false);
    fold (ex_run (ex_nr (Some tt)) 2 false);
    rewrite ex_run_two_rounds; reflexivity.
Defined.

End SchedulerExample.

(* ===================================================================== *)
(** * Theorems: the Points dataset *)
(* ===================================================================== *)

Section PointsFacts.
Import Points.

Context {Cache Intensity NoiseHook X Zt : Type}.
Variable cache_requires_sim : Cache -> bool.
Variable cache_sample : Cache -> Intensity -> result (list nat).
Variable cache_x : Cache -> nat -> result X.
Variable cache_z : Cache -> nat -> result Zt.
Variable call_noise : NoiseHook -> X -> Zt -> result X.

#[local] Abbreviation object := (gmap string (@value Cache Intensity NoiseHook)).
#[local] Abbreviation init := (@Points.__init__ Cache Intensity NoiseHook cache_requires_sim).
#[local] Abbreviation indices_ := (@indices Cache Intensity NoiseHook cache_sample).
#[local] Abbreviation getitem :=
  (@Points.__getitem__ Cache Intensity NoiseHook X Zt cache_sample cache_x cache_z call_noise).
#[local] Abbreviation reachable_ :=
  (@reachable Cache Intensity NoiseHook X Zt cache_requires_sim cache_sample
              cache_x cache_z call_noise).

Lemma init_no_noisemodel cache intensity noisehook (self : object) :
  init cache intensity noisehook = Ok self → self !! "noisemodel" = None.
Proof.
  unfold Points.__init__. destruct (cache_requires_sim cache); [discriminate|].
  intros [= <-]. by rewrite !lookup_insert_ne.
Qed.

Lemma indices_no_noisemodel (self : object) :
  self !! "noisemodel" = None → (indices_ self).1 !! "noisemodel" = None.
Proof.
  intros H. unfold indices.
  destruct (self !! "indices") as [[]|]; simpl; try done.
  destruct (getattr self "_indices") as [[]|]; simpl; try done.
  - match goal with
    | |- context [match ?r with Ok _ => _ | Raise _ => _ end] => destruct r
    end; simpl; [|done].
    by rewrite !lookup_insert_ne.
  - by rewrite lookup_insert_ne.
Qed.

Lemma getitem_state (self : object) idx :
  (getitem self idx).1 = (indices_ self).1.
Proof. unfold Points.__getitem__. by destruct (indices_ self). Qed.

Lemma reachable_no_noisemodel (self : object) :
  reachable_ self → self !! "noisemodel" = None.
Proof.
  induction 1 as [cache intensity noisehook self Hinit | self idx _ IH].
  - by eapply init_no_noisemodel.
  - rewrite getitem_state. by apply indices_no_noisemodel.
Qed.

(** C9 (as amended): indexing a Points instance never returns an item;
    whenever the index lookup and the two reads from the cache succeed, the
    exception is the AttributeError for self.noisemodel. *)
Theorem getitem_never_returns (self : object) (idx : Z) :
  reachable_ self →
  (∃ e, (getitem self idx).2 = Raise e) ∧
  (∀ l i c x z,
     (indices_ self).2 = Ok l → py_index l idx = Ok i →
     (indices_ self).1 !! "cache" = Some (VCache c) →
     cache_x c i = Ok x → cache_z c i = Ok z →
     (getitem self idx).2 = Raise (AttributeError "noisemodel")).
Proof.
  intros Hreach.
  pose proof (indices_no_noisemodel self (reachable_no_noisemodel self Hreach)) as Hnm.
  unfold Points.__getitem__.
  destruct (indices_ self) as [self1 r]. cbn [fst snd] in *.
  assert (Hattr : getattr self1 "noisemodel" = Raise (AttributeError "noisemodel")).
  { unfold getattr. by rewrite Hnm. }
  split.
  - destruct r as [l|e]; simpl; [|eauto].
    destruct (py_index l idx) as [i|e]; simpl; [|eauto].
    destruct (getattr self1 "cache") as [[| c | | |]|e]; simpl; eauto.
    destruct (cache_x c i) as [x|e]; simpl; [|eauto].
    destruct (cache_z c i) as [z|e]; simpl; [|eauto].
    rewrite Hattr. simpl. eauto.
  - intros l i c x z -> Hi Hc Hx Hz.
    assert (Hgc : getattr self1 "cache" = Ok (VCache c)).
    { unfold getattr. by rewrite Hc. }
    by rewrite bind_Ok, Hi, bind_Ok, Hgc, !bind_Ok, Hx, bind_Ok, Hz, bind_Ok, Hattr.
Qed.

End PointsFacts.

Section PointsExample.
Import Points PointsSpec.

(** A one-record dataset: item 0 raises the AttributeError. *)
Lemma getitem_never_returns_witness :
  ∃ self, ex_init [(1 # 1, 2 # 1)%Q] tt None = Ok self ∧
    (ex_getitem self 0).2 = Raise (AttributeError "noisemodel").
Proof.
  eexists. split; [reflexivity|].
  refine (proj2 (getitem_never_returns ex_requires_sim ex_sample ex_x ex_z
                   ex_noise _ 0 _) [0%nat] 0%nat [(1 # 1, 2 # 1)%Q]
                (1 # 1)%Q (2 # 1)%Q _ _ _ _ _); try reflexivity.
  eapply (reach_init _ _ _ _ _ [(1 # 1, 2 # 1)%Q] tt None). reflexivity.
Defined.

(** C9, as stated, fails for an index that is out of range: the lookup in
    self.indices raises IndexError before self.noisemodel is read. *)
Lemma getitem_out_of_range_raises_IndexError :
  ∃ self, ex_init [(1 # 1, 2 # 1)%Q] tt None = Ok self ∧
    (ex_getitem self 5).2 = Raise IndexError ∧
    (ex_getitem self 5).2 ≠ Raise (AttributeError "noisemodel").
Proof.
  eexists. split; [reflexivity|].
  assert (H : ∀ self, ex_init [(1 # 1, 2 # 1)%Q] tt None = Ok self →
            (ex_getitem self 5).2 = Raise IndexError).
  { intros self [= <-]. vm_compute. reflexivity. }
  split; [by apply H | rewrite (H _ eq_refl); discriminate].
Qed.

End PointsExample.

(* ===================================================================== *)
(** * Theorems: the rejection sampler and its caller's set *)
(* ===================================================================== *)

Section PosteriorFacts.
Import PosteriorCollection.

Variable weight_keys : gset ptuple.
Variable kept : nat -> ptuple -> draws.

#[local] Abbreviation loop_ := (loop weight_keys kept).
#[local] Abbreviation rejection_sample_ := (rejection_sample weight_keys kept).

Lemma fresh_not_in_heap (h : heap) l o :
  h !! l = Some o → l ≠ fresh (dom h).
Proof.
  intros Hl ->. apply (is_fresh (dom h)). by apply elem_of_dom_2 in Hl.
Qed.

Lemma collect_fold_spec (N it : nat) (st : loop_state) (s : gset ptuple) :
  s ⊆ dom (collector st) →
  ∃ st', set_fold (λ pt acc, st ← acc; collect kept N it pt st) (Ok st) s = Ok st' ∧
    dom (collector st') = dom (collector st) ∧
    dom (out st) ⊆ dom (out st') ∧
    dom (out st') ⊆ dom (out st) ∪ s.
Proof.
  revert s.
  apply (set_fold_ind_L
    (λ (acc : result loop_state) (X : gset ptuple),
       X ⊆ dom (collector st) →
       ∃ st', acc = Ok st' ∧
         dom (collector st') = dom (collector st) ∧
         dom (out st) ⊆ dom (out st') ∧
         dom (out st') ⊆ dom (out st) ∪ X)).
  - intros _. exists st. split; [done|]. set_solver.
  - intros x X r Hx IH Hsub.
    destruct IH as (st1 & -> & Hc & Ho1 & Ho2); [set_solver|].
    rewrite bind_Ok. unfold collect.
    assert (Hin : x ∈ dom (collector st1)) by (rewrite Hc; set_solver).
    destruct (collector st1 !! x) as [c|] eqn:Hcx;
      [|by apply not_elem_of_dom in Hcx].
    eexists. split; [reflexivity|]. simpl.
    split; [rewrite dom_insert_L, <- Hc; set_solver|].
    case_decide; [rewrite dom_insert_L|]; set_solver.
Qed.

Lemma loop_spec (l : positive) (s0 : gset ptuple) (N : nat) :
  ∀ (fuel counter : nat) (h : heap) (st : loop_state) (s : gset ptuple),
  h !! l = Some (PySet s) →
  s ⊆ dom (collector st) → s ⊆ weight_keys →
  s = s0 ∖ dom (out st) → dom (out st) ⊆ s0 →
  ∃ out',
    (loop_ fuel counter l N h st).2 = Ok out' ∧
    (loop_ fuel counter l N h st).1 !! l = Some (PySet (s0 ∖ dom out')) ∧
    dom out' ⊆ s0 ∧
    ∀ l' o, l' ≠ l → h !! l' = Some o →
            (loop_ fuel counter l N h st).1 !! l' = Some o.
Proof.
  induction fuel as [|fuel IH]; intros counter h st s Hl Hcol Hw Hs Hout.
  - exists (out st). simpl. by rewrite Hl, Hs.
  - cbn [loop]. rewrite Hl. rewrite decide_True by done.
    destruct (collect_fold_spec N counter st s Hcol) as (st' & -> & Hc & Ho1 & Ho2).
    assert (Hrem : s ∖ dom (out st') = s0 ∖ dom (out st')) by set_solver.
    assert (Hout' : dom (out st') ⊆ s0) by set_solver.
    case_decide as Hsize.
    + set (h' := <[l := PySet (s ∖ dom (out st'))]> h).
      assert (Hfr : l ≠ fresh (dom h')).
      { eapply fresh_not_in_heap. unfold h'. apply lookup_insert_eq. }
      destruct (IH (S counter) (alloc h' (PyWeights weight_keys)).2 st'
                   (s ∖ dom (out st')))
        as (out' & Hr & Hfin & Hdom & Hframe).
      * simpl. rewrite lookup_insert_ne by done. apply lookup_insert_eq.
      * rewrite Hc. set_solver.
      * set_solver.
      * done.
      * done.
      * exists out'. split; [done|]. split; [done|]. split; [done|].
        intros l' o Hne Hl'. apply Hframe; [done|]. simpl.
        assert (Hl'' : h' !! l' = Some o)
          by (unfold h'; by rewrite lookup_insert_ne).
        rewrite lookup_insert_ne; [done|].
        intros Heq. by apply (fresh_not_in_heap _ _ _ Hl'').
    + exists (out st'). simpl. split; [done|].
      split; [by rewrite lookup_insert_eq, Hrem|]. split; [done|].
      intros l' o Hne Hl'. by rewrite lookup_insert_ne.
Qed.

(** C10 (as amended): the removals act on the caller's own set: after a call
    that was given the set at [l], that set holds exactly the passed tuples
    that were not returned in [out] (it is empty on full success), and no
    other object of the caller has changed; a call given None works on a
    set of its own, and leaves every object of the caller, and the key set
    of the weights it sampled first, as they were. *)
Theorem rejection_sample_aliasing (h : heap) (N maxiter : nat) (l : positive)
    (s0 : gset ptuple) :
  h !! l = Some (PySet s0) → s0 ⊆ weight_keys →
  (∃ out',
     (rejection_sample_ h N maxiter (Some l)).2 = Ok out' ∧
     (rejection_sample_ h N maxiter (Some l)).1 !! l = Some (PySet (s0 ∖ dom out')) ∧
     dom out' ⊆ s0 ∧
     (s0 ⊆ dom out' →
        (rejection_sample_ h N maxiter (Some l)).1 !! l = Some (PySet ∅)) ∧
     (∀ l' o, l' ≠ l → h !! l' = Some o →
        (rejection_sample_ h N maxiter (Some l)).1 !! l' = Some o)) ∧
  (∃ out',
     (rejection_sample_ h N maxiter None).2 = Ok out' ∧
     (∀ l' o, h !! l' = Some o →
        (rejection_sample_ h N maxiter None).1 !! l' = Some o) ∧
     (rejection_sample_ h N maxiter None).1 !! fresh (dom h) =
       Some (PyWeights weight_keys)).
Proof.
  intros Hl Hw. split.
  - unfold rejection_sample. cbn [alloc].
    set (h1 := <[fresh (dom h) := PyWeights weight_keys]> h).
    assert (Hl1 : h1 !! l = Some (PySet s0)).
    { unfold h1. rewrite lookup_insert_ne; [done|].
      intros Heq. by apply (fresh_not_in_heap _ _ _ Hl). }
    rewrite Hl1.
    destruct (loop_spec l s0 N maxiter 0 h1
                {| collector := gset_to_gmap [] s0; out := ∅ |} s0)
      as (out' & Hr & Hfin & Hdom & Hframe); simpl;
      [done | by rewrite dom_gset_to_gmap | done | set_solver | set_solver |].
    exists out'. split; [done|]. split; [done|]. split; [done|]. split.
    + intros Hfull. rewrite Hfin. do 2 f_equal. set_solver.
    + intros l' o Hne Hl'. apply Hframe; [done|].
      unfold h1. rewrite lookup_insert_ne; [done|].
      intros Heq. by apply (fresh_not_in_heap _ _ _ Hl').
  - unfold rejection_sample. cbn [alloc].
    set (w := fresh (dom h)).
    set (h1 := <[w := PyWeights weight_keys]> h).
    set (l2 := fresh (dom h1)).
    set (h2 := <[l2 := PySet weight_keys]> h1).
    assert (Hw1 : h1 !! w = Some (PyWeights weight_keys))
      by apply lookup_insert_eq.
    assert (Hwl : w ≠ l2) by (eapply fresh_not_in_heap; exact Hw1).
    assert (Hl2 : h2 !! l2 = Some (PySet weight_keys)) by apply lookup_insert_eq.
    rewrite Hl2.
    destruct (loop_spec l2 weight_keys N maxiter 0 h2
                {| collector := gset_to_gmap [] weight_keys; out := ∅ |}
                weight_keys)
      as (out' & Hr & Hfin & Hdom & Hframe); simpl;
      [done | by rewrite dom_gset_to_gmap | done | set_solver | set_solver |].
    exists out'. split; [done|]. split.
    + intros l' o Hl'.
      assert (Hne : l' ≠ w) by (eapply fresh_not_in_heap; exact Hl').
      assert (Hl1 : h1 !! l' = Some o) by (unfold h1; by rewrite lookup_insert_ne).
      assert (Hne2 : l' ≠ l2) by (eapply fresh_not_in_heap; exact Hl1).
      apply Hframe; [done|]. unfold h2. by rewrite lookup_insert_ne.
    + apply Hframe; [done|]. unfold h2. by rewrite lookup_insert_ne.
Qed.

End PosteriorFacts.

Section PosteriorExample.
Import PosteriorCollection PosteriorSpec.

(** Two draws per tuple are asked for and every iteration keeps one: the
    second iteration completes the tuple and empties the caller's set. *)
Lemma rejection_sample_aliasing_witness :
  (rejection_sample ex_keys ex_kept ex_heap 2 5 (Some 1%positive)).1 !! 1%positive
    = Some (PySet ∅).
Proof.
  destruct (rejection_sample_aliasing ex_keys ex_kept ex_heap 2 5 1%positive
              {[ [0%nat] ]}) as [(out' & Hr & _ & _ & Hfull & _) _];
    [reflexivity | reflexivity |].
  apply Hfull.
  assert (Hout : (rejection_sample ex_keys ex_kept ex_heap 2 5 (Some 1%positive)).2
                 = Ok {[ [0%nat] := [[(1 # 2)%Q]; [(1 # 2)%Q]] ]})
    by (vm_compute; reflexivity).
  rewrite Hout in Hr. injection Hr as <-.
  rewrite dom_singleton_L. reflexivity.
Defined.

(** C10, as stated, fails when no tuple collects its N draws before maxiter
    is reached: the call returns an empty [out] and the caller's set is what
    it was. *)
Lemma rejection_sample_leaves_set_unchanged :
  (rejection_sample ex_keys ex_kept ex_heap 2 1 (Some 1%positive)).2 = Ok ∅ ∧
  (rejection_sample ex_keys ex_kept ex_heap 2 1 (Some 1%positive)).1 !! 1%positive
    = ex_heap !! 1%positive.
Proof. split; vm_compute; reflexivity. Qed.

End PosteriorExample.

(* ===================================================================== *)
(** * Further properties: the simulator adapter *)
(* ===================================================================== *)

Section SimulatorMore.
Import Simulator SimulatorSpec.

Lemma has_failed_truthy out fnf s :
  _has_failed out fnf = Ok s → truthy s = true ∧ np_bool s = true.
Proof.
  destruct out as [items|repr]; [|discriminate].
  destruct (has_failed_dict_truthy items fnf) as (s' & Hs & Ht & Hn).
  rewrite Hs. by intros [= <-].
Qed.

Lemma chunk_loop_status model fnf : ∀ l i x hf x' hf',
  chunk_loop model fnf i l (x, hf) = Ok (x', hf') →
  hf = replicate i true ++ replicate (length l) false →
  hf' = replicate (i + length l) true.
Proof.
  induction l as [|p l IH]; intros i x hf x' hf' Hloop Hhf.
  - injection Hloop as <- <-. simpl in *.
    by rewrite Hhf, app_nil_r, Nat.add_0_r.
  - cbn [chunk_loop] in Hloop.
    apply bind_Ok_inv in Hloop as (out & Hm & Hloop).
    apply bind_Ok_inv in Hloop as (s & Hs & Hloop).
    apply has_failed_truthy in Hs as [Ht Hn]. rewrite Ht, Hn in Hloop.
    apply bind_Ok_inv in Hloop as ([x1 hf1] & Hst & Hloop).
    apply bind_Ok_inv in Hst as (items & _ & Hst).
    apply bind_Ok_inv in Hst as (x2 & _ & [= <- <-]).
    cbn [snd] in Hloop. apply IH in Hloop.
    + rewrite Hloop. f_equal. simpl. lia.
    + rewrite Hhf. simpl length.
      rewrite insert_app_r_alt by (rewrite length_replicate; lia).
      rewrite length_replicate, Nat.sub_diag. simpl.
      by rewrite app_comm_cons, replicate_cons_app, <- app_assoc.
Qed.

(** X1: whenever [_run_model_chunk] returns, every entry of its status
    array is True, whether the point was classified FINISHED or FAILED. *)
Theorem run_model_chunk_status_uninformative z model sim_shapes fnf x hf :
  _run_model_chunk z model sim_shapes fnf = Ok (x, hf) →
  hf = replicate (length z) true.
Proof.
  unfold _run_model_chunk. intros H.
  apply (chunk_loop_status _ _ _ _ _ _ _ _ H). done.
Qed.

Lemma run_model_chunk_status_uninformative_witness :
  ∃ x, _run_model_chunk [[1%Q]; [(-1 # 2)%Q]; [2%Q]] ex_model ex_shapes true
         = Ok (x, replicate 3 true).
Proof.
  destruct run_model_chunk_status_all_true as [x Hx]. exists x.
  rewrite (run_model_chunk_status_uninformative _ _ _ _ _ _ Hx) in Hx.
  exact Hx.
Defined.

Lemma store_items_app i : ∀ its1 its2 x,
  store_items x i (its1 ++ its2) =
  store_items x i its1 ≫= λ x', store_items x' i its2.
Proof.
  induction its1 as [|[obs val] its1 IH]; intros its2 x; simpl; [done|].
  destruct (setitem x obs i val); simpl; [apply IH | done].
Qed.

(** All points storable: the chunk is run to the end. *)
Lemma run_model_chunk_storable z model sim_shapes fnf pre post :
  z = pre ++ post →
  (∀ p, p ∈ pre → ∃ out, model p = Ok out ∧ storable sim_shapes out) →
  ∃ st,
    chunk_loop model fnf 0 pre
      (np_full (length z) <$> sim_shapes, replicate (length z) false) = Ok st ∧
    chunk_inv z model sim_shapes (length pre) st ∧
    _run_model_chunk z model sim_shapes fnf =
      chunk_loop model fnf (length pre) post st.
Proof.
  intros Hz Hgood.
  destruct (chunk_loop_good z model sim_shapes fnf pre [] post
              (np_full (length z) <$> sim_shapes, replicate (length z) false))
    as (st & Hloop & Hinv); [done | done | apply chunk_inv_init |].
  simpl in Hloop. exists st. split; [done|]. split; [done|].
  assert (Hrun : _run_model_chunk z model sim_shapes fnf =
            chunk_loop model fnf 0 (pre ++ post)
              (np_full (length z) <$> sim_shapes, replicate (length z) false)).
  { unfold _run_model_chunk. by rewrite <- Hz. }
  by rewrite Hrun, chunk_loop_app, Hloop, bind_Ok.
Qed.

(** X2: after a prefix of storable points, a result that names an
    observable missing from sim_shapes makes the whole call raise KeyError
    for that name. *)
Theorem run_model_chunk_undeclared_observable z model sim_shapes fnf
    pre p post items obs val rest :
  z = pre ++ p :: post →
  (∀ q, q ∈ pre → ∃ out, model q = Ok out ∧ storable sim_shapes out) →
  model p = Ok (PyDict (items ++ (obs, val) :: rest)) →
  storable sim_shapes (PyDict items) →
  sim_shapes !! obs = None →
  _run_model_chunk z model sim_shapes fnf = Raise (KeyError obs).
Proof.
  intros Hz Hgood Hp (items' & [= <-] & Hnd & Hok) Hobs.
  destruct (run_model_chunk_storable z model sim_shapes fnf pre (p :: post) Hz Hgood)
    as ([x hf] & _ & (Hlen & Hsh & _) & ->).
  cbn [chunk_loop]. rewrite Hp, bind_Ok.
  destruct (has_failed_dict_truthy (items ++ (obs, val) :: rest) fnf)
    as (s & Hs & Ht & _).
  rewrite Hs, bind_Ok, Ht. cbn [items_of]. rewrite bind_Ok. cbn [fst snd] in *.
  rewrite store_items_app.
  assert (Hi : (length pre < length z)%nat).
  { rewrite Hz, length_app. simpl. lia. }
  destruct (store_items_spec sim_shapes (length z) (length pre) items x Hnd Hok Hsh Hi)
    as (x' & -> & [Hdom _] & _).
  rewrite bind_Ok. cbn [store_items]. unfold setitem.
  assert (Hx' : x' !! obs = None).
  { apply not_elem_of_dom. rewrite Hdom. by apply not_elem_of_dom. }
  by rewrite Hx'.
Qed.

Lemma run_model_chunk_undeclared_observable_witness :
  _run_model_chunk [[1%Q]; [2%Q]]
    (λ p, match p with
          | [q] => if Qle_bool 2 q then Ok (PyDict [("y", Some [Finite q])])
                   else ex_model p
          | _ => ex_model p
          end)
    ex_shapes true = Raise (KeyError "y").
Proof.
  eapply (run_model_chunk_undeclared_observable _ _ _ _ [[1%Q]] [2%Q] []
            [] "y" (Some [Finite 2]) []); try reflexivity.
  - intros q Hq. apply list_elem_of_singleton in Hq as ->.
    eexists. split; [reflexivity|].
    exists [("x", Some [Finite 1])]. split; [reflexivity|].
    split; [apply NoDup_singleton|].
    intros obs val Hin. apply list_elem_of_singleton in Hin as [= -> ->].
    exists 1%nat. split; reflexivity.
  - exists []. split; [reflexivity|]. split; [constructor|].
    intros obs val Hin. inversion Hin.
Defined.

Section ChunkLoopNaN.
Variables (z0 : list point) (model : point -> result pyobj)
          (sim_shapes : gmap string nat) (fnf : bool).

Lemma chunk_loop_nan : ∀ l pre post st st',
  z0 = pre ++ l ++ post →
  (∀ p, p ∈ l → ∃ out, model p = Ok out ∧ storable sim_shapes out) →
  shaped sim_shapes (length z0) st.1 →
  (∀ j p out, (j < length pre)%nat → z0 !! j = Some p → model p = Ok out →
     omitted_is_nan sim_shapes st.1 j out) →
  rows_pending sim_shapes st.1 (length pre) →
  chunk_loop model fnf (length pre) l st = Ok st' →
  (∀ j p out, (j < length pre + length l)%nat → z0 !! j = Some p →
     model p = Ok out → omitted_is_nan sim_shapes st'.1 j out).
Proof.
  induction l as [|p l IH]; intros pre post [x hf] st' Hz Hgood Hsh Hdone Hpend Hloop.
  - injection Hloop as <-. intros j q out Hj. apply Hdone. simpl in Hj. lia.
  - destruct (Hgood p) as (out & Hm & items & -> & Hnd & Hitems); [constructor|].
    cbn [fst snd] in *.
    assert (Hi : (length pre < length z0)%nat).
    { rewrite Hz, !length_app. simpl. lia. }
    assert (Hzi : z0 !! length pre = Some p).
    { rewrite Hz. simpl. by apply list_lookup_middle. }
    destruct (store_items_spec _ _ _ _ x Hnd Hitems Hsh Hi)
      as (x' & Hst & Hsh' & Hframe & _).
    destruct (has_failed_dict_truthy items fnf) as (s & Hs & Htr & Hnb).
    cbn [chunk_loop] in Hloop.
    rewrite Hm, bind_Ok, Hs, bind_Ok, Htr in Hloop. cbn [items_of] in Hloop.
    rewrite bind_Ok in Hloop. cbn [fst snd] in Hloop.
    rewrite Hst, !bind_Ok in Hloop.
    replace (length pre + length (p :: l))%nat
      with (length (pre ++ [p]) + length l)%nat
      by (rewrite length_app; simpl; lia).
    replace (S (length pre)) with (length (pre ++ [p])) in Hloop
      by (rewrite length_app; simpl; lia).
    eapply (IH (pre ++ [p]) post _ st'); [| | | | |exact Hloop].
    + rewrite Hz. by rewrite <- app_assoc.
    + intros q Hq. apply Hgood. by constructor.
    + done.
    + cbn [fst]. intros j q out Hj Hzj Hq.
      rewrite length_app in Hj. simpl in Hj.
      intros items' obs shp rows' Hout Hnotin Hshp Hrows'.
      destruct (shaped_lookup _ _ _ _ _ Hsh Hshp) as (rows & Hrows & Hn & _).
      destruct (Hframe obs rows Hrows) as (rows'' & Hx' & Hj' & Hsame).
      assert (rows'' = rows') as -> by congruence.
      destruct (decide (j = length pre)) as [->|Hne].
      * assert (q = p) as -> by congruence.
        assert (items' = items) as -> by congruence.
        rewrite (Hsame Hnotin).
        apply (Hpend obs shp rows (length pre) Hshp Hrows). lia.
      * rewrite Hj' by done.
        eapply (Hdone j q out); [lia|done|done|done|done|done|done].
    + cbn [fst]. intros obs shp rows' j Hshp Hrows' Hj.
      rewrite length_app in Hj. simpl in Hj.
      destruct (shaped_lookup _ _ _ _ _ Hsh Hshp) as (rows & Hrows & Hn & _).
      destruct (shaped_lookup _ _ _ _ _ Hsh' Hshp) as (rows2 & Hrows2 & Hn2 & _).
      assert (rows2 = rows') as -> by congruence.
      destruct (Hframe obs rows Hrows) as (rows'' & Hx' & Hj' & _).
      assert (rows'' = rows') as -> by congruence.
      rewrite Hj' by lia. apply (Hpend obs shp rows j Hshp Hrows). lia.
Qed.

End ChunkLoopNaN.

(** X3: in the arrays a chunk returns, the row of a point is all NaN for
    every observable that the point's result leaves out or gives as None. *)
Theorem run_model_chunk_nan_rows z model sim_shapes fnf :
  (∀ p, p ∈ z → ∃ out, model p = Ok out ∧ storable sim_shapes out) →
  ∃ x hf, _run_model_chunk z model sim_shapes fnf = Ok (x, hf) ∧
    ∀ j p items obs shp rows,
      z !! j = Some p → model p = Ok (PyDict items) →
      sim_shapes !! obs = Some shp → x !! obs = Some rows →
      obs ∉ items.*1 ∨ (obs, None) ∈ items →
      rows !! j = Some (replicate shp NaN).
Proof.
  intros Hgood.
  destruct (run_model_chunk_storable z model sim_shapes fnf z []) as
    ([x hf] & Hloop & (Hlen & Hsh & Hcont) & Hrun);
    [by rewrite app_nil_r | done |].
  exists x, hf. split; [by rewrite Hrun|].
  intros j p items obs shp rows Hj Hp Hshp Hrows [Hnotin | Hnone].
  - pose proof (lookup_lt_Some _ _ _ Hj) as Hlt.
    eapply (chunk_loop_nan z model sim_shapes fnf z [] []
              (np_full (length z) <$> sim_shapes, replicate (length z) false)
              (x, hf)); try done.
    + by rewrite app_nil_r.
    + apply (chunk_inv_init z sim_shapes model).
    + intros j' p' out' Hj'. simpl in Hj'. lia.
    + cbn [fst]. intros obs' shp' rows' j' Hs' Hr' Hj'.
      rewrite lookup_fmap, Hs' in Hr'. injection Hr' as <-.
      unfold np_full in *. rewrite length_replicate in Hj'.
      apply lookup_replicate_2. lia.
  - pose proof (lookup_lt_Some _ _ _ Hj) as Hlt.
    cbn [fst] in Hcont.
    destruct (Hcont j p (PyDict items) Hlt Hj Hp items obs None eq_refl Hnone)
      as (shp' & rows' & row & Hs' & Hr' & Hrow & Hb).
    injection Hb as <-. congruence.
Qed.

Lemma run_model_chunk_nan_rows_witness :
  ∃ x hf rows,
    _run_model_chunk [[1%Q]; [(-1 # 2)%Q]; [2%Q]] ex_model ex_shapes true
      = Ok (x, hf) ∧
    x !! "x" = Some rows ∧ rows !! 1%nat = Some [NaN].
Proof.
  destruct (run_model_chunk_nan_rows [[1%Q]; [(-1 # 2)%Q]; [2%Q]] ex_model
              ex_shapes true ex_model_storable) as (x & hf & Hrun & Hnan).
  assert (Hx : ∃ rows, x !! "x" = Some rows).
  { destruct (x !! "x") as [rows|] eqn:E; [by exists rows|].
    exfalso. revert Hrun. vm_compute. intros [= <- _]. vm_compute in E. discriminate. }
  destruct Hx as [rows Hrows]. exists x, hf, rows.
  split; [exact Hrun|]. split; [exact Hrows|].
  eapply (Hnan 1%nat [(-1 # 2)%Q] [("x", None)] "x" 1%nat rows);
    try reflexivity; [exact Hrows|].
  right. constructor.
Defined.

Lemma shapes_of_spec items : ∀ acc m,
  shapes_of acc items = Ok m → NoDup items.*1 →
  (∀ k val, (k, val) ∈ items → ∃ a, val = Some a ∧ m !! k = Some (length a)) ∧
  (∀ k, k ∉ items.*1 → m !! k = acc !! k).
Proof.
  induction items as [|[k [a|]] items IH]; intros acc m Hs Hnd; simpl in *.
  - injection Hs as <-. split; [intros k val H; inversion H | done].
  - apply NoDup_cons in Hnd as [Hk Hnd].
    destruct (IH _ _ Hs Hnd) as [Hin Hout]. split.
    + intros k' val H. apply elem_of_cons in H as [[= -> ->] | H]; [|eauto].
      exists a. split; [done|]. by rewrite (Hout k Hk), lookup_insert_eq.
    + intros k' Hk'. apply not_elem_of_cons in Hk' as [Hne Hk'].
      by rewrite (Hout k' Hk'), lookup_insert_ne.
  - discriminate.
Qed.

(** X4: a simulator built by [from_model] runs every batch to the end, as
    long as the model's results keep the keys and array lengths of the
    result it was probed with (single values may be None). *)
Theorem from_model_runs z model z0 fnf items0 sim :
  from_model model z0 fnf = Ok sim →
  model z0 = Ok (PyDict items0) → NoDup items0.*1 →
  (∀ p, p ∈ z → ∃ out, model p = Ok out ∧ consistent_with items0 out) →
  ∃ x hf,
    _run_model_chunk z (Simulator.model sim) (Simulator.sim_shapes sim)
                     (Simulator.fail_on_non_finite sim) = Ok (x, hf) ∧
    length hf = length z ∧
    (∀ obs, is_Some (x !! obs) ↔ obs ∈ items0.*1) ∧
    ∀ obs a0 rows, (obs, Some a0) ∈ items0 → x !! obs = Some rows →
      length rows = length z ∧ Forall (λ r, length r = length a0) rows.
Proof.
  unfold from_model. intros Hfm Hz0 Hnd Hcons.
  rewrite Hz0, bind_Ok in Hfm. cbn [items_of] in Hfm. rewrite bind_Ok in Hfm.
  apply bind_Ok_inv in Hfm as (shapes & Hshapes & [= <-]). simpl.
  destruct (shapes_of_spec _ _ _ Hshapes Hnd) as [Hin Hout].
  destruct (run_model_chunk_storable z model shapes fnf z []) as
    ([x hf] & Hloop & (Hlen & [Hdom Hsh] & _) & Hrun); [by rewrite app_nil_r | |].
  { intros p Hp. destruct (Hcons p Hp) as (out & Hm & items & -> & Hnd' & Hit).
    exists (PyDict items). split; [done|].
    exists items. split; [done|]. split; [done|].
    intros obs val Hov. destruct (Hit obs val Hov) as (a0 & Ha0 & Hval).
    destruct (Hin obs (Some a0) Ha0) as (a0' & [= <-] & Hs).
    exists (length a0). split; [done|].
    destruct Hval as [-> | (a & -> & Hla)]; [done|].
    unfold broadcast_to. by rewrite decide_True. }
  cbn [fst snd] in *. exists x, hf. split; [by rewrite Hrun|]. split; [done|]. split.
  - intros obs. rewrite <- elem_of_dom, Hdom, elem_of_dom. split.
    + intros [shp Hs]. destruct (decide (obs ∈ items0.*1)) as [|Hn]; [done|].
      rewrite (Hout obs Hn), lookup_empty in Hs. discriminate.
    + intros Hobs. apply list_elem_of_fmap in Hobs as ([k val] & -> & Hkv).
      destruct (Hin k val Hkv) as (a & _ & Hs). eauto.
  - intros obs a0 rows Ha0 Hrows.
    destruct (Hin obs (Some a0) Ha0) as (a0' & [= <-] & Hs). eauto.
Qed.

Lemma from_model_runs_witness :
  ∃ sim x hf,
    from_model ex_model [1%Q] true = Ok sim ∧
    _run_model_chunk [[1%Q]; [(-1 # 2)%Q]; [2%Q]] (Simulator.model sim)
      (Simulator.sim_shapes sim) (Simulator.fail_on_non_finite sim)
      = Ok (x, hf) ∧ length hf = 3%nat.
Proof.
  eexists.
  destruct (from_model_runs [[1%Q]; [(-1 # 2)%Q]; [2%Q]] ex_model [1%Q] true
              [("x", Some [Finite 1])] _ eq_refl eq_refl (NoDup_singleton _))
    as (x & hf & Hrun & Hlen & _).
  - intros p Hp.
    repeat (apply elem_of_cons in Hp as [-> | Hp]); [| | |inversion Hp];
      (eexists; split; [reflexivity|]; eexists; split; [reflexivity|];
       split; [apply NoDup_singleton|];
       intros obs v Hin; apply list_elem_of_singleton in Hin as [= -> ->];
       exists [Finite 1]; split; [constructor|]; eauto).
  - exists x, hf. split; [reflexivity|]. split; [exact Hrun | exact Hlen].
Defined.

End SimulatorMore.

(* ===================================================================== *)
(** * Further properties: the prior *)
(* ===================================================================== *)

Section PriorMore.
Import Prior PriorSpec.
#[local] Open Scope Q_scope.



Lemma dict_mapM_first_error {V W} (f : string -> V -> result W) pre k v post e :
  (∀ k' v', (k', v') ∈ pre → ∃ w, f k' v' = Ok w) →
  f k v = Raise e →
  dict_mapM f (pre ++ (k, v) :: post) = Raise e.
Proof.
  intros Hpre Hf. induction pre as [|[k' v'] pre IH]; simpl.
  - by rewrite Hf.
  - destruct (Hpre k' v') as [w Hw]; [constructor|]. rewrite Hw, bind_Ok.
    rewrite IH; [done|]. intros. apply Hpre. by constructor.
Qed.



Lemma dict_get_NoDup {V} (d : list (string * V)) k v :
  NoDup d.*1 → (k, v) ∈ d → dict_get d k = Ok v.
Proof.
  induction d as [|[k' v'] d IH]; intros Hnd Hin; [inversion Hin|].
  simpl in *. apply NoDup_cons in Hnd as [Hk Hnd].
  apply elem_of_cons in Hin as [[= -> ->] | Hin].
  - by rewrite decide_True.
  - rewrite decide_False; [by apply IH|].
    intros ->. apply Hk. apply list_elem_of_fmap. by exists (k, v).
Qed.

Lemma dict_get_missing {V} (d : list (string * V)) k :
  k ∉ d.*1 → dict_get d k = Raise (KeyError k).
Proof.
  induction d as [|[k' v'] d IH]; intros Hk; [done|].
  simpl in *. apply not_elem_of_cons in Hk as [Hne Hk].
  rewrite decide_False by done. by apply IH.
Qed.

Lemma fmap_inverse_on {A B} (f : A -> B) (g : B -> A) (xs : list A) :
  (∀ x, x ∈ xs → g (f x) = x) → g <$> (f <$> xs) = xs.
Proof.
  induction xs as [|x xs IH]; intros H; [done|].
  rewrite !fmap_cons, H by constructor. f_equal. apply IH.
  intros. apply H. by constructor.
Qed.

Section Cube.
Variables (cdf icdf : Prior1d.dist -> Q -> Q).

Lemma cube_roundtrip_aux (self : Prior.t) (X : list (string * list Q)) : ∀ ps,
  (∀ k d, (k, d) ∈ ps →
     dict_get (priors self) k = Ok d ∧
     ∃ xs, dict_get X k = Ok xs ∧
           ∀ x, x ∈ xs → icdf (Prior1d.prior d) (cdf (Prior1d.prior d) x) = x) →
  ∃ U X',
    dict_mapM (λ k (v : Prior1d.t),
                 match dict_get X k with
                 | Ok xs => Ok (cdf (Prior1d.prior v) <$> xs)
                 | Raise e => Raise e
                 end) ps = Ok U ∧
    from_cube icdf self U = Ok X' ∧
    Forall2 (λ (kd : string * Prior1d.t) (kx : string * list Q),
               kx.1 = kd.1 ∧ dict_get X kd.1 = Ok kx.2) ps X'.
Proof.
  induction ps as [|[k d] ps IH]; intros H.
  - exists [], []. repeat split. constructor.
  - destruct (H k d) as (Hd & xs & Hxs & Hinv); [constructor|].
    destruct IH as (U & X' & HU & HX' & HF);
      [intros; apply H; by constructor|].
    exists ((k, cdf (Prior1d.prior d) <$> xs) :: U), ((k, xs) :: X').
    split; [simpl; by rewrite Hxs, bind_Ok, HU, bind_Ok|]. split.
    + unfold from_cube in *. simpl. rewrite Hd, bind_Ok, HX', bind_Ok.
      by rewrite fmap_inverse_on.
    + by constructor.
Qed.

(** X6: mapping a sample into the unit cube and back returns the entries
    of the prior's parameters, provided icdf undoes cdf on the sampled
    values; entries of other names are dropped. *)
Theorem cube_roundtrip (self : Prior.t) (X : list (string * list Q)) :
  NoDup (priors self).*1 →
  (∀ k d, (k, d) ∈ priors self →
     ∃ xs, dict_get X k = Ok xs ∧
           ∀ x, x ∈ xs → icdf (Prior1d.prior d) (cdf (Prior1d.prior d) x) = x) →
  ∃ U X', to_cube cdf self X = Ok U ∧ from_cube icdf self U = Ok X' ∧
          X'.*1 = (priors self).*1 ∧
          ∀ k, k ∈ (priors self).*1 → dict_get X' k = dict_get X k.
Proof.
  intros Hnd H.
  destruct (cube_roundtrip_aux self X (priors self)) as (U & X' & HU & HX' & HF).
  { intros k d Hin. split; [by apply dict_get_NoDup | by apply H]. }
  exists U, X'. split; [done|]. split; [done|].
  assert (Hkeys : X'.*1 = (priors self).*1).
  { clear -HF. induction HF as [|[k d] [k' xs] ps X'' [Hk _] _ IH]; [done|].
    rewrite !fmap_cons. simpl in Hk. subst k'. by f_equal. }
  split; [done|].
  intros k Hk. rewrite <- Hkeys in Hk.
  apply list_elem_of_fmap in Hk as ([k' xs] & -> & Hin). simpl.
  rewrite (dict_get_NoDup X' k' xs) by (by rewrite ?Hkeys).
  apply list_elem_of_lookup in Hin as [i Hi].
  destruct (Forall2_lookup_r _ _ _ _ _ HF Hi) as ([k'' d] & _ & Hk'' & Hx).
  simpl in *. by subst k''.
Qed.


End Cube.

Lemma cube_roundtrip_witness :
  ∃ U, to_cube ex_cdf ex_prior (ex_sample ex_prior 5) = Ok U ∧
       from_cube ex_cdf ex_prior U = Ok (ex_sample ex_prior 5).
Proof.
  destruct (cube_roundtrip ex_cdf ex_cdf ex_prior (ex_sample ex_prior 5))
    as (U & X' & HU & HX' & _).
  - apply NoDup_singleton.
  - intros k d Hin. apply list_elem_of_singleton in Hin as [= -> ->].
    eexists. split; [reflexivity | done].
  - exists U. split; [exact HU|].
    injection HU as <-. reflexivity.
Defined.


Section GetMasked.
Context {Obs : Type}.
Variables (cdf : Prior1d.dist -> Q -> Q)
          (sample : Prior.t -> Z -> list (string * list Q)).

Lemma get_masked_unfold (self : Prior.t) (obs : Obs) (re : @RatioEstimator Obs) N th :
  get_masked cdf sample self obs (Some re) N th =
    (cube ← to_cube cdf self (sample self N);
     masklist ← dict_mapM (mask_of re obs (sample self N) th) cube;
     Prior.__init__ (prior_config self) (Some masklist)).
Proof. reflexivity. Qed.

Lemma mask_of_spec (re : @RatioEstimator Obs) (obs : Obs) pars th k v l :
  dict_get (lnL re obs pars) k = Ok l → l ≠ [] → length v = length l →
  ∃ mx, np_max l = Ok mx ∧ is_max l mx ∧
        mask_of re obs pars th k v = Ok {| ind_points := above_cutoff th mx v l |}.
Proof.
  intros Hl Hne Hlen. destruct (np_max_spec l Hne) as (mx & Hmx & Hismax).
  exists mx. split; [done|]. split; [done|].
  unfold mask_of. rewrite Hl, bind_Ok. unfold point_mask.
  rewrite Hmx, !bind_Ok, (bool_index_spec _ v l Hlen), bind_Ok.
  unfold above_cutoff. do 3 f_equal.
  apply list_filter_iff. intros [x s]. simpl. apply mask_test_strict.
Qed.

Lemma get_masked_spec (self : Prior.t) (obs : Obs) (re : @RatioEstimator Obs) N th cube :
  _setup_priors (prior_config self) = Ok (priors self) →
  to_cube cdf self (sample self N) = Ok cube →
  (∀ k v, (k, v) ∈ cube →
     ∃ l, dict_get (lnL re obs (sample self N)) k = Ok l ∧ l ≠ [] ∧
          length v = length l) →
  ∃ masklist,
    get_masked cdf sample self obs (Some re) N th =
      Ok {| prior_config := prior_config self; mask := Some masklist;
            priors := priors self |} ∧
    Forall2 (masked_by re obs (sample self N) th) cube masklist.
Proof.
  intros Hsetup Hcube Hscores.
  destruct (dict_mapM_total (mask_of re obs (sample self N) th)
              (λ k v m, ∃ l mx, dict_get (lnL re obs (sample self N)) k = Ok l ∧
                                np_max l = Ok mx ∧ is_max l mx ∧
                                length v = length l ∧
                                ind_points m = above_cutoff th mx v l)
              cube) as (masklist & Hml & HF).
  { intros k v Hin. destruct (Hscores k v Hin) as (l & Hl & Hne & Hlen).
    destruct (mask_of_spec re obs _ th k v l Hl Hne Hlen) as (mx & ? & ? & ?).
    eexists. split; [done|]. exists l, mx. done. }
  exists masklist. split; [|done].
  rewrite get_masked_unfold, Hcube, bind_Ok, Hml, bind_Ok.
  unfold Prior.__init__. by rewrite Hsetup, bind_Ok.
Qed.

Lemma above_cutoff_sublist th mx v l :
  length v = length l → sublist (above_cutoff th mx v l) v.
Proof.
  intros Hlen. unfold above_cutoff.
  rewrite <- (fst_zip v l) at 2 by lia.
  apply fmap_sublist, sublist_filter.
Qed.

Lemma filter_sublist_impl {A} (P R : A → Prop)
    `{∀ x, Decision (P x)} `{∀ x, Decision (R x)} (l : list A) :
  (∀ x, P x → R x) → sublist (filter P l) (filter R l).
Proof.
  intros HPR. induction l as [|x l IH]; [constructor|].
  rewrite !filter_cons. destruct (decide (P x)) as [HP|HP].
  - rewrite decide_True by auto. by constructor.
  - destruct (decide (R x)); [by constructor | done].
Qed.

Lemma above_cutoff_mono th1 th2 mx v l :
  th1 <= th2 → sublist (above_cutoff th2 mx v l) (above_cutoff th1 mx v l).
Proof.
  intros Hle. unfold above_cutoff. apply fmap_sublist, filter_sublist_impl.
  intros [x s] H. simpl in *. lra.
Qed.




(** X9: the mask of a parameter is a sub-sequence of the points sampled for
    it, and raising the cutoff can only remove points from it. *)
Theorem get_masked_monotone (self : Prior.t) (obs : Obs)
    (re : @RatioEstimator Obs) N th1 th2 cube :
  _setup_priors (prior_config self) = Ok (priors self) →
  to_cube cdf self (sample self N) = Ok cube →
  (∀ k v, (k, v) ∈ cube →
     ∃ l, dict_get (lnL re obs (sample self N)) k = Ok l ∧ l ≠ [] ∧
          length v = length l) →
  th1 <= th2 →
  ∃ ml1 ml2,
    get_masked cdf sample self obs (Some re) N th1 =
      Ok {| prior_config := prior_config self; mask := Some ml1;
            priors := priors self |} ∧
    get_masked cdf sample self obs (Some re) N th2 =
      Ok {| prior_config := prior_config self; mask := Some ml2;
            priors := priors self |} ∧
    Forall2 (λ (kv : string * list Q) (km : string * BallMask),
               km.1 = kv.1 ∧ sublist (ind_points km.2) kv.2) cube ml1 ∧
    Forall2 (λ (k1 k2 : string * BallMask),
               k2.1 = k1.1 ∧ sublist (ind_points k2.2) (ind_points k1.2)) ml1 ml2.
Proof.
  intros Hsetup Hcube Hscores Hle.
  destruct (get_masked_spec self obs re N th1 cube Hsetup Hcube Hscores)
    as (ml1 & Hget1 & HF1).
  destruct (get_masked_spec self obs re N th2 cube Hsetup Hcube Hscores)
    as (ml2 & Hget2 & HF2).
  exists ml1, ml2. split; [done|]. split; [done|]. split.
  - eapply Forall2_impl; [exact HF1|].
    intros [k v] [k' m] (Hk & l & mx & _ & _ & _ & Hlen & Hpts). simpl in *.
    split; [done|]. rewrite Hpts. by apply above_cutoff_sublist.
  - apply Forall2_same_length_lookup. split.
    + rewrite <- (Forall2_length _ _ _ HF1). by eapply Forall2_length.
    + intros i [k1 m1] [k2 m2] H1 H2.
      destruct (Forall2_lookup_r _ _ _ _ _ HF1 H1)
        as ([k v] & Hc & Hk1 & l & mx & Hl & Hmx & _ & _ & Hp1).
      destruct (Forall2_lookup_r _ _ _ _ _ HF2 H2)
        as ([k' v'] & Hc' & Hk2 & l' & mx' & Hl' & Hmx' & _ & _ & Hp2).
      rewrite Hc in Hc'. injection Hc' as <- <-. simpl in *.
      rewrite Hl in Hl'. injection Hl' as <-.
      rewrite Hmx in Hmx'. injection Hmx' as <-.
      split; [congruence|]. rewrite Hp1, Hp2. by apply above_cutoff_mono.
Qed.

(** X10: after parameters whose scores are in order, a parameter whose score
    array is empty makes [get_masked] raise ValueError, one without scores
    KeyError, and one whose scores and points differ in number IndexError. *)
Theorem get_masked_errors (self : Prior.t) (obs : Obs)
    (re : @RatioEstimator Obs) N th pre k v post :
  to_cube cdf self (sample self N) = Ok (pre ++ (k, v) :: post) →
  (∀ k' v', (k', v') ∈ pre →
     ∃ l, dict_get (lnL re obs (sample self N)) k' = Ok l ∧ l ≠ [] ∧
          length v' = length l) →
  (dict_get (lnL re obs (sample self N)) k = Ok [] →
     get_masked cdf sample self obs (Some re) N th =
       Raise (ValueError "zero-size array to reduction operation maximum")) ∧
  (k ∉ (lnL re obs (sample self N)).*1 →
     get_masked cdf sample self obs (Some re) N th = Raise (KeyError k)) ∧
  (∀ l, dict_get (lnL re obs (sample self N)) k = Ok l → l ≠ [] →
     length v ≠ length l →
     get_masked cdf sample self obs (Some re) N th = Raise IndexError).
Proof.
  intros Hcube Hpre.
  assert (Hfirst : ∀ e, mask_of re obs (sample self N) th k v = Raise e →
            get_masked cdf sample self obs (Some re) N th = Raise e).
  { intros e He. rewrite get_masked_unfold, Hcube, bind_Ok.
    erewrite dict_mapM_first_error; [done| |exact He].
    intros k' v' Hin. destruct (Hpre k' v' Hin) as (l & Hl & Hne & Hlen).
    destruct (mask_of_spec re obs _ th k' v' l Hl Hne Hlen) as (mx & _ & _ & ->).
    eauto. }
  split; [|split].
  - intros Hl. apply Hfirst. unfold mask_of. by rewrite Hl.
  - intros Hk. apply Hfirst. unfold mask_of. by rewrite dict_get_missing.
  - intros l Hl Hne Hlen. apply Hfirst. unfold mask_of. rewrite Hl, bind_Ok.
    destruct (np_max_spec l Hne) as (mx & Hmx & _).
    unfold point_mask. rewrite Hmx, !bind_Ok.
    assert (Hbi : ∀ (v : list Q) (bs : list bool),
              length v ≠ length bs → bool_index v bs = Raise IndexError).
    { clear. induction v as [|x v IH]; intros [|b bs] Hlen; simpl in *;
        try done. rewrite IH by lia. done. }
    rewrite Hbi; [done|]. by rewrite length_fmap.
Qed.

End GetMasked.

Lemma ex_cube_scores (re_scores : list Q) k v :
  re_scores ≠ [] → length re_scores = 5%nat →
  (k, v) ∈ [("a"%string, [0; 1 # 4; 1 # 2; 3 # 4; 1])] →
  ∃ l, dict_get [("a"%string, re_scores)] k = Ok l ∧ l ≠ [] ∧ length v = length l.
Proof.
  intros Hne Hlen Hin. apply list_elem_of_singleton in Hin as [= -> ->].
  exists re_scores. split; [reflexivity|]. split; [done | by rewrite Hlen].
Defined.


Lemma get_masked_monotone_witness :
  ∃ ml1 ml2,
    get_masked ex_cdf ex_sample ex_prior tt (Some ex_re) 10000 (-10) =
      Ok {| prior_config := ex_config; mask := Some ml1; priors := priors ex_prior |} ∧
    get_masked ex_cdf ex_sample ex_prior tt (Some ex_re) 10000 (-46 # 10) =
      Ok {| prior_config := ex_config; mask := Some ml2; priors := priors ex_prior |} ∧
    Forall2 (λ (k1 k2 : string * BallMask),
               k2.1 = k1.1 ∧ sublist (ind_points k2.2) (ind_points k1.2)) ml1 ml2.
Proof.
  destruct (get_masked_monotone ex_cdf ex_sample ex_prior tt ex_re 10000
              (-10) (-46 # 10) [("a"%string, [0; 1 # 4; 1 # 2; 3 # 4; 1])])
    as (ml1 & ml2 & H1 & H2 & _ & Hsub);
    [reflexivity | reflexivity | intros k v; by apply ex_cube_scores | done |].
  exists ml1, ml2. split; [exact H1|]. split; [exact H2 | exact Hsub].
Defined.

Lemma get_masked_errors_witness :
  get_masked ex_cdf ex_sample ex_prior tt (Some ex_re_empty) 10000 (-10) =
    Raise (ValueError "zero-size array to reduction operation maximum").
Proof.
  destruct (get_masked_errors ex_cdf ex_sample ex_prior tt ex_re_empty 10000
              (-10) [] "a" [0; 1 # 4; 1 # 2; 3 # 4; 1] []) as (H & _).
  - reflexivity.
  - intros k v Hin. inversion Hin.
  - apply H. reflexivity.
Defined.

End PriorMore.
(* ===================================================================== *)
(** * Theorems: what the rejection sampler returns *)
(* ===================================================================== *)

Section PosteriorMore.
Import PosteriorCollection PosteriorSpec.

Variable weight_keys : gset ptuple.
Variable kept : nat -> ptuple -> draws.

#[local] Abbreviation loop_ := (loop weight_keys kept).
#[local] Abbreviation rejection_sample_ := (rejection_sample weight_keys kept).

Lemma collected_S (k : nat) (pt : ptuple) :
  collected kept (S k) pt = collected kept k pt ++ kept k pt.
Proof.
  unfold collected. rewrite seq_S, fmap_app, concat_app. simpl.
  by rewrite app_nil_r.
Qed.

Lemma take_full {A} (N : nat) (c : list A) :
  length (take N c) = N ↔ (N ≤ length c)%nat.
Proof. rewrite length_take. lia. Qed.

Lemma completes_at_unique (N k k' : nat) (pt : ptuple) :
  completes_at kept N k pt → completes_at kept N k' pt → k = k'.
Proof.
  intros (H1 & Hk & Hlt) (H1' & Hk' & Hlt').
  destruct (Nat.lt_trichotomy k k') as [Hc | [Hc | Hc]]; [|done|].
  - specialize (Hlt' k). lia.
  - specialize (Hlt k'). lia.
Qed.

Lemma collect_step (N it : nat) (pt : ptuple) (st : loop_state) (c : draws) :
  collector st !! pt = Some c →
  collect kept N it pt st =
    Ok {| collector := <[pt := c ++ kept it pt]> (collector st);
          out := if decide (length (take N (c ++ kept it pt)) = N)
                 then <[pt := take N (c ++ kept it pt)]> (out st)
                 else out st |}.
Proof. intros H. unfold collect, draws in *. by rewrite H. Qed.

(** One pass of [for param_tuple in remaining_param_tuples]. *)
Lemma collect_fold_rows (N it : nat) (st : loop_state) (s : gset ptuple) :
  (∀ pt, pt ∈ s → collector st !! pt = Some (collected kept it pt)) →
  ∃ st',
    set_fold (λ pt acc, st ← acc; collect kept N it pt st) (Ok st) s = Ok st' ∧
    (∀ pt, pt ∈ s →
       collector st' !! pt = Some (collected kept (S it) pt) ∧
       out st' !! pt =
         if decide (N ≤ length (collected kept (S it) pt))%nat
         then Some (take N (collected kept (S it) pt))
         else out st !! pt) ∧
    (∀ pt, pt ∉ s →
       collector st' !! pt = collector st !! pt ∧
       out st' !! pt = out st !! pt).
Proof.
  intros Hcol.
  assert (H : ∀ X : gset ptuple, X ⊆ s →
            ∃ st',
              set_fold (λ pt acc, st ← acc; collect kept N it pt st) (Ok st) X
                = Ok st' ∧
              (∀ pt, pt ∈ X →
                 collector st' !! pt = Some (collected kept (S it) pt) ∧
                 out st' !! pt =
                   if decide (N ≤ length (collected kept (S it) pt))%nat
                   then Some (take N (collected kept (S it) pt))
                   else out st !! pt) ∧
              (∀ pt, pt ∉ X →
                 collector st' !! pt = collector st !! pt ∧
                 out st' !! pt = out st !! pt));
    [|by apply (H s)].
  apply (set_fold_ind_L
    (λ (acc : result loop_state) (X : gset ptuple),
       X ⊆ s →
       ∃ st', acc = Ok st' ∧
         (∀ pt, pt ∈ X →
            collector st' !! pt = Some (collected kept (S it) pt) ∧
            out st' !! pt =
              if decide (N ≤ length (collected kept (S it) pt))%nat
              then Some (take N (collected kept (S it) pt))
              else out st !! pt) ∧
         (∀ pt, pt ∉ X →
            collector st' !! pt = collector st !! pt ∧
            out st' !! pt = out st !! pt))).
  - intros _. exists st. split; [done|]. split; [set_solver | done].
  - intros x X r Hx IH Hsub.
    destruct IH as (st1 & -> & Hin & Hnot); [set_solver|].
    rewrite bind_Ok.
    destruct (Hnot x Hx) as [Hcx Hox].
    rewrite Hcol in Hcx by set_solver.
    rewrite (collect_step N it x st1 _ Hcx).
    eexists. split; [reflexivity|]. simpl.
    rewrite <- collected_S. split.
    + intros pt Hpt. destruct (decide (pt = x)) as [->|Hne].
      * rewrite lookup_insert_eq. split; [done|].
        destruct (decide (N ≤ length (collected kept (S it) x))%nat) as [Hle|Hle].
        -- rewrite decide_True by (by apply take_full).
           by rewrite lookup_insert_eq.
        -- rewrite decide_False by (by rewrite take_full). done.
      * assert (HX : pt ∈ X) by set_solver.
        destruct (Hin pt HX) as [Hc Ho].
        rewrite lookup_insert_ne by done. split; [done|].
        destruct (decide (length (take N (collected kept (S it) x)) = N));
          [rewrite lookup_insert_ne by done|]; exact Ho.
    + intros pt Hpt.
      assert (Hne : x ≠ pt) by set_solver.
      assert (HX : pt ∉ X) by set_solver.
      destruct (Hnot pt HX) as [Hc Ho].
      rewrite lookup_insert_ne by done. split; [done|].
      case_decide; [by rewrite lookup_insert_ne|done].
Qed.

(** The loop: what [out] holds when it ends, and what it lacks. *)
Lemma loop_rows (l : positive) (s0 : gset ptuple) (N : nat) :
  ∀ (fuel counter : nat) (h : heap) (st : loop_state) (s : gset ptuple),
  h !! l = Some (PySet s) → s ⊆ weight_keys →
  s = s0 ∖ dom (out st) → dom (out st) ⊆ s0 →
  (∀ pt, pt ∈ s →
     collector st !! pt = Some (collected kept counter pt) ∧
     ∀ j, (1 ≤ j ≤ counter)%nat → (length (collected kept j pt) < N)%nat) →
  (∀ pt d, out st !! pt = Some d →
     ∃ k, (k ≤ counter)%nat ∧ completes_at kept N k pt ∧
          d = take N (collected kept k pt)) →
  ∃ out',
    (loop_ fuel counter l N h st).2 = Ok out' ∧
    dom out' ⊆ s0 ∧
    (∀ pt d, out' !! pt = Some d →
       ∃ k, (k ≤ counter + fuel)%nat ∧ completes_at kept N k pt ∧
            d = take N (collected kept k pt)) ∧
    (∀ pt, pt ∈ s0 → out' !! pt = None →
       ∀ j, (1 ≤ j ≤ counter + fuel)%nat → (length (collected kept j pt) < N)%nat).
Proof.
  induction fuel as [|fuel IH]; intros counter h st s Hl Hw Hs Hout Hrem Hdone.
  - exists (out st). simpl. split; [done|]. split; [done|]. split.
    + intros pt d Hd. destruct (Hdone pt d Hd) as (k & ? & ? & ?).
      exists k. split; [lia | done].
    + intros pt Hpt Hnone j Hj.
      assert (Hin : pt ∈ s).
      { rewrite Hs. apply elem_of_difference. split; [done|].
        by apply not_elem_of_dom. }
      apply (Hrem pt Hin). lia.
  - cbn [loop]. rewrite Hl. rewrite decide_True by done.
    destruct (collect_fold_rows N counter st s) as (st' & -> & Hin & Hnot).
    { intros pt Hpt. by apply Hrem. }
    unfold draws in *.
    assert (Hold : ∀ pt, pt ∈ s → out st !! pt = None).
    { intros pt Hpt. rewrite Hs in Hpt. apply elem_of_difference in Hpt as [_ Hpt].
      by apply not_elem_of_dom. }
    assert (Hout' : dom (out st') ⊆ s0).
    { intros pt Hpt. apply elem_of_dom in Hpt as [d Hd]. unfold draws in *.
      destruct (decide (pt ∈ s)) as [Hps|Hps]; [set_solver|].
      destruct (Hnot pt Hps) as [_ Ho]. rewrite Ho in Hd.
      apply Hout. by apply elem_of_dom_2 in Hd. }
    assert (Hgrow : dom (out st) ⊆ dom (out st')).
    { intros pt Hpt. apply elem_of_dom in Hpt as [d Hd]. unfold draws in *.
      assert (Hps : pt ∉ s).
      { intros Hps. rewrite (Hold pt Hps) in Hd. discriminate. }
      destruct (Hnot pt Hps) as [_ Ho]. apply elem_of_dom. rewrite Ho. eauto. }
    assert (Heq : s ∖ dom (out st') = s0 ∖ dom (out st')) by set_solver.
    assert (Hrem' : ∀ pt, pt ∈ s ∖ dom (out st') →
              collector st' !! pt = Some (collected kept (S counter) pt) ∧
              ∀ j, (1 ≤ j ≤ S counter)%nat → (length (collected kept j pt) < N)%nat).
    { intros pt Hpt. apply elem_of_difference in Hpt as [Hps Hno].
      apply not_elem_of_dom in Hno. unfold draws in *.
      destruct (Hin pt Hps) as [Hc Ho]. split; [done|].
      intros j Hj. rewrite Ho in Hno.
      destruct (decide (N ≤ length (collected kept (S counter) pt))%nat) as [|Hlt];
        [discriminate|].
      destruct (decide (j = S counter)) as [->|Hne]; [lia|].
      apply (Hrem pt Hps). lia. }
    assert (Hdone' : ∀ pt d, out st' !! pt = Some d →
              ∃ k, (k ≤ S counter)%nat ∧ completes_at kept N k pt ∧
                   d = take N (collected kept k pt)).
    { intros pt d Hd. unfold draws in *. destruct (decide (pt ∈ s)) as [Hps|Hps].
      - destruct (Hin pt Hps) as [_ Ho]. rewrite Ho in Hd.
        destruct (decide (N ≤ length (collected kept (S counter) pt))%nat) as [Hle|];
          [|by rewrite (Hold pt Hps) in Hd].
        injection Hd as <-. exists (S counter). split; [lia|]. split; [|done].
        split; [lia|]. split; [done|].
        intros j Hj. apply (Hrem pt Hps). lia.
      - destruct (Hnot pt Hps) as [_ Ho]. rewrite Ho in Hd.
        destruct (Hdone pt d Hd) as (k & ? & ? & ?).
        exists k. split; [lia | done]. }
    case_decide as Hsize.
    + set (h' := <[l := PySet (s ∖ dom (out st'))]> h).
      assert (Hfr : l ≠ fresh (dom h')).
      { eapply fresh_not_in_heap. unfold h'. apply lookup_insert_eq. }
      destruct (IH (S counter) (alloc h' (PyWeights weight_keys)).2 st'
                   (s ∖ dom (out st')))
        as (out' & Hr & Hdom & Hent & Hmiss);
        [simpl; rewrite lookup_insert_ne by done; apply lookup_insert_eq
        | set_solver | done | done | done | done |].
      exists out'. split; [done|]. split; [done|].
      replace (counter + S fuel)%nat with (S counter + fuel)%nat by lia.
      done.
    + exists (out st'). simpl. split; [done|]. split; [done|]. split.
      * intros pt d Hd. destruct (Hdone' pt d Hd) as (k & ? & ? & ?).
        exists k. split; [lia | done].
      * intros pt Hpt Hnone.
        assert (Hemp : s ∖ dom (out st') = ∅).
        { apply leibniz_equiv, size_empty_inv. unfold draws in *. lia. }
        assert (Hr : pt ∈ s ∖ dom (out st')).
        { rewrite Heq. apply elem_of_difference. split; [done|].
          by apply not_elem_of_dom. }
        rewrite Hemp in Hr. set_solver.
Qed.

(** The call as a whole, for the caller's set or for None. *)
Lemma rejection_sample_rows (h : heap) (N maxiter : nat)
    (param_tuples : option positive) (s0 : gset ptuple) :
  requested weight_keys h param_tuples s0 →
  ∃ out',
    (rejection_sample_ h N maxiter param_tuples).2 = Ok out' ∧
    dom out' ⊆ s0 ∧
    (∀ pt d, out' !! pt = Some d →
       ∃ k, (k ≤ maxiter)%nat ∧ completes_at kept N k pt ∧
            d = take N (collected kept k pt)) ∧
    (∀ pt, pt ∈ s0 → out' !! pt = None →
       ∀ j, (1 ≤ j ≤ maxiter)%nat → (length (collected kept j pt) < N)%nat).
Proof.
  intros Hreq. unfold rejection_sample.
  destruct param_tuples as [l|]; simpl in Hreq; cbn [alloc];
    set (h1 := <[fresh (dom h) := PyWeights weight_keys]> h).
  - destruct Hreq as [Hl Hw].
    assert (Hl1 : h1 !! l = Some (PySet s0)).
    { unfold h1. rewrite lookup_insert_ne; [done|].
      intros Heq. by apply (fresh_not_in_heap _ _ _ Hl). }
    rewrite Hl1.
    apply (loop_rows l s0 N maxiter 0 h1
             {| collector := gset_to_gmap [] s0; out := ∅ |} s0); simpl;
      [done | done | set_solver | set_solver | |].
    + intros pt Hpt. split; [|lia].
      rewrite lookup_gset_to_gmap, option_guard_True by done. done.
    + intros pt d Hd. by rewrite lookup_empty in Hd.
  - subst s0.
    set (l2 := fresh (dom h1)).
    set (h2 := <[l2 := PySet weight_keys]> h1).
    assert (Hl2 : h2 !! l2 = Some (PySet weight_keys)) by apply lookup_insert_eq.
    rewrite Hl2.
    apply (loop_rows l2 weight_keys N maxiter 0 h2
             {| collector := gset_to_gmap [] weight_keys; out := ∅ |}
             weight_keys); simpl;
      [done | done | set_solver | set_solver | |].
    + intros pt Hpt. split; [|lia].
      rewrite lookup_gset_to_gmap, option_guard_True by done. done.
    + intros pt d Hd. by rewrite lookup_empty in Hd.
Qed.

(** X17: what [rejection_sample] returns: a requested tuple is in [out]
    exactly when, within maxiter iterations, its kept rows reach N, and its
    value is then the first N of the rows kept up to the first iteration at
    which they do; so every returned marginal has exactly N rows. *)
Theorem rejection_sample_result (h : heap) (N maxiter : nat)
    (param_tuples : option positive) (s0 : gset ptuple) :
  requested weight_keys h param_tuples s0 →
  ∃ out',
    (rejection_sample_ h N maxiter param_tuples).2 = Ok out' ∧
    (∀ pt d, out' !! pt = Some d ↔
       pt ∈ s0 ∧
       ∃ k, (k ≤ maxiter)%nat ∧ completes_at kept N k pt ∧
            d = take N (collected kept k pt)) ∧
    (∀ pt d, out' !! pt = Some d → length d = N).
Proof.
  intros Hreq.
  destruct (rejection_sample_rows h N maxiter param_tuples s0 Hreq)
    as (out' & Hr & Hdom & Hent & Hmiss).
  exists out'. split; [done|]. split.
  - intros pt d. split.
    + intros Hd. split; [apply Hdom; by apply elem_of_dom_2 in Hd | by apply Hent].
    + intros (Hpt & k & Hk & Hcomp & ->).
      destruct (out' !! pt) as [d'|] eqn:Hd'.
      * destruct (Hent pt d' Hd') as (k' & _ & Hcomp' & ->).
        by rewrite (completes_at_unique N k k' pt Hcomp Hcomp').
      * destruct Hcomp as (H1 & Hle & _).
        specialize (Hmiss pt Hpt Hd' k). lia.
  - intros pt d Hd. destruct (Hent pt d Hd) as (k & _ & (_ & Hle & _) & ->).
    by apply take_full.
Qed.

(** X18: raising maxiter only adds marginals: whatever a call with maxiter
    m returns for a tuple, a call with a larger maxiter returns for it
    too. *)
Theorem rejection_sample_maxiter_monotone (h : heap) (N m m' : nat)
    (param_tuples : option positive) (s0 : gset ptuple) :
  requested weight_keys h param_tuples s0 → (m ≤ m')%nat →
  ∃ out1 out2,
    (rejection_sample_ h N m param_tuples).2 = Ok out1 ∧
    (rejection_sample_ h N m' param_tuples).2 = Ok out2 ∧
    out1 ⊆ out2.
Proof.
  intros Hreq Hle.
  destruct (rejection_sample_rows h N m param_tuples s0 Hreq)
    as (out1 & Hr1 & Hdom1 & Hent1 & _).
  destruct (rejection_sample_rows h N m' param_tuples s0 Hreq)
    as (out2 & Hr2 & _ & Hent2 & Hmiss2).
  exists out1, out2. split; [done|]. split; [done|].
  apply map_subseteq_spec. intros pt d Hd.
  destruct (Hent1 pt d Hd) as (k & Hk & Hcomp & ->).
  destruct (out2 !! pt) as [d'|] eqn:Hd'.
  - destruct (Hent2 pt d' Hd') as (k' & _ & Hcomp' & ->).
    by rewrite (completes_at_unique N k k' pt Hcomp Hcomp').
  - assert (Hpt : pt ∈ s0) by (apply Hdom1; by apply elem_of_dom_2 in Hd).
    destruct Hcomp as (H1 & Hlen & _).
    specialize (Hmiss2 pt Hpt Hd' k). lia.
Qed.

End PosteriorMore.

Section PosteriorMoreExample.
Import PosteriorCollection PosteriorSpec.

(** Two draws are asked for and every iteration keeps one: the tuple is
    complete after the second iteration. *)
Lemma rejection_sample_result_witness :
  ∃ out',
    (rejection_sample ex_keys ex_kept ex_heap 2 5 (Some 1%positive)).2 = Ok out' ∧
    out' !! [0%nat] = Some [[(1 # 2)%Q]; [(1 # 2)%Q]].
Proof.
  destruct (rejection_sample_result ex_keys ex_kept ex_heap 2 5
              (Some 1%positive) {[ [0%nat] ]})
    as (out' & Hr & Hiff & _); [split; reflexivity|].
  exists out'. split; [exact Hr|].
  apply Hiff. split; [set_solver|].
  exists 2%nat. split; [lia|]. split; [|reflexivity].
  split; [lia|]. split; [simpl; lia|].
  intros j Hj. assert (j = 1%nat) as -> by lia. simpl. lia.
Defined.

Lemma rejection_sample_maxiter_monotone_witness :
  ∃ out1 out2,
    (rejection_sample ex_keys ex_kept ex_heap 2 1 (Some 1%positive)).2 = Ok out1 ∧
    (rejection_sample ex_keys ex_kept ex_heap 2 5 (Some 1%positive)).2 = Ok out2 ∧
    out1 ⊆ out2.
Proof.
  apply (rejection_sample_maxiter_monotone ex_keys ex_kept ex_heap 2 1 5
           (Some 1%positive) {[ [0%nat] ]}); [split; reflexivity | lia].
Defined.

End PosteriorMoreExample.
(* ===================================================================== *)
(** * Theorems: the cached indices of Points *)
(* ===================================================================== *)

Section PointsMore.
Import Points.

Context {Cache Intensity NoiseHook : Type}.
Variable cache_sample : Cache -> Intensity -> result (list nat).

#[local] Abbreviation object := (gmap string (@value Cache Intensity NoiseHook)).

(** X19: the indices are sampled once: after an access that returned them,
    every later access returns the same list and leaves the instance as it
    is, whatever the cache would sample by then. *)
Theorem indices_cached
    (cache_sample' : Cache -> Intensity -> result (list nat))
    (self self1 : object) (l : list nat) :
  indices cache_sample self = (self1, Ok l) →
  indices cache_sample' self1 = (self1, Ok l).
Proof.
  unfold indices at 1.
  destruct (self !! "indices") as [v|] eqn:Hi.
  - destruct v; intros [= <- <-]. unfold indices. by rewrite Hi.
  - destruct (getattr self "_indices") as [v|e]; [|intros [=]].
    destruct v; try (intros [=]; fail).
    + match goal with
      | |- context [match ?r with Ok _ => _ | Raise _ => _ end] => destruct r
      end; intros [= <- <-].
      unfold indices. by rewrite lookup_insert_eq.
    + intros [= <- <-]. unfold indices. by rewrite lookup_insert_eq.
Qed.

End PointsMore.

Section PointsMoreExample.
Import Points PointsSpec.

(** The first access samples the one record; the second needs no cache. *)
Lemma indices_cached_witness :
  ∃ self self1,
    ex_init [(1 # 1, 2 # 1)%Q] tt None = Ok self ∧
    indices ex_sample self = (self1, Ok [0%nat]) ∧
    indices ex_sample_failing self1 = (self1, Ok [0%nat]).
Proof.
  eexists. eexists. split; [reflexivity|].
  assert (H : ∀ a b : gmap string (@value ex_cache unit unit),
            indices ex_sample a = (b, Ok [0%nat]) →
            indices ex_sample a = (b, Ok [0%nat]) ∧
            indices ex_sample_failing b = (b, Ok [0%nat])).
  { intros a b Hab. split; [exact Hab|].
    exact (indices_cached ex_sample ex_sample_failing a b [0%nat] Hab). }
  apply H. vm_compute. reflexivity.
Defined.

End PointsMoreExample.

(* ===================================================================== *)
(** * Theorems: class Posteriors *)
(* ===================================================================== *)

Section PosteriorsFacts.
Import Posteriors.

Context {Dataset Prior Indices RE Marginals PriorSD RESD Obs Out : Type}.
Context `{Countable Marginals}.
Variable dataset_prior : Dataset -> result Prior.
Variable dataset_indices : Dataset -> result Indices.
Variable dataset_len : Dataset -> result Z.
Variable new_estimator : Marginals -> result RE.
Variable re_train : RE -> Dataset -> result RE.
Variable prior_from_state_dict : PriorSD -> result Prior.
Variable re_from_state_dict : RESD -> result RE.
Variable collection_rejection_sample :
  @value Dataset Prior Indices RE Marginals _ _ ->
  @value Dataset Prior Indices RE Marginals _ _ -> Z -> Obs -> Z -> Z -> result Out.

#[local] Abbreviation object :=
  (gmap string (@value Dataset Prior Indices RE Marginals _ _)).
#[local] Abbreviation reachable_ :=
  (reachable dataset_prior dataset_indices dataset_len new_estimator re_train
             prior_from_state_dict re_from_state_dict
             collection_rejection_sample).
#[local] Abbreviation add_ := (add new_estimator).
#[local] Abbreviation train_ := (train re_train).
#[local] Abbreviation rejection_sample_ :=
  (rejection_sample collection_rejection_sample).
#[local] Abbreviation from_state_dict_ :=
  (from_state_dict prior_from_state_dict re_from_state_dict).

Lemma add_other_attr (self : object) marginals name :
  name ≠ "_ratios" → (add_ self marginals).1 !! name = self !! name.
Proof.
  intros Hne. unfold add.
  destruct (new_estimator marginals); [|done].
  destruct (getattr self "_ratios") as [[]|]; simpl; try done.
  by rewrite lookup_insert_ne.
Qed.

Lemma train_other_attr (self : object) marginals name :
  name ≠ "_ratios" → (train_ self marginals).1 !! name = self !! name.
Proof.
  intros Hne. unfold train.
  destruct (getattr self "_ratios") as [[]|]; simpl; try done.
  destruct (_ !! marginals); [|done].
  destruct (getattr self "_dataset") as [[]|]; simpl; try done.
  destruct (re_train _ _); simpl; [|done].
  by rewrite lookup_insert_ne.
Qed.

Lemma reachable_no_ratios (self : object) :
  reachable_ self → self !! "ratios" = None.
Proof.
  induction 1 as [dataset self Hinit | sd dataset device self Hsd
                 | self marginals _ IH | self marginals _ IH
                 | self N obs ef mi _ IH].
  - unfold __init__ in Hinit.
    destruct (dataset_prior dataset); [|done].
    destruct (dataset_indices dataset); [|done].
    destruct (dataset_len dataset); [|done].
    rewrite !bind_Ok in Hinit. injection Hinit as <-.
    by rewrite !lookup_insert_ne.
  - unfold from_state_dict in Hsd.
    destruct (prior_from_state_dict _); [|done].
    rewrite bind_Ok in Hsd.
    destruct (mapM re_from_state_dict _); [|done].
    rewrite bind_Ok in Hsd. injection Hsd as <-.
    by rewrite !lookup_insert_ne.
  - by rewrite add_other_attr.
  - by rewrite train_other_attr.
  - done.
Qed.

(** X20: [Posteriors.rejection_sample] never reaches the sampler: on every
    instance built by the constructor or from a state dict and used through
    add, train and rejection_sample, it raises AttributeError for the
    attribute [ratios], which no method assigns, and leaves the instance as
    it is. *)
Theorem posteriors_rejection_sample_raises (self : object) (N : Z) (obs : Obs)
    (excess_factor maxiter : Z) :
  reachable_ self →
  Posteriors.rejection_sample collection_rejection_sample
      self N obs excess_factor maxiter =
    (self, Raise (AttributeError "ratios")).
Proof.
  intros Hr. unfold rejection_sample, getattr.
  by rewrite (reachable_no_ratios self Hr).
Qed.

(** X21: an instance restored by [from_state_dict] holds its estimators in a
    list, not in the dictionary the constructor makes: on it [train] raises
    TypeError, and [add] raises too (TypeError once the new estimator is
    built); neither changes the instance. *)
Theorem restored_posteriors_reject_marginals (state_dict : StateDict)
    (dataset : option Dataset) (device : string) (self : object)
    (marginals : Marginals) :
  from_state_dict_ state_dict dataset device = Ok self →
  train_ self marginals = (self, Raise TypeError) ∧
  (add_ self marginals).1 = self ∧
  (∀ re, new_estimator marginals = Ok re →
         add_ self marginals = (self, Raise TypeError)).
Proof.
  intros Hsd. unfold from_state_dict in Hsd.
  destruct (prior_from_state_dict _) as [p|]; [|done].
  rewrite bind_Ok in Hsd.
  destruct (mapM re_from_state_dict _) as [rs|]; [|done].
  rewrite bind_Ok in Hsd. injection Hsd as <-.
  assert (Hr : ∀ rest : object,
            getattr (<["_device" := VStr device]>
                       (<["_dataset" := match dataset with
                                        | Some d => VDataset d
                                        | None => VNone
                                        end]>
                          (<["_ratios" := VList rs]> rest))) "_ratios"
            = Ok (VList rs)).
  { intros rest. unfold getattr.
    do 2 (rewrite lookup_insert_ne by done). by rewrite lookup_insert_eq. }
  split; [|split].
  - unfold train. by rewrite Hr.
  - unfold add. destruct (new_estimator marginals); [|done]. by rewrite Hr.
  - intros re Hre. unfold add. by rewrite Hre, Hr.
Qed.

End PosteriorsFacts.

Section PosteriorsExample.
Import Posteriors PosteriorsSpec.

(** A fresh instance with one marginal added. *)
Lemma posteriors_rejection_sample_raises_witness :
  ∃ self, ex_init = Ok self ∧
    ex_rejection_sample (ex_add self 1%nat).1 10 tt 100 1000 =
      ((ex_add self 1%nat).1, Raise (AttributeError "ratios")).
Proof.
  eexists. split; [reflexivity|].
  apply (posteriors_rejection_sample_raises
           (λ _ : unit, Ok tt) (λ _ : unit, Ok tt) (λ _ : unit, Ok 3%Z)
           (λ _ : nat, Ok tt) (λ (_ : unit) (_ : unit), Ok tt)
           (λ _ : unit, Ok tt) (λ _ : unit, Ok tt)
           (λ _ _ N _ _ _, Ok N)).
  apply reach_add. eapply (reach_init _ _ _ _ _ _ _ _ tt). reflexivity.
Defined.

Lemma restored_posteriors_reject_marginals_witness :
  ∃ self,
    ex_from_state_dict
      {| sd_prior := tt; sd_indices := tt; sd_N := 3; sd_ratios := [tt] |}
      None "cpu" = Ok self ∧
    ex_add self 1%nat = (self, Raise TypeError).
Proof.
  eexists. split; [reflexivity|].
  refine (proj2 (proj2 (restored_posteriors_reject_marginals
           (λ _ : nat, Ok tt) (λ (_ : unit) (_ : unit), Ok tt)
           (λ _ : unit, Ok tt) (λ _ : unit, Ok tt)
           {| sd_prior := tt; sd_indices := tt; sd_N := 3; sd_ratios := [tt] |}
           None "cpu" _ 1%nat _)) tt _); reflexivity.
Defined.

End PosteriorsExample.
